(** * Inception score (src/inception_score.py): a shallow embedding

    The development follows the source function [inception_score] and the
    preprocessing head of [Inception.__call__].  Python integers are [Z],
    array contents are lists, the thread of effects (the array store, the
    Chainer configuration, uninitialised memory, the classifier invocations)
    is an explicit state with exceptions.  The classes [Pooling2D], [Mixed],
    [Tower] and the layers of [Inception] follow: constructor expressions
    as a syntax tree, the objects they build, and [__call__] over an
    interpretation of Chainer's functions, one of which computes shapes.

    Scalars.  The arrays hold float32 values.  They are modelled as the
    reals extended with the IEEE-754 special values: arithmetic on finite
    values is exact (rounding, overflow and the sign of zero are abstracted
    away), while infinities and NaN behave as in IEEE-754, so that
    [log 0 = -inf] and [-inf - -inf = nan] as in NumPy.  A finite value of
    the model thus stands for a float32 value only as long as the
    computation stays in range; the theorems on the size of the scores
    are stated for rows that are probability distributions, for which the
    exponent is shown to lie between 0 and the logarithm of the number
    of rows. *)

From Stdlib Require Import ZArith Reals Lra Lia.
From stdpp Require Import base list strings.

(* ===================================================================== *)
(** ** Scalars *)

Inductive float : Type :=
| Fin (r : R)
| Inf (negative : bool)
| NaN.

Definition Rsign (r : R) : comparison :=
  if Rlt_dec 0 r then Gt else if Rlt_dec r 0 then Lt else Eq.

Definition fneg (x : float) : float :=
  match x with
  | Fin r => Fin (- r)
  | Inf s => Inf (negb s)
  | NaN => NaN
  end.

Definition fadd (x y : float) : float :=
  match x, y with
  | NaN, _ | _, NaN => NaN
  | Fin a, Fin b => Fin (a + b)
  | Fin _, Inf s | Inf s, Fin _ => Inf s
  | Inf s, Inf t => if Bool.eqb s t then Inf s else NaN
  end.

Definition fsub (x y : float) : float := fadd x (fneg y).

Definition fmul (x y : float) : float :=
  match x, y with
  | NaN, _ | _, NaN => NaN
  | Fin a, Fin b => Fin (a * b)
  | Fin a, Inf s | Inf s, Fin a =>
      match Rsign a with
      | Gt => Inf s
      | Lt => Inf (negb s)
      | Eq => NaN
      end
  | Inf s, Inf t => Inf (xorb s t)
  end.

Definition fdiv (x y : float) : float :=
  match x, y with
  | NaN, _ | _, NaN => NaN
  | Fin a, Fin b =>
      match Rsign b with
      | Eq => match Rsign a with
              | Gt => Inf false
              | Lt => Inf true
              | Eq => NaN
              end
      | _ => Fin (a / b)
      end
  | Fin _, Inf _ => Fin 0
  | Inf s, Fin b => match Rsign b with Lt => Inf (negb s) | _ => Inf s end
  | Inf _, Inf _ => NaN
  end.

Definition flog (x : float) : float :=
  match x with
  | Fin r => match Rsign r with
             | Gt => Fin (ln r)
             | Eq => Inf true
             | Lt => NaN
             end
  | Inf false => Inf false
  | Inf true => NaN
  | NaN => NaN
  end.

Definition fexp (x : float) : float :=
  match x with
  | Fin r => Fin (exp r)
  | Inf false => Inf false
  | Inf true => Fin 0
  | NaN => NaN
  end.

Definition fsqrt (x : float) : float :=
  match x with
  | Fin r => match Rsign r with Lt => NaN | _ => Fin (sqrt r) end
  | Inf false => Inf false
  | Inf true => NaN
  | NaN => NaN
  end.

(** [float(k)] for a count [k]. *)
Definition of_nat (k : nat) : float := Fin (INR k).

(* ===================================================================== *)
(** ** One-dimensional reductions of the array module [xp] *)

(** [xp.sum(v)]: accumulation from the additive identity. *)
Definition fsum (v : list float) : float := fold_left fadd v (Fin 0).

(** [xp.mean(v)]: the sum divided by the number of entries; the mean of an
    empty vector is [0/0 = nan]. *)
Definition fmean (v : list float) : float := fdiv (fsum v) (of_nat (length v)).

(** [xp.std(v)] with its default [ddof = 0]: the deviations from the mean
    are squared, averaged over the number of entries, and the root is
    taken. *)
Definition fstd (v : list float) : float :=
  let m := fmean v in
  fsqrt (fmean (map (fun x => let d := fsub x m in fmul d d) v)).

(* ===================================================================== *)
(** ** Exceptions and the state-and-exception monad *)

Inductive exn : Type :=
| ZeroDivisionError          (* float(n) / float(0) *)
| ValueError                 (* negative dimension, shapes that do not broadcast *)
| BadRef                     (* a reference to an array that was never allocated *)
| ModelError (code : nat).   (* whatever the classifier raises *)

Inductive result (A : Type) : Type :=
| Ok (a : A)
| Raise (e : exn).
Arguments Ok {A} a.
Arguments Raise {A} e.

Definition SE (S A : Type) : Type := S -> result A * S.

Definition ret {S A} (a : A) : SE S A := fun s => (Ok a, s).

Definition raise {S A} (e : exn) : SE S A := fun s => (Raise e, s).

Definition bind {S A B} (c : SE S A) (k : A -> SE S B) : SE S B :=
  fun s => match c s with
           | (Ok a, s') => k a s'
           | (Raise e, s') => (Raise e, s')
           end.

Declare Scope se_scope.
Delimit Scope se_scope with se.
Notation "x <- c ;; k" := (bind c (fun x => k))
  (at level 100, c at next level, right associativity) : se_scope.
Notation "c ;;; k" := (bind c (fun _ => k))
  (at level 100, right associativity) : se_scope.
Open Scope se_scope.

(** [for x in xs: acc = body(x, acc)], stopping at the first exception. *)
Fixpoint for_each {S A X} (xs : list X) (body : X -> A -> SE S A) (acc : A)
  : SE S A :=
  match xs with
  | [] => ret acc
  | x :: xs' => acc' <- body x acc ;; for_each xs' body acc'
  end.

(** [range(k)] for a Python integer [k]: empty when [k <= 0]. *)
Definition range (k : Z) : list nat := seq 0 (Z.to_nat k).

(* ===================================================================== *)
(** ** Arrays, the store and the Chainer configuration *)

(** An image is its pixel buffer; a four-dimensional array of shape
    [(n, c, w, h)] is the list of its [n] images with the three remaining
    extents (named as the source names them when it unpacks [ims.shape]). *)
Definition image : Type := list float.

Record ndarray : Type := mk_ndarray {
  channels : nat;
  dim_w : nat;
  dim_h : nat;
  images : list image
}.

Definition map_pixels (f : float -> float) (a : ndarray) : ndarray :=
  mk_ndarray (channels a) (dim_w a) (dim_h a) (map (map f) (images a)).

(** A two-dimensional array of shape [(nrows, ncols)], as the classifier
    returns it in [y.data]. *)
Record matrix : Type := mk_matrix {
  nrows : nat;
  ncols : nat;
  cell : nat -> nat -> float
}.

Definition loc : Type := nat.

(** [base[start:stop]] is a view: it shares the buffer of [base]. *)
Record view : Type := mk_view {
  base : loc;
  start : nat;
  stop : nat
}.

(** What [Inception.__call__] may receive as [x]: a bare array or a
    [chainer.Variable] wrapping one. *)
Inductive pyval : Type :=
| NdArray (v : view)
| Var (v : view).

Definition data (x : pyval) : view :=
  match x with NdArray v | Var v => v end.

Inductive array_module : Type := numpy | cupy.

(** The part of the state a classifier can reach: the array store, the
    thread-local Chainer flags, and whatever an uninitialised allocation
    happens to contain. *)
Record world : Type := mk_world {
  heap : list ndarray;
  train : bool;
  enable_backprop : bool;
  garbage : nat -> nat -> float
}.

(** Observations of a run, kept by the driver side only: printed lines, one
    record per classifier invocation, and the rows of [ys] assigned. *)
Inductive event : Type :=
| PrintBatchSize (batch_size : Z)
| PrintTotalImages (n : nat)
| PrintTotalBatches (n_batches : Z)
| PrintRunning (i n_batches : Z).

Record call_rec : Type := mk_call {
  c_range : Z * Z;                (* batch_start, batch_end *)
  c_input : option ndarray;       (* contents of the argument at entry *)
  c_train : bool;                 (* chainer.config.train at entry *)
  c_backprop : bool               (* chainer.config.enable_backprop at entry *)
}.

Record trace : Type := mk_trace {
  stdout : list event;
  calls : list call_rec;
  writes : list nat
}.

Definition state : Type := world * trace.

Definition W (A : Type) : Type := SE world A.
Definition M (A : Type) : Type := SE state A.

Definition lift {A} (c : W A) : M A :=
  fun st => let '(r, w') := c (fst st) in (r, (w', snd st)).

Definition set_heap (h : list ndarray) (w : world) : world :=
  mk_world h (train w) (enable_backprop w) (garbage w).

Definition load (l : loc) : W ndarray :=
  fun w => match heap w !! l with
           | Some a => (Ok a, w)
           | None => (Raise BadRef, w)
           end.

Definition alloc (a : ndarray) : W view :=
  fun w => (Ok (mk_view (length (heap w)) 0 (length (images a))),
            set_heap (heap w ++ [a]) w).

Definition rows_of {A} (lo hi : nat) (l : list A) : list A :=
  take (hi - lo) (drop lo l).

(** The array a view denotes: rows [[lo, hi)] of its base. *)
Definition slice_array (a : ndarray) (lo hi : nat) : ndarray :=
  mk_ndarray (channels a) (dim_w a) (dim_h a) (rows_of lo hi (images a)).

Definition read (v : view) : W ndarray :=
  a <- load (base v) ;;
  ret (slice_array a (start v) (stop v)).

(** In-place update of the rows a view covers. *)
Definition update_rows (f : image -> image) (v : view) : W unit :=
  fun w => match heap w !! base v with
           | Some a =>
               let imgs := images a in
               let imgs' := take (start v) imgs
                              ++ map f (rows_of (start v) (stop v) imgs)
                              ++ drop (start v + (stop v - start v)) imgs in
               (Ok tt, set_heap (<[base v :=
                          mk_ndarray (channels a) (dim_w a) (dim_h a) imgs']>
                          (heap w)) w)
           | None => (Raise BadRef, w)
           end.

(** Python slice bounds [a:b] on an axis of extent [len]. *)
Definition clip_index (len : nat) (i : Z) : nat :=
  Z.to_nat (if (i <? 0)%Z then Z.max (i + Z.of_nat len) 0
            else Z.min i (Z.of_nat len)).

Definition getitem (l : loc) (len : nat) (a b : Z) : view :=
  mk_view l (clip_index len a) (clip_index len b).

(** [xp.asarray]: NumPy hands back the array it was given, CuPy copies it
    to the device. *)
Definition asarray (xp : array_module) (v : view) : W view :=
  match xp with
  | numpy => ret v
  | cupy => a <- read v ;; alloc a
  end.

(** Chainer flags and [chainer.using_config]: a context manager that sets
    the flag, runs the body, and puts the former value back on the way out,
    also when the body raises. *)
Inductive config_key : Type := Train | EnableBackprop.

Definition get_config (k : config_key) (w : world) : bool :=
  match k with Train => train w | EnableBackprop => enable_backprop w end.

Definition set_config (k : config_key) (b : bool) (w : world) : world :=
  match k with
  | Train => mk_world (heap w) b (enable_backprop w) (garbage w)
  | EnableBackprop => mk_world (heap w) (train w) b (garbage w)
  end.

Definition using_config {A} (k : config_key) (value : bool) (body : M A) : M A :=
  fun st =>
    let old_value := get_config k (fst st) in
    let '(r, st') := body (set_config k value (fst st), snd st) in
    (r, (set_config k old_value (fst st'), snd st')).

(** Steps that touch the observations only. *)
Definition on_trace {A} (c : SE trace A) : M A :=
  fun st => let '(r, t') := c (snd st) in (r, (fst st, t')).

Definition emit (e : event) : SE trace unit :=
  fun t => (Ok tt, mk_trace (stdout t ++ [e]) (calls t) (writes t)).

Definition record_call (entry : call_rec) : SE trace unit :=
  fun t => (Ok tt, mk_trace (stdout t) (calls t ++ [entry]) (writes t)).

Definition record_writes (rows : list nat) : SE trace unit :=
  fun t => (Ok tt, mk_trace (stdout t) (calls t) (writes t ++ rows)).

Definition print (e : event) : M unit := on_trace (emit e).

(* ===================================================================== *)
(** ** The classifier interface *)

(** A model exposes its array module ([model.xp]) and can be called on a
    batch; the call may read and change the world and may raise.  The
    result stands for [y.data]. *)
Record Model : Type := mk_model {
  xp : array_module;
  call : pyval -> W matrix
}.

(** A classifier that is a function of the flags and of the contents of
    the batch it is handed, and of nothing else. *)
Definition pure_model (m : array_module)
    (f : bool -> bool -> ndarray -> result matrix) : Model :=
  mk_model m (fun x =>
    a <- read (data x) ;;
    fun w => (f (train w) (enable_backprop w) a, w)).

(** [model(ims_batch)], with the invocation recorded. *)
Definition entry_of (rng : Z * Z) (x : pyval) (w : world) : call_rec :=
  mk_call rng (match read (data x) w with (Ok a, _) => Some a | _ => None end)
          (train w) (enable_backprop w).

Definition invoke (model : Model) (rng : Z * Z) (x : pyval) : M matrix :=
  (fun st => on_trace (record_call (entry_of rng x (fst st))) st) ;;;
  lift (call model x).

(* ===================================================================== *)
(** ** [inception_score] *)

Definition n_classes : nat := 1008.

(** [xp.empty]: the shape is as asked, the contents are whatever the
    allocator hands out. *)
Definition empty2 (g : nat -> nat -> float) (n k : nat) : list (list float) :=
  map (fun r => map (g r) (seq 0 k)) (seq 0 n).

Definition empty1 (g : nat -> nat -> float) (k : nat) : list float :=
  map (g 0%nat) (seq 0 k).

Definition empty_matrix (n k : nat) : M (list (list float)) :=
  fun st => (Ok (empty2 (garbage (fst st)) n k), st).

Definition empty_vector (k : Z) : M (list float) :=
  fun st => if (k <? 0)%Z then (Raise ValueError, st)
            else (Ok (empty1 (garbage (fst st)) (Z.to_nat k)), st).

(** [int(math.ceil(float(n) / float(batch_size)))], on integers: the
    quotient of two doubles rounds up to the same integer as long as [n]
    and [batch_size] are below [2^52], which every array that fits in
    memory satisfies.  Division by zero raises. *)
Definition ceil_div {S} (n : nat) (d : Z) : SE S Z :=
  if (d =? 0)%Z then raise ZeroDivisionError
  else ret (- ((- Z.of_nat n) / d))%Z.

(** NumPy broadcasting of an extent [d] against a target extent. *)
Definition broadcasts_to (d target : nat) : bool :=
  (d =? target)%nat || (d =? 1)%nat.

Definition bidx (d i : nat) : nat := if (d =? 1)%nat then 0%nat else i.

Definition broadcast_rows (y : matrix) (len k : nat) : list (list float) :=
  map (fun j => map (fun c => cell y (bidx (nrows y) j) (bidx (ncols y) c))
                    (seq 0 k))
      (seq 0 len).

(** [ys[a:b] = y] for [ys] of shape [(len ys, 1008)]: the value is
    broadcast to the shape of the slice, or the assignment raises. *)
Definition assign (ys : list (list float)) (a b : Z) (y : matrix)
  : result (list (list float)) :=
  let lo := clip_index (length ys) a in
  let hi := clip_index (length ys) b in
  let len := (hi - lo)%nat in
  if broadcasts_to (nrows y) len && broadcasts_to (ncols y) n_classes then
    Ok (take lo ys ++ broadcast_rows y len n_classes ++ drop (lo + len) ys)
  else Raise ValueError.

Definition written (len : nat) (a b : Z) : list nat :=
  seq (clip_index len a) (clip_index len b - clip_index len a).

Definition store_rows (ys : list (list float)) (a b : Z) (y : matrix)
  : SE trace (list (list float)) :=
  match assign ys a b y with
  | Ok ys' => record_writes (written (length ys) a b) ;;; ret ys'
  | Raise e => raise e
  end.

Definition setitem (ys : list (list float)) (a b : Z) (y : matrix)
  : M (list (list float)) :=
  on_trace (store_rows ys a b y).

(** [part = ys[a:b, :]] *)
Definition getrows (ys : list (list float)) (a b : Z) : list (list float) :=
  rows_of (clip_index (length ys) a) (clip_index (length ys) b) ys.

(** [xp.mean(part, 0)]: the rows are accumulated, then divided by their
    number. *)
Definition sum_axis0 (part : list (list float)) : list float :=
  fold_left (zip_with fadd) part (replicate n_classes (Fin 0)).

Definition mean_axis0 (part : list (list float)) : list float :=
  map (fun s => fdiv s (of_nat (length part))) (sum_axis0 part).

(** [part * (xp.log(part) - xp.log(xp.expand_dims(xp.mean(part, 0), 0)))]:
    the row of log-means is broadcast against every row of [part]. *)
Definition kl_matrix (part : list (list float)) : list (list float) :=
  let log_mean := map flog (mean_axis0 part) in
  map (fun row => zip_with fmul row (zip_with fsub (map flog row) log_mean))
      part.

(** Line 58: the rows of split [i]. *)
Definition split_part (ys : list (list float)) (n : nat) (splits : Z) (i : nat)
  : list (list float) :=
  getrows ys (Z.of_nat i * Z.of_nat n / splits)
             ((Z.of_nat i + 1) * Z.of_nat n / splits).

(** Lines 59-62: the value stored in [scores[i]]. *)
Definition part_score (part : list (list float)) : float :=
  let kl := kl_matrix part in
  let kl := fmean (map fsum kl) in
  fexp kl.

Definition split_score (ys : list (list float)) (n : nat) (splits : Z) (i : nat)
  : float :=
  part_score (split_part ys n splits i).

(** Lines 38-39: the bounds of batch [i]. *)
Definition batch_start (batch_size : Z) (i : nat) : Z :=
  Z.of_nat i * batch_size.

Definition batch_end (batch_size : Z) (n i : nat) : Z :=
  Z.min ((Z.of_nat i + 1) * batch_size) (Z.of_nat n).

Section InceptionScore.

(** [F.resize_images] interpolates every image of the batch bilinearly;
    the interpolation itself is Chainer's and stays a parameter:
    [resample (w, h) (w', h') img]. *)
Variable resample : nat * nat -> nat * nat -> image -> image.

Definition resized (a : ndarray) (out : nat * nat) : ndarray :=
  mk_ndarray (channels a) (fst out) (snd out)
    (map (resample (dim_w a, dim_h a) out) (images a)).

Definition resize_images (x : pyval) (out : nat * nat) : W pyval :=
  a <- read (data x) ;;
  v <- alloc (resized a out) ;;
  ret (Var v).

(** Lines 41-47: the value handed to the classifier for one batch. *)
Definition batch_input (model : Model) (ims : loc) (n w h : nat)
    (batch_start batch_end : Z) : W pyval :=
  let ims_batch := getitem ims n batch_start batch_end in
  ims_batch <- asarray (xp model) ims_batch ;;
  let ims_batch := Var ims_batch in
  if decide ((w, h) ≠ (299, 299))%nat
  then resize_images ims_batch (299, 299)%nat
  else ret ims_batch.

(** Lines 50-51: the classifier call under the two scoped overrides. *)
Definition classify (model : Model) (rng : Z * Z) (x : pyval) : M matrix :=
  using_config Train false
    (using_config EnableBackprop false (invoke model rng x)).

(** Lines 36-52: the body of the first loop. *)
Definition run_batch (model : Model) (ims : loc) (n w h : nat)
    (batch_size n_batches : Z) (i : nat) (ys : list (list float))
  : M (list (list float)) :=
  print (PrintRunning (Z.of_nat i + 1) n_batches) ;;;
  let batch_start := batch_start batch_size i in
  let batch_end := batch_end batch_size n i in
  ims_batch <- lift (batch_input model ims n w h batch_start batch_end) ;;
  y <- classify model (batch_start, batch_end) ims_batch ;;
  setitem ys batch_start batch_end y.

(** Lines 20-52: the softmax predictions of all images. *)
Definition inference (model : Model) (ims : loc) (batch_size : Z)
  : M (nat * list (list float)) :=
  a <- lift (load ims) ;;
  let n := length (images a) in
  let w := dim_w a in
  let h := dim_h a in
  n_batches <- ceil_div n batch_size ;;
  print (PrintBatchSize batch_size) ;;;
  print (PrintTotalImages n) ;;;
  print (PrintTotalBatches n_batches) ;;;
  ys <- empty_matrix n n_classes ;;
  ys <- for_each (range n_batches)
                 (run_batch model ims n w h batch_size n_batches) ys ;;
  ret (n, ys).

(** Lines 57-62: the second loop, which has no effect but on [scores]. *)
Definition fill_scores (ys : list (list float)) (n : nat) (splits : Z)
    (scores : list float) : list float :=
  fold_left (fun scores i => <[i := split_score ys n splits i]> scores)
            (range splits) scores.

(** Lines 56-64: the split scores and their mean and deviation. *)
Definition aggregate (ys : list (list float)) (n : nat) (splits : Z)
  : M (float * float) :=
  scores <- empty_vector splits ;;
  let scores := fill_scores ys n splits scores in
  ret (fmean scores, fstd scores).

Definition inception_score (model : Model) (ims : loc)
    (batch_size splits : Z) : M (float * float) :=
  r <- inference model ims batch_size ;;
  let '(n, ys) := r in
  aggregate ys n splits.

End InceptionScore.

(* ===================================================================== *)
(** ** The head of [Inception.__call__] *)

(** [x -= c] and [x *= c].  A bare array is updated in place.
    [chainer.Variable] defines the binary operators only, so for a Variable
    Python evaluates [x = x - c]: a new Variable over a new array. *)
Definition inplace (op : float -> float) (x : pyval) : W pyval :=
  match x with
  | NdArray v => update_rows (map op) v ;;; ret (NdArray v)
  | Var v => a <- read v ;; v' <- alloc (map_pixels op a) ;; ret (Var v')
  end.

Definition isub (x : pyval) (c : float) : W pyval :=
  inplace (fun p => fsub p c) x.

Definition imul (x : pyval) (c : float) : W pyval :=
  inplace (fun p => fmul p c) x.

Section Inception.

(** The convolutional trunk up to the 2048 pooled features, and the
    [logit] layer followed by the softmax: functions of the flags and of
    the array they are applied to. *)
Variable trunk : bool -> bool -> ndarray -> result matrix.
Variable logit_softmax : matrix -> matrix.

Definition Inception_call (x : pyval) (get_feature : bool) : W matrix :=
  x <- isub x (Fin 128) ;;
  x <- imul x (Fin 0.0078125) ;;
  a <- read (data x) ;;
  h <- (fun w => (trunk (train w) (enable_backprop w) a, w)) ;;
  if get_feature then ret h
  else ret (logit_softmax h).

Definition Inception (m : array_module) : Model :=
  mk_model m (fun x => Inception_call x false).

End Inception.

(* ===================================================================== *)
(** ** Stub classifiers and batch bounds *)

(** The number of batches, [ceil(N / batch_size)], as a count. *)
Definition n_batches_of (N : nat) (batch_size : Z) : nat :=
  Z.to_nat (- ((- Z.of_nat N) / batch_size)).

(** The first row that batches [0 .. k-1] do not reach. *)
Definition bound (batch_size : Z) (N k : nat) : nat :=
  Z.to_nat (Z.min (Z.of_nat k * batch_size) (Z.of_nat N)).

(** The rows of the input that a recorded invocation covers. *)
Definition covered (c : call_rec) : list nat :=
  seq (Z.to_nat (fst (c_range c)))
      (Z.to_nat (snd (c_range c)) - Z.to_nat (fst (c_range c))).

(** The images a recorded invocation was handed. *)
Definition handed (c : call_rec) : list image :=
  match c_input c with Some x => images x | None => [] end.

(** A classifier that never raises and returns one row of [n_classes]
    entries per image. *)
Definition total_classifier (f : bool -> bool -> ndarray -> result matrix)
  : Prop :=
  forall x, exists y, f false false x = Ok y
                      /\ nrows y = length (images x) /\ ncols y = n_classes.

(** A classifier that never raises and returns one row per image, of a
    width that NumPy can broadcast to [n_classes] columns. *)
Definition answers (f : bool -> bool -> ndarray -> result matrix) : Prop :=
  forall x, exists y, f false false x = Ok y
                      /\ nrows y = length (images x)
                      /\ broadcasts_to (ncols y) n_classes = true.

Definition the_output (f : bool -> bool -> ndarray -> result matrix)
    (x : ndarray) : matrix :=
  match f false false x with
  | Ok y => y
  | Raise _ => mk_matrix 0 0 (fun _ _ => NaN)
  end.

(** The stub that answers every image with the same row [p]. *)
Definition const_stub (p : list float) : bool -> bool -> ndarray -> result matrix :=
  fun _ _ x => Ok (mk_matrix (length (images x)) (length p)
                             (fun _ c => nth c p NaN)).

(** The row of [ys] that an image gets from [const_stub p]. *)
Definition stub_row (p : list float) : list float :=
  map (fun c => nth (bidx (length p) c) p NaN) (seq 0 n_classes).

(* ===================================================================== *)
(** ** What a run computes when the classifier is a function

    For a classifier [pure_model m f] the store plays no part in the
    outcome: the run is determined by the contents [a] of the input array,
    by the uninitialised memory [g], and by the observations made so far.
    The definitions below restate the steps of [inception_score] on these
    alone; that the program agrees with them is proved further down. *)

Section Denotation.

Variable resample : nat * nat -> nat * nat -> image -> image.
Variable f : bool -> bool -> ndarray -> result matrix.
Variable a : ndarray.
Variable g : nat -> nat -> float.

Definition classifier_input (batch_size : Z) (i : nat) : ndarray :=
  let n := length (images a) in
  let batch := slice_array a (clip_index n (batch_start batch_size i))
                             (clip_index n (batch_end batch_size n i)) in
  if decide ((dim_w a, dim_h a) ≠ (299, 299))%nat
  then resized resample batch (299, 299)%nat
  else batch.

Definition batch_entry (batch_size : Z) (i : nat) : call_rec :=
  mk_call (batch_start batch_size i, batch_end batch_size (length (images a)) i)
          (Some (classifier_input batch_size i)) false false.

Definition classify_pure (batch_size : Z) (i : nat) : SE trace matrix :=
  record_call (batch_entry batch_size i) ;;;
  fun t => (f false false (classifier_input batch_size i), t).

Definition run_batch_pure (batch_size n_batches : Z) (i : nat)
    (ys : list (list float)) : SE trace (list (list float)) :=
  emit (PrintRunning (Z.of_nat i + 1) n_batches) ;;;
  y <- classify_pure batch_size i ;;
  store_rows ys (batch_start batch_size i)
                (batch_end batch_size (length (images a)) i) y.

Definition inference_pure (batch_size : Z)
  : SE trace (nat * list (list float)) :=
  let n := length (images a) in
  n_batches <- ceil_div n batch_size ;;
  emit (PrintBatchSize batch_size) ;;;
  emit (PrintTotalImages n) ;;;
  emit (PrintTotalBatches n_batches) ;;;
  ys <- ret (empty2 g n n_classes) ;;
  ys <- for_each (range n_batches)
                 (run_batch_pure batch_size n_batches) ys ;;
  ret (n, ys).

Definition aggregate_pure (ys : list (list float)) (n : nat) (splits : Z)
  : SE trace (float * float) :=
  scores <- (if (splits <? 0)%Z then raise ValueError
             else ret (empty1 g (Z.to_nat splits))) ;;
  let scores := fill_scores ys n splits scores in
  ret (fmean scores, fstd scores).

Definition inception_score_pure (batch_size splits : Z)
  : SE trace (float * float) :=
  r <- inference_pure batch_size ;;
  let '(n, ys) := r in
  aggregate_pure ys n splits.

(** The rows batch [i] leaves in [ys] when the classifier returns. *)
Definition batch_rows (batch_size : Z) (i : nat) : list (list float) :=
  let N := length (images a) in
  broadcast_rows (the_output f (classifier_input batch_size i))
                 (bound batch_size N (S i) - bound batch_size N i) n_classes.

End Denotation.

(* ===================================================================== *)
(** ** Concrete inputs *)

(** [n] black images of 3 x 299 x 299 pixels, alone in the store, with
    Chainer's default flags. *)
Definition blank_image : image := replicate (3 * 299 * 299) (Fin 0).

Definition blank_images (n : nat) : ndarray :=
  mk_ndarray 3 299 299 (replicate n blank_image).

Definition start_state (a : ndarray) (g : nat -> nat -> float) : state :=
  (mk_world [a] true true g, mk_trace [] [] []).

Definition keep_pixels : nat * nat -> nat * nat -> image -> image :=
  fun _ _ img => img.

Definition uniform_row : list float := replicate n_classes (Fin (/ 1008)).

(* ===================================================================== *)
(** ** The split score in the words of the specification

    Entry by entry, with explicit sums over rows [r] and classes [c]. *)

Definition big_sum (k : nat) (term : nat -> float) : float :=
  fsum (map term (seq 0 k)).

Definition entry (part : list (list float)) (r c : nat) : float :=
  nth c (nth r part []) NaN.

(** The column-wise mean of the rows of the split. *)
Definition spec_marginal (part : list (list float)) (c : nat) : float :=
  fdiv (big_sum (length part) (fun r => entry part r c)) (of_nat (length part)).

(** The sum over classes of [p * (log p - log marginal)] for row [r]. *)
Definition spec_row_kl (part : list (list float)) (r : nat) : float :=
  big_sum n_classes (fun c =>
    fmul (entry part r c)
         (fsub (flog (entry part r c)) (flog (spec_marginal part c)))).

(** The exponential of the mean over the rows. *)
Definition spec_split_score (part : list (list float)) : float :=
  fexp (fdiv (big_sum (length part) (spec_row_kl part)) (of_nat (length part))).

Definition spec_mean (xs : list float) : float :=
  fdiv (big_sum (length xs) (fun i => nth i xs NaN)) (of_nat (length xs)).

(** The population standard deviation: the squared deviations are divided
    by the number of scores, not by one less. *)
Definition spec_pop_std (xs : list float) : float :=
  fsqrt (fdiv (big_sum (length xs)
                 (fun i => let d := fsub (nth i xs NaN) (spec_mean xs) in
                           fmul d d))
              (of_nat (length xs))).

Definition rectangular (ys : list (list float)) : Prop :=
  Forall (fun row => length row = n_classes) ys.

(* ===================================================================== *)
(** ** Constant rows *)

(** The mean of [k] copies of [x], and the contribution of an entry [x]
    of a row to the divergence from a marginal made of [k] such rows. *)
Definition const_mean (k : nat) (x : float) : float :=
  fdiv (fsum (replicate k x)) (of_nat k).

Definition kl_entry (k : nat) (x : float) : float :=
  fmul x (fsub (flog x) (flog (const_mean k x))).

Definition positive (x : float) : Prop := exists r, x = Fin r /\ (0 < r)%R.

Definition one_hot : list float := Fin 1 :: replicate (n_classes - 1) (Fin 0).

(* ===================================================================== *)
(** ** Vocabulary of the properties *)

Definition flags (w : world) : bool * bool := (train w, enable_backprop w).

(** A recorded invocation that ran with both flags off. *)
Definition inference_mode (c : call_rec) : Prop :=
  c_train c = false /\ c_backprop c = false.

(** The flags are as before, and the invocations recorded in between all
    ran in inference mode. *)
Definition scoped (st st' : state) : Prop :=
  flags (fst st') = flags (fst st)
  /\ exists new, calls (snd st') = calls (snd st) ++ new
                 /\ Forall inference_mode new.

(** A computation keeps a relation between the states before and after it,
    whatever its outcome. *)
Definition keeps {S A} (R : S -> S -> Prop) (c : SE S A) : Prop :=
  forall s, R s (snd (c s)).

(** The store has only grown, by allocation; flags and uninitialised
    memory are as before. *)
Definition extends (w w' : world) : Prop :=
  heap w `prefix_of` heap w'
  /\ flags w' = flags w
  /\ garbage w' = garbage w.

(** Every array of the store is where it was, with the contents it had. *)
Definition grows (st st' : state) : Prop :=
  heap (fst st) `prefix_of` heap (fst st').

(** [c] run on a store that holds [a] at [ims], with uninitialised memory
    [g], does to the observations what [d] does, and only allocates. *)
Definition simulates {A} (ims : loc) (a : ndarray) (g : nat -> nat -> float)
    (c : M A) (d : SE trace A) : Prop :=
  forall w t, heap w !! ims = Some a -> garbage w = g ->
    exists w', extends w w' /\ c (w, t) = (fst (d t), (w', snd (d t))).

(** A run that was turned down before the classifier was ever invoked. *)
Definition rejected_before_inference {A} (r : result A * state) (st : state)
  : Prop :=
  (exists e, fst r = Raise e) /\ calls (snd (snd r)) = calls (snd st).

(** A classifier that answers every batch with rows of [k] entries. *)
Definition returns_width (f : bool -> bool -> ndarray -> result matrix)
    (k : nat) : Prop :=
  forall x, exists y, f false false x = Ok y
                      /\ nrows y = length (images x) /\ ncols y = k.

(** Two outcomes of the first loop that agree: the same exception, or
    matrices of [N] rows with the same first [j] rows. *)
Definition agree (N j : nat) (r1 r2 : result (list (list float))) : Prop :=
  match r1, r2 with
  | Ok y1, Ok y2 => length y1 = N /\ length y2 = N /\ take j y1 = take j y2
  | Raise e1, Raise e2 => e1 = e2
  | _, _ => False
  end.

(** From a state that holds [a] at [ims], the store is left as it was. *)
Definition unmoved (ims : loc) (a : ndarray) (st st' : state) : Prop :=
  heap (fst st) !! ims = Some a -> fst st' = fst st.

(** Lines 20-52 from the point where [ims.shape] has been read off the
    array [a]. *)
Definition inference_from resample (model : Model) (ims : loc) (a : ndarray)
    (batch_size : Z) : M (nat * list (list float)) :=
  let n := length (images a) in
  let w := dim_w a in
  let h := dim_h a in
  n_batches <- ceil_div n batch_size ;;
  print (PrintBatchSize batch_size) ;;;
  print (PrintTotalImages n) ;;;
  print (PrintTotalBatches n_batches) ;;;
  ys <- empty_matrix n n_classes ;;
  ys <- for_each (range n_batches)
                 (run_batch resample model ims n w h batch_size n_batches) ys ;;
  ret (n, ys).

(* ===================================================================== *)
(** ** Vocabulary of the further properties *)

(** [f] made to answer where it would not: wherever [f] raises or returns
    a matrix of another shape, a matrix of the expected shape stands in. *)
Definition patched (f : bool -> bool -> ndarray -> result matrix)
  : bool -> bool -> ndarray -> result matrix :=
  fun tr eb x =>
    let blank := mk_matrix (length (images x)) n_classes (fun _ _ => NaN) in
    match f tr eb x with
    | Ok y => if (nrows y =? length (images x))%nat
                 && broadcasts_to (ncols y) n_classes
              then Ok y else Ok blank
    | Raise _ => Ok blank
    end.

(** A classifier that treats every image on its own: row [r] of its
    answer is [g] of image [r]. *)
Definition per_image (g : image -> list float)
  : bool -> bool -> ndarray -> result matrix :=
  fun _ _ x =>
    Ok (mk_matrix (length (images x)) n_classes
          (fun r c => nth c (g (nth r (images x) [])) NaN)).

Definition image_row (g : image -> list float) (img : image) : list float :=
  map (fun c => nth c (g img) NaN) (seq 0 n_classes).

(** A classifier that accepts batches of exactly [n] images and raises
    [ModelError code] on any other. *)
Definition full_batches_only (n code : nat)
  : bool -> bool -> ndarray -> result matrix :=
  fun tr eb x =>
    if (length (images x) =? n)%nat then const_stub uniform_row tr eb x
    else Raise (ModelError code).

(** The real numbers behind a split of finite entries: the sum of [k]
    terms, the value of an entry, the column mean, and the summed
    divergence of the rows from the column means. *)
Fixpoint rsum (k : nat) (u : nat -> R) : R :=
  match k with
  | O => 0
  | S k => rsum k u + u k
  end.

Definition val (x : float) : R :=
  match x with Fin r => r | _ => 0%R end.

Definition entry_val (part : list (list float)) (r c : nat) : R :=
  val (entry part r c).

Definition marginal_val (part : list (list float)) (c : nat) : R :=
  rsum (length part) (fun r => entry_val part r c) / INR (length part).

Definition kl_term (part : list (list float)) (r c : nat) : R :=
  entry_val part r c * (ln (entry_val part r c) + - ln (marginal_val part c)).

Definition kl_val (part : list (list float)) : R :=
  rsum (length part) (fun r => rsum n_classes (kl_term part r)).

(** A row of probabilities: finite, strictly positive entries whose sum,
    as [xp.sum] takes it, is 1. *)
Definition distribution (row : list float) : Prop :=
  Forall positive row /\ fsum row = Fin 1.

(** A classifier that never raises and returns one distribution over the
    [n_classes] classes per image. *)
Definition probability_classifier
    (f : bool -> bool -> ndarray -> result matrix) : Prop :=
  forall x, exists y,
    f false false x = Ok y
    /\ nrows y = length (images x) /\ ncols y = n_classes
    /\ forall r, (r < nrows y)%nat ->
          distribution (map (cell y r) (seq 0 n_classes)).

(** A distribution that is not uniform: half of the mass on class 0, the
    rest shared evenly. *)
Definition skewed_row : list float :=
  Fin (/ 2) :: replicate (n_classes - 1) (Fin (/ 2014)).

(* ===================================================================== *)
(** ** The network: [Pooling2D], [Mixed], [Tower], [Inception]

    The constructor calls of [Inception.__init__] are kept as a syntax
    tree; [build] evaluates such a tree as Python does, arguments first
    and then [__init__], to the object it denotes; [call_link] is
    [__call__].  Chainer's functions and links are a parameter of
    [call_link], so that the same definition serves for arrays and for
    their shapes. *)

Inductive chainer_error : Type :=
| AttributeError   (* [add_link] under a name that is taken; no such attribute *)
| TypeError        (* [add_link] of what is not a Link; a call of a list *)
| InvalidType.     (* an argument that a function or link does not accept *)

Inductive outcome (A : Type) : Type :=
| Done (a : A)
| Fails (e : chainer_error).
Arguments Done {A} a.
Arguments Fails {A} e.

Definition and_then {A B} (c : outcome A) (k : A -> outcome B) : outcome B :=
  match c with
  | Done a => k a
  | Fails e => Fails e
  end.

Notation "x <~ c ;; k" := (and_then c (fun x => k))
  (at level 100, c at next level, right associativity) : se_scope.

(** An argument that is an int or a pair of ints ([ksize], [pad]); an int
    stands for the pair of its copies. *)
Inductive size2 : Type :=
| Int (k : nat)
| Pair (h w : nat).
Coercion Int : nat >-> size2.

Definition as_pair (k : size2) : nat * nat :=
  match k with
  | Int k => (k, k)
  | Pair h w => (h, w)
  end.

(** What the trunks are made of: links of Chainer, the function [F.relu],
    and instances of the two subclasses of [Pooling2D], which keep
    [ksize], [stride] and [pad] for their [__call__]. *)
Inductive prim : Type :=
| Convolution2D_link (in_channels out_channels : nat) (ksize : size2)
                     (stride : nat) (pad : size2)
| BatchNormalization_link (size : nat)
| Linear_link (in_size out_size : nat)
| relu_function
| AveragePooling2D_object (ksize stride pad : nat)
| MaxPooling2D_object (ksize stride pad : nat).

(** Constructor expressions: [Mixed([(name, link), ...])] and
    [Tower([(name, link), ...])] around the primitive ones. *)
#[warnings="-register-all"] Inductive expr : Type :=
| Prim (p : prim)
| Mixed (trunk : list (string * expr))
| Tower (trunk : list (string * expr)).

Definition Convolution2D (in_channels out_channels : nat) (ksize : size2)
    (stride : nat) (pad : size2) : expr :=
  Prim (Convolution2D_link in_channels out_channels ksize stride pad).

Definition BatchNormalization (size : nat) : expr :=
  Prim (BatchNormalization_link size).

Definition Linear (in_size out_size : nat) : expr :=
  Prim (Linear_link in_size out_size).

Definition relu : expr := Prim relu_function.

Definition AveragePooling2D (ksize stride pad : nat) : expr :=
  Prim (AveragePooling2D_object ksize stride pad).

Definition MaxPooling2D (ksize stride pad : nat) : expr :=
  Prim (MaxPooling2D_object ksize stride pad).

(** Constructed objects.  A [Mixed] or a [Tower] holds the links that
    [add_link] registered, in [children], and the list it was given, in
    its attribute [trunk]. *)
#[warnings="-register-all"] Inductive obj : Type :=
| Callable (p : prim)
| MixedObj (children trunk : list (string * obj))
| TowerObj (children trunk : list (string * obj)).

(** [isinstance(o, Link)]. *)
Definition is_link (o : obj) : bool :=
  match o with
  | Callable (Convolution2D_link _ _ _ _ _)
  | Callable (BatchNormalization_link _)
  | Callable (Linear_link _ _) => true
  | Callable _ => false
  | MixedObj _ _ | TowerObj _ _ => true
  end.

(** [name.startswith('_')]. *)
Definition startswith_underscore (name : string) : bool :=
  String.prefix "_" name.

Definition registered (name : string) (children : list (string * obj)) : bool :=
  existsb (fun c => String.eqb (fst c) name) children.

Section Construction.

(** What a Chain has before any link is added is Chainer's business:
    [in_dict name] says that [name] is an instance attribute after
    [Chain.__init__], [has_attr name] that [hasattr] finds it, the
    attributes of the class included. *)
Variable in_dict : string -> bool.
Variable has_attr : string -> bool.

(** [self.name = link] inside [init_scope]: [Chain.__setattr__] refuses a
    name that [hasattr] finds, and registers the link as a child
    otherwise.  [Chain.add_link]: the name must not be an instance
    attribute and the value must be a Link; the link is then set inside
    [init_scope]. *)
Definition set_link (children : list (string * obj)) (name : string)
    (link : obj) : outcome (list (string * obj)) :=
  if has_attr name || registered name children then Fails AttributeError
  else Done (children ++ [(name, link)]).

Definition add_link (children : list (string * obj)) (name : string)
    (link : obj) : outcome (list (string * obj)) :=
  if in_dict name || registered name children then Fails AttributeError
  else if negb (is_link link) then Fails TypeError
  else set_link children name link.

(** The loops of lines 93-94 and 109-111. *)
Fixpoint add_links (wanted : string -> bool) (trunk : list (string * obj))
    (children : list (string * obj)) : outcome (list (string * obj)) :=
  match trunk with
  | [] => Done children
  | (name, link) :: rest =>
      if wanted name then
        children <~ add_link children name link ;;
        add_links wanted rest children
      else add_links wanted rest children
  end.

(** [Mixed.__init__] *)
Definition Mixed_init (trunk : list (string * obj)) : outcome obj :=
  children <~ add_links (fun _ => true) trunk [] ;;
  Done (MixedObj children trunk).

(** [Tower.__init__] *)
Definition Tower_init (trunk : list (string * obj)) : outcome obj :=
  children <~ add_links (fun name => negb (startswith_underscore name)) trunk [] ;;
  Done (TowerObj children trunk).

(** The evaluation of a constructor expression: the entries of the list
    from left to right, then the constructor. *)
Fixpoint build (e : expr) : outcome obj :=
  match e with
  | Prim p => Done (Callable p)
  | Mixed trunk =>
      trunk <~ (fix build_all (trunk : list (string * expr)) :=
                  match trunk with
                  | [] => Done []
                  | (name, e) :: rest =>
                      o <~ build e ;;
                      os <~ build_all rest ;;
                      Done ((name, o) :: os)
                  end) trunk ;;
      Mixed_init trunk
  | Tower trunk =>
      trunk <~ (fix build_all (trunk : list (string * expr)) :=
                  match trunk with
                  | [] => Done []
                  | (name, e) :: rest =>
                      o <~ build e ;;
                      os <~ build_all rest ;;
                      Done ((name, o) :: os)
                  end) trunk ;;
      Tower_init trunk
  end.

Fixpoint build_all (trunk : list (string * expr))
  : outcome (list (string * obj)) :=
  match trunk with
  | [] => Done []
  | (name, e) :: rest =>
      o <~ build e ;;
      os <~ build_all rest ;;
      Done ((name, o) :: os)
  end.

(** The assignments of a [with self.init_scope():] block, in order: the
    right-hand side is evaluated, then the attribute is set. *)
Fixpoint init_scope (attrs : list (string * expr))
    (children : list (string * obj)) : outcome (list (string * obj)) :=
  match attrs with
  | [] => Done children
  | (name, e) :: rest =>
      o <~ build e ;;
      children <~ set_link children name o ;;
      init_scope rest children
  end.

End Construction.

(** The functions and links of Chainer that the network uses, on values
    of type [X]. *)
Record functions (X : Type) : Type := mk_functions {
  L_Convolution2D : nat -> nat -> size2 -> nat -> size2 -> X -> outcome X;
  L_BatchNormalization : nat -> X -> outcome X;
  L_Linear : nat -> nat -> X -> outcome X;
  F_relu : X -> outcome X;
  F_average_pooling_2d : X -> nat -> nat -> nat -> outcome X;
  F_max_pooling_2d : X -> nat -> nat -> nat -> outcome X;
  F_concat : list X -> outcome X;
  F_reshape : X -> nat -> outcome X;   (* [F.reshape(x, (-1, k))] *)
  F_softmax : X -> outcome X
}.
Arguments L_Convolution2D {X} _.
Arguments L_BatchNormalization {X} _.
Arguments L_Linear {X} _.
Arguments F_relu {X} _.
Arguments F_average_pooling_2d {X} _.
Arguments F_max_pooling_2d {X} _.
Arguments F_concat {X} _.
Arguments F_reshape {X} _.
Arguments F_softmax {X} _.

Section Calling.

Context {X : Type}.
Variable chainer : functions X.

(** A call of a primitive object; lines 77-79 and 84-86 for the two
    poolings. *)
Definition call_prim (p : prim) (x : X) : outcome X :=
  match p with
  | Convolution2D_link cin cout ksize stride pad =>
      L_Convolution2D chainer cin cout ksize stride pad x
  | BatchNormalization_link size => L_BatchNormalization chainer size x
  | Linear_link cin cout => L_Linear chainer cin cout x
  | relu_function => F_relu chainer x
  | AveragePooling2D_object ksize stride pad =>
      F_average_pooling_2d chainer x ksize stride pad
  | MaxPooling2D_object ksize stride pad =>
      F_max_pooling_2d chainer x ksize stride pad
  end.

(** [__call__].  [getattr(self, name)] finds the child registered under
    [name]; under the name [trunk] it finds the list that [__init__]
    stored there after the links were added, and a list cannot be
    called. *)
Fixpoint call_link (o : obj) (x : X) : outcome X :=
  match o with
  | Callable p => call_prim p x
  | MixedObj children trunk =>
      hs <~ (fix each (trunk : list (string * obj)) : outcome (list X) :=
               match trunk with
               | [] => Done []
               | (name, _) :: rest =>
                   h <~ (if String.eqb name "trunk" then Fails TypeError
                         else (fix getattr_call (children : list (string * obj)) :=
                                 match children with
                                 | [] => Fails AttributeError
                                 | (n, c) :: children =>
                                     if String.eqb n name then call_link c x
                                     else getattr_call children
                                 end) children) ;;
                   hs <~ each rest ;;
                   Done (h :: hs)
               end) trunk ;;
      F_concat chainer hs
  | TowerObj children trunk =>
      (fix chain (trunk : list (string * obj)) (h : X) : outcome X :=
         match trunk with
         | [] => Done h
         | (name, f) :: rest =>
             h <~ (if startswith_underscore name then call_link f h
                   else if String.eqb name "trunk" then Fails TypeError
                   else (fix getattr_call (children : list (string * obj)) :=
                           match children with
                           | [] => Fails AttributeError
                           | (n, c) :: children =>
                               if String.eqb n name then call_link c h
                               else getattr_call children
                           end) children) ;;
             chain rest h
         end) trunk x
  end.

(** [getattr(self, name)(x)] *)
Fixpoint getattr_call (children : list (string * obj)) (name : string) (x : X)
  : outcome X :=
  match children with
  | [] => Fails AttributeError
  | (n, c) :: children =>
      if String.eqb n name then call_link c x
      else getattr_call children name x
  end.

(** Lines 98-101 *)
Fixpoint Mixed_each (children trunk : list (string * obj)) (x : X)
  : outcome (list X) :=
  match trunk with
  | [] => Done []
  | (name, _) :: rest =>
      h <~ (if String.eqb name "trunk" then Fails TypeError
            else getattr_call children name x) ;;
      hs <~ Mixed_each children rest x ;;
      Done (h :: hs)
  end.

(** Lines 115-120 *)
Fixpoint Tower_chain (children trunk : list (string * obj)) (h : X)
  : outcome X :=
  match trunk with
  | [] => Done h
  | (name, f) :: rest =>
      h <~ (if startswith_underscore name then call_link f h
            else if String.eqb name "trunk" then Fails TypeError
            else getattr_call children name h) ;;
      Tower_chain children rest h
  end.

(** What the lists say when read from left to right, without any lookup
    by name: a tower applies its entries one after the other, a mixed
    layer applies each of its entries to its argument and concatenates. *)
Fixpoint in_order (e : expr) (x : X) : outcome X :=
  match e with
  | Prim p => call_prim p x
  | Mixed trunk =>
      hs <~ (fix each (trunk : list (string * expr)) : outcome (list X) :=
               match trunk with
               | [] => Done []
               | (_, e) :: rest =>
                   h <~ in_order e x ;;
                   hs <~ each rest ;;
                   Done (h :: hs)
               end) trunk ;;
      F_concat chainer hs
  | Tower trunk =>
      (fix chain (trunk : list (string * expr)) (h : X) : outcome X :=
         match trunk with
         | [] => Done h
         | (_, e) :: rest => h <~ in_order e h ;; chain rest h
         end) trunk x
  end.

Fixpoint each_in_order (trunk : list (string * expr)) (x : X)
  : outcome (list X) :=
  match trunk with
  | [] => Done []
  | (_, e) :: rest =>
      h <~ in_order e x ;;
      hs <~ each_in_order rest x ;;
      Done (h :: hs)
  end.

Fixpoint chain_in_order (trunk : list (string * expr)) (h : X) : outcome X :=
  match trunk with
  | [] => Done h
  | (_, e) :: rest => h <~ in_order e h ;; chain_in_order rest h
  end.

End Calling.

(** The names under which an expression adds links. *)
Fixpoint link_names (e : expr) : list string :=
  match e with
  | Prim _ => []
  | Mixed trunk =>
      (fix names (trunk : list (string * expr)) : list string :=
         match trunk with
         | [] => []
         | (name, e) :: rest => name :: link_names e ++ names rest
         end) trunk
  | Tower trunk =>
      (fix names (trunk : list (string * expr)) : list string :=
         match trunk with
         | [] => []
         | (name, e) :: rest =>
             (if startswith_underscore name then [] else [name])
             ++ link_names e ++ names rest
         end) trunk
  end.

(** A sequence of assignments [h = step(h)], and the values [h] takes. *)
Fixpoint run_steps {X} (steps : list (X -> outcome X)) (h : X) : outcome X :=
  match steps with
  | [] => Done h
  | step :: rest => h <~ step h ;; run_steps rest h
  end.

Fixpoint trace_steps {X} (steps : list (X -> outcome X)) (h : X)
  : outcome (list X) :=
  match steps with
  | [] => Done []
  | step :: rest => h <~ step h ;; hs <~ trace_steps rest h ;; Done (h :: hs)
  end.

(* ===================================================================== *)
(** ** Shapes

    Chainer's rules for the shape of a result, for kernels and strides of
    at least 1 and arrays of the ranks the network meets; whatever Chainer
    would do beyond that is rejected here, and the class of the exception
    is not told apart. *)

Definition shape : Type := list nat.

(** [chainer.utils.conv.get_conv_outsize] *)
Definition get_conv_outsize (size k s p : nat) (cover_all : bool) : Z :=
  if cover_all
  then (Z.of_nat size + Z.of_nat p * 2 - Z.of_nat k + Z.of_nat s - 1)
         / Z.of_nat s + 1
  else (Z.of_nat size + Z.of_nat p * 2 - Z.of_nat k) / Z.of_nat s + 1.

Definition window_2d (h w : nat) (ksize : nat * nat) (stride : nat)
    (pad : nat * nat) (cover_all : bool) : outcome (nat * nat) :=
  let out_h := get_conv_outsize h (fst ksize) stride (fst pad) cover_all in
  let out_w := get_conv_outsize w (snd ksize) stride (snd pad) cover_all in
  if (1 <=? fst ksize)%nat && (1 <=? snd ksize)%nat && (1 <=? stride)%nat
     && (0 <? out_h)%Z && (0 <? out_w)%Z
  then Done (Z.to_nat out_h, Z.to_nat out_w)
  else Fails InvalidType.

(** A convolution link wants as many channels as it was built for. *)
Definition shape_Convolution2D (in_channels out_channels : nat)
    (ksize : size2) (stride : nat) (pad : size2) (x : shape) : outcome shape :=
  match x with
  | [n; c; h; w] =>
      if (c =? in_channels)%nat then
        out <~ window_2d h w (as_pair ksize) stride (as_pair pad) false ;;
        Done [n; out_channels; fst out; snd out]
      else Fails InvalidType
  | _ => Fails InvalidType
  end.

Definition shape_BatchNormalization (size : nat) (x : shape) : outcome shape :=
  match x with
  | n :: c :: rest => if (c =? size)%nat then Done x else Fails InvalidType
  | _ => Fails InvalidType
  end.

(** A linear link flattens every example to a vector. *)
Definition shape_Linear (in_size out_size : nat) (x : shape) : outcome shape :=
  match x with
  | n :: d :: rest =>
      if (fold_right Nat.mul 1%nat (d :: rest) =? in_size)%nat
      then Done [n; out_size]
      else Fails InvalidType
  | _ => Fails InvalidType
  end.

Definition shape_relu (x : shape) : outcome shape := Done x.

(** [F.max_pooling_2d] covers all of its input by default
    ([cover_all=True]); [F.average_pooling_2d] does not. *)
Definition shape_pooling_2d (cover_all : bool) (x : shape)
    (ksize stride pad : nat) : outcome shape :=
  match x with
  | [n; c; h; w] =>
      out <~ window_2d h w (ksize, ksize) stride (pad, pad) cover_all ;;
      Done [n; c; fst out; snd out]
  | _ => Fails InvalidType
  end.

(** [F.concat] joins along axis 1; the other extents must agree. *)
Definition shape_concat (xs : list shape) : outcome shape :=
  match xs with
  | [n; c; h; w] :: rest =>
      if forallb (fun y => match y with
                           | [n'; _; h'; w'] =>
                               (n' =? n)%nat && (h' =? h)%nat && (w' =? w)%nat
                           | _ => false
                           end) rest
      then Done [n; fold_left (fun acc y => acc + nth 1 y 0)%nat rest c; h; w]
      else Fails InvalidType
  | _ => Fails InvalidType
  end.

(** [F.reshape(x, (-1, k))] *)
Definition shape_reshape (x : shape) (k : nat) : outcome shape :=
  let size := fold_right Nat.mul 1%nat x in
  if (1 <=? k)%nat && (size mod k =? 0)%nat then Done [(size / k)%nat; k]
  else Fails InvalidType.

Definition shape_softmax (x : shape) : outcome shape :=
  match x with
  | _ :: _ :: _ => Done x
  | _ => Fails InvalidType
  end.

Definition shapes : functions shape :=
  mk_functions shape
    shape_Convolution2D shape_BatchNormalization shape_Linear shape_relu
    (shape_pooling_2d false) (shape_pooling_2d true)
    shape_concat shape_reshape shape_softmax.

(** Two computations that fail alike or return related values. *)
Inductive related {X Y} (R : X -> Y -> Prop) : outcome X -> outcome Y -> Prop :=
| related_Done x y : R x y -> related R (Done x) (Done y)
| related_Fails e : related R (Fails e) (Fails e).

(** [R] is kept by the functions and links of the two interpretations;
    [F.reshape], which moves extents between axes, is left out. *)
Record simulation {X Y} (R : X -> Y -> Prop) (B : functions X) (C : functions Y)
  : Prop := mk_simulation {
  sim_Convolution2D : forall cin cout k s p x y, R x y ->
    related R (L_Convolution2D B cin cout k s p x) (L_Convolution2D C cin cout k s p y);
  sim_BatchNormalization : forall size x y, R x y ->
    related R (L_BatchNormalization B size x) (L_BatchNormalization C size y);
  sim_Linear : forall cin cout x y, R x y ->
    related R (L_Linear B cin cout x) (L_Linear C cin cout y);
  sim_relu : forall x y, R x y -> related R (F_relu B x) (F_relu C y);
  sim_average_pooling_2d : forall k s p x y, R x y ->
    related R (F_average_pooling_2d B x k s p) (F_average_pooling_2d C y k s p);
  sim_max_pooling_2d : forall k s p x y, R x y ->
    related R (F_max_pooling_2d B x k s p) (F_max_pooling_2d C y k s p);
  sim_concat : forall xs ys, Forall2 R xs ys ->
    related R (F_concat B xs) (F_concat C ys);
  sim_softmax : forall x y, R x y -> related R (F_softmax B x) (F_softmax C y)
}.

(** The same shape but for the number of examples: [n] against 1. *)
Definition batch_of (n : nat) (x y : shape) : Prop :=
  exists s, x = n :: s /\ y = 1%nat :: s.

(* ===================================================================== *)
(** ** [Inception]

    Lines 129-582: the attributes set in [__init__], in order. *)

(** Line 130. *)
Definition Inception_conv : expr :=
  Convolution2D 3 32 3 2 0.

(** Line 131. *)
Definition Inception_conv_1 : expr :=
  Convolution2D 32 32 3 1 0.

(** Line 132. *)
Definition Inception_conv_2 : expr :=
  Convolution2D 32 64 3 1 1.

(** Line 133. *)
Definition Inception_conv_3 : expr :=
  Convolution2D 64 80 1 1 0.

(** Line 134. *)
Definition Inception_conv_4 : expr :=
  Convolution2D 80 192 3 1 0.

(** Line 135. *)
Definition Inception_bn_conv : expr :=
  BatchNormalization 32.

(** Line 136. *)
Definition Inception_bn_conv_1 : expr :=
  BatchNormalization 32.

(** Line 137. *)
Definition Inception_bn_conv_2 : expr :=
  BatchNormalization 64.

(** Line 138. *)
Definition Inception_bn_conv_3 : expr :=
  BatchNormalization 80.

(** Line 139. *)
Definition Inception_bn_conv_4 : expr :=
  BatchNormalization 192.

(** Lines 140-171. *)
Definition Inception_mixed : expr :=
  Mixed [
    ("conv", Tower [
      ("conv", Convolution2D 192 64 1 1 0);
      ("bn_conv", BatchNormalization 64);
      ("_relu", relu)
    ]);
    ("tower", Tower [
      ("conv", Convolution2D 192 48 1 1 0);
      ("bn_conv", BatchNormalization 48);
      ("_relu", relu);
      ("conv_1", Convolution2D 48 64 5 1 2);
      ("bn_conv_1", BatchNormalization 64);
      ("_relu_1", relu)
    ]);
    ("tower_1", Tower [
      ("conv", Convolution2D 192 64 1 1 0);
      ("bn_conv", BatchNormalization 64);
      ("_relu", relu);
      ("conv_1", Convolution2D 64 96 3 1 1);
      ("bn_conv_1", BatchNormalization 96);
      ("_relu_1", relu);
      ("conv_2", Convolution2D 96 96 3 1 1);
      ("bn_conv_2", BatchNormalization 96);
      ("_relu_2", relu)
    ]);
    ("tower_2", Tower [
      ("_pooling", AveragePooling2D 3 1 1);
      ("conv", Convolution2D 192 32 1 1 0);
      ("bn_conv", BatchNormalization 32);
      ("_relu", relu)
    ])
  ].

(** Lines 172-203. *)
Definition Inception_mixed_1 : expr :=
  Mixed [
    ("conv", Tower [
      ("conv", Convolution2D 256 64 1 1 0);
      ("bn_conv", BatchNormalization 64);
      ("_relu", relu)
    ]);
    ("tower", Tower [
      ("conv", Convolution2D 256 48 1 1 0);
      ("bn_conv", BatchNormalization 48);
      ("_relu", relu);
      ("conv_1", Convolution2D 48 64 5 1 2);
      ("bn_conv_1", BatchNormalization 64);
      ("_relu_1", relu)
    ]);
    ("tower_1", Tower [
      ("conv", Convolution2D 256 64 1 1 0);
      ("bn_conv", BatchNormalization 64);
      ("_relu", relu);
      ("conv_1", Convolution2D 64 96 3 1 1);
      ("bn_conv_1", BatchNormalization 96);
      ("_relu_1", relu);
      ("conv_2", Convolution2D 96 96 3 1 1);
      ("bn_conv_2", BatchNormalization 96);
      ("_relu_2", relu)
    ]);
    ("tower_2", Tower [
      ("_pooling", AveragePooling2D 3 1 1);
      ("conv", Convolution2D 256 64 1 1 0);
      ("bn_conv", BatchNormalization 64);
      ("_relu", relu)
    ])
  ].

(** Lines 204-235. *)
Definition Inception_mixed_2 : expr :=
  Mixed [
    ("conv", Tower [
      ("conv", Convolution2D 288 64 1 1 0);
      ("bn_conv", BatchNormalization 64);
      ("_relu", relu)
    ]);
    ("tower", Tower [
      ("conv", Convolution2D 288 48 1 1 0);
      ("bn_conv", BatchNormalization 48);
      ("_relu", relu);
      ("conv_1", Convolution2D 48 64 5 1 2);
      ("bn_conv_1", BatchNormalization 64);
      ("_relu_1", relu)
    ]);
    ("tower_1", Tower [
      ("conv", Convolution2D 288 64 1 1 0);
      ("bn_conv", BatchNormalization 64);
      ("_relu", relu);
      ("conv_1", Convolution2D 64 96 3 1 1);
      ("bn_conv_1", BatchNormalization 96);
      ("_relu_1", relu);
      ("conv_2", Convolution2D 96 96 3 1 1);
      ("bn_conv_2", BatchNormalization 96);
      ("_relu_2", relu)
    ]);
    ("tower_2", Tower [
      ("_pooling", AveragePooling2D 3 1 1);
      ("conv", Convolution2D 288 64 1 1 0);
      ("bn_conv", BatchNormalization 64);
      ("_relu", relu)
    ])
  ].

(** Lines 236-256. *)
Definition Inception_mixed_3 : expr :=
  Mixed [
    ("conv", Tower [
      ("conv", Convolution2D 288 384 3 2 0);
      ("bn_conv", BatchNormalization 384);
      ("_relu", relu)
    ]);
    ("tower", Tower [
      ("conv", Convolution2D 288 64 1 1 0);
      ("bn_conv", BatchNormalization 64);
      ("_relu", relu);
      ("conv_1", Convolution2D 64 96 3 1 1);
      ("bn_conv_1", BatchNormalization 96);
      ("_relu_1", relu);
      ("conv_2", Convolution2D 96 96 3 2 0);
      ("bn_conv_2", BatchNormalization 96);
      ("_relu_2", relu)
    ]);
    ("pool", Tower [
      ("_pooling", MaxPooling2D 3 2 0)
    ])
  ].

(** Lines 257-303. *)
Definition Inception_mixed_4 : expr :=
  Mixed [
    ("conv", Tower [
      ("conv", Convolution2D 768 192 1 1 0);
      ("bn_conv", BatchNormalization 192);
      ("_relu", relu)
    ]);
    ("tower", Tower [
      ("conv", Convolution2D 768 128 1 1 0);
      ("bn_conv", BatchNormalization 128);
      ("_relu", relu);
      ("conv_1", Convolution2D 128 128 (Pair 1 7) 1 (Pair 0 3));
      ("bn_conv_1", BatchNormalization 128);
      ("_relu_1", relu);
      ("conv_2", Convolution2D 128 192 (Pair 7 1) 1 (Pair 3 0));
      ("bn_conv_2", BatchNormalization 192);
      ("_relu_2", relu)
    ]);
    ("tower_1", Tower [
      ("conv", Convolution2D 768 128 1 1 0);
      ("bn_conv", BatchNormalization 128);
      ("_relu", relu);
      ("conv_1", Convolution2D 128 128 (Pair 7 1) 1 (Pair 3 0));
      ("bn_conv_1", BatchNormalization 128);
      ("_relu_1", relu);
      ("conv_2", Convolution2D 128 128 (Pair 1 7) 1 (Pair 0 3));
      ("bn_conv_2", BatchNormalization 128);
      ("_relu_2", relu);
      ("conv_3", Convolution2D 128 128 (Pair 7 1) 1 (Pair 3 0));
      ("bn_conv_3", BatchNormalization 128);
      ("_relu_3", relu);
      ("conv_4", Convolution2D 128 192 (Pair 1 7) 1 (Pair 0 3));
      ("bn_conv_4", BatchNormalization 192);
      ("_relu_4", relu)
    ]);
    ("tower_2", Tower [
      ("_pooling", AveragePooling2D 3 1 1);
      ("conv", Convolution2D 768 192 1 1 0);
      ("bn_conv", BatchNormalization 192);
      ("_relu", relu)
    ])
  ].

(** Lines 304-350. *)
Definition Inception_mixed_5 : expr :=
  Mixed [
    ("conv", Tower [
      ("conv", Convolution2D 768 192 1 1 0);
      ("bn_conv", BatchNormalization 192);
      ("_relu", relu)
    ]);
    ("tower", Tower [
      ("conv", Convolution2D 768 160 1 1 0);
      ("bn_conv", BatchNormalization 160);
      ("_relu", relu);
      ("conv_1", Convolution2D 160 160 (Pair 1 7) 1 (Pair 0 3));
      ("bn_conv_1", BatchNormalization 160);
      ("_relu_1", relu);
      ("conv_2", Convolution2D 160 192 (Pair 7 1) 1 (Pair 3 0));
      ("bn_conv_2", BatchNormalization 192);
      ("_relu_2", relu)
    ]);
    ("tower_1", Tower [
      ("conv", Convolution2D 768 160 1 1 0);
      ("bn_conv", BatchNormalization 160);
      ("_relu", relu);
      ("conv_1", Convolution2D 160 160 (Pair 7 1) 1 (Pair 3 0));
      ("bn_conv_1", BatchNormalization 160);
      ("_relu_1", relu);
      ("conv_2", Convolution2D 160 160 (Pair 1 7) 1 (Pair 0 3));
      ("bn_conv_2", BatchNormalization 160);
      ("_relu_2", relu);
      ("conv_3", Convolution2D 160 160 (Pair 7 1) 1 (Pair 3 0));
      ("bn_conv_3", BatchNormalization 160);
      ("_relu_3", relu);
      ("conv_4", Convolution2D 160 192 (Pair 1 7) 1 (Pair 0 3));
      ("bn_conv_4", BatchNormalization 192);
      ("_relu_4", relu)
    ]);
    ("tower_2", Tower [
      ("_pooling", AveragePooling2D 3 1 1);
      ("conv", Convolution2D 768 192 1 1 0);
      ("bn_conv", BatchNormalization 192);
      ("_relu", relu)
    ])
  ].

(** Lines 351-397. *)
Definition Inception_mixed_6 : expr :=
  Mixed [
    ("conv", Tower [
      ("conv", Convolution2D 768 192 1 1 0);
      ("bn_conv", BatchNormalization 192);
      ("_relu", relu)
    ]);
    ("tower", Tower [
      ("conv", Convolution2D 768 160 1 1 0);
      ("bn_conv", BatchNormalization 160);
      ("_relu", relu);
      ("conv_1", Convolution2D 160 160 (Pair 1 7) 1 (Pair 0 3));
      ("bn_conv_1", BatchNormalization 160);
      ("_relu_1", relu);
      ("conv_2", Convolution2D 160 192 (Pair 7 1) 1 (Pair 3 0));
      ("bn_conv_2", BatchNormalization 192);
      ("_relu_2", relu)
    ]);
    ("tower_1", Tower [
      ("conv", Convolution2D 768 160 1 1 0);
      ("bn_conv", BatchNormalization 160);
      ("_relu", relu);
      ("conv_1", Convolution2D 160 160 (Pair 7 1) 1 (Pair 3 0));
      ("bn_conv_1", BatchNormalization 160);
      ("_relu_1", relu);
      ("conv_2", Convolution2D 160 160 (Pair 1 7) 1 (Pair 0 3));
      ("bn_conv_2", BatchNormalization 160);
      ("_relu_2", relu);
      ("conv_3", Convolution2D 160 160 (Pair 7 1) 1 (Pair 3 0));
      ("bn_conv_3", BatchNormalization 160);
      ("_relu_3", relu);
      ("conv_4", Convolution2D 160 192 (Pair 1 7) 1 (Pair 0 3));
      ("bn_conv_4", BatchNormalization 192);
      ("_relu_4", relu)
    ]);
    ("tower_2", Tower [
      ("_pooling", AveragePooling2D 3 1 1);
      ("conv", Convolution2D 768 192 1 1 0);
      ("bn_conv", BatchNormalization 192);
      ("_relu", relu)
    ])
  ].

(** Lines 398-444. *)
Definition Inception_mixed_7 : expr :=
  Mixed [
    ("conv", Tower [
      ("conv", Convolution2D 768 192 1 1 0);
      ("bn_conv", BatchNormalization 192);
      ("_relu", relu)
    ]);
    ("tower", Tower [
      ("conv", Convolution2D 768 192 1 1 0);
      ("bn_conv", BatchNormalization 192);
      ("_relu", relu);
      ("conv_1", Convolution2D 192 192 (Pair 1 7) 1 (Pair 0 3));
      ("bn_conv_1", BatchNormalization 192);
      ("_relu_1", relu);
      ("conv_2", Convolution2D 192 192 (Pair 7 1) 1 (Pair 3 0));
      ("bn_conv_2", BatchNormalization 192);
      ("_relu_2", relu)
    ]);
    ("tower_1", Tower [
      ("conv", Convolution2D 768 192 1 1 0);
      ("bn_conv", BatchNormalization 192);
      ("_relu", relu);
      ("conv_1", Convolution2D 192 192 (Pair 7 1) 1 (Pair 3 0));
      ("bn_conv_1", BatchNormalization 192);
      ("_relu_1", relu);
      ("conv_2", Convolution2D 192 192 (Pair 1 7) 1 (Pair 0 3));
      ("bn_conv_2", BatchNormalization 192);
      ("_relu_2", relu);
      ("conv_3", Convolution2D 192 192 (Pair 7 1) 1 (Pair 3 0));
      ("bn_conv_3", BatchNormalization 192);
      ("_relu_3", relu);
      ("conv_4", Convolution2D 192 192 (Pair 1 7) 1 (Pair 0 3));
      ("bn_conv_4", BatchNormalization 192);
      ("_relu_4", relu)
    ]);
    ("tower_2", Tower [
      ("_pooling", AveragePooling2D 3 1 1);
      ("conv", Convolution2D 768 192 1 1 0);
      ("bn_conv", BatchNormalization 192);
      ("_relu", relu)
    ])
  ].

(** Lines 445-473. *)
Definition Inception_mixed_8 : expr :=
  Mixed [
    ("tower", Tower [
      ("conv", Convolution2D 768 192 1 1 0);
      ("bn_conv", BatchNormalization 192);
      ("_relu", relu);
      ("conv_1", Convolution2D 192 320 3 2 0);
      ("bn_conv_1", BatchNormalization 320);
      ("_relu_1", relu)
    ]);
    ("tower_1", Tower [
      ("conv", Convolution2D 768 192 1 1 0);
      ("bn_conv", BatchNormalization 192);
      ("_relu", relu);
      ("conv_1", Convolution2D 192 192 (Pair 1 7) 1 (Pair 0 3));
      ("bn_conv_1", BatchNormalization 192);
      ("_relu_1", relu);
      ("conv_2", Convolution2D 192 192 (Pair 7 1) 1 (Pair 3 0));
      ("bn_conv_2", BatchNormalization 192);
      ("_relu_2", relu);
      ("conv_3", Convolution2D 192 192 3 2 0);
      ("bn_conv_3", BatchNormalization 192);
      ("_relu_3", relu)
    ]);
    ("pool", Tower [
      ("_pooling", MaxPooling2D 3 2 0)
    ])
  ].

(** Lines 474-527. *)
Definition Inception_mixed_9 : expr :=
  Mixed [
    ("conv", Tower [
      ("conv", Convolution2D 1280 320 1 1 0);
      ("bn_conv", BatchNormalization 320);
      ("_relu", relu)
    ]);
    ("tower", Tower [
      ("conv", Convolution2D 1280 384 1 1 0);
      ("bn_conv", BatchNormalization 384);
      ("_relu", relu);
      ("mixed", Mixed [
        ("conv", Tower [
          ("conv", Convolution2D 384 384 (Pair 1 3) 1 (Pair 0 1));
          ("bn_conv", BatchNormalization 384);
          ("_relu", relu)
        ]);
        ("conv_1", Tower [
          ("conv_1", Convolution2D 384 384 (Pair 3 1) 1 (Pair 1 0));
          ("bn_conv_1", BatchNormalization 384);
          ("_relu_1", relu)
        ])
      ])
    ]);
    ("tower_1", Tower [
      ("conv", Convolution2D 1280 448 1 1 0);
      ("bn_conv", BatchNormalization 448);
      ("_relu", relu);
      ("conv_1", Convolution2D 448 384 3 1 1);
      ("bn_conv_1", BatchNormalization 384);
      ("_relu_1", relu);
      ("mixed", Mixed [
        ("conv", Tower [
          ("conv", Convolution2D 384 384 (Pair 1 3) 1 (Pair 0 1));
          ("bn_conv", BatchNormalization 384);
          ("_relu", relu)
        ]);
        ("conv_1", Tower [
          ("conv_1", Convolution2D 384 384 (Pair 3 1) 1 (Pair 1 0));
          ("bn_conv_1", BatchNormalization 384);
          ("_relu_1", relu)
        ])
      ])
    ]);
    ("tower_2", Tower [
      ("_pooling", AveragePooling2D 3 1 1);
      ("conv", Convolution2D 1280 192 1 1 0);
      ("bn_conv", BatchNormalization 192);
      ("_relu", relu)
    ])
  ].

(** Lines 528-581. *)
Definition Inception_mixed_10 : expr :=
  Mixed [
    ("conv", Tower [
      ("conv", Convolution2D 2048 320 1 1 0);
      ("bn_conv", BatchNormalization 320);
      ("_relu", relu)
    ]);
    ("tower", Tower [
      ("conv", Convolution2D 2048 384 1 1 0);
      ("bn_conv", BatchNormalization 384);
      ("_relu", relu);
      ("mixed", Mixed [
        ("conv", Tower [
          ("conv", Convolution2D 384 384 (Pair 1 3) 1 (Pair 0 1));
          ("bn_conv", BatchNormalization 384);
          ("_relu", relu)
        ]);
        ("conv_1", Tower [
          ("conv_1", Convolution2D 384 384 (Pair 3 1) 1 (Pair 1 0));
          ("bn_conv_1", BatchNormalization 384);
          ("_relu_1", relu)
        ])
      ])
    ]);
    ("tower_1", Tower [
      ("conv", Convolution2D 2048 448 1 1 0);
      ("bn_conv", BatchNormalization 448);
      ("_relu", relu);
      ("conv_1", Convolution2D 448 384 3 1 1);
      ("bn_conv_1", BatchNormalization 384);
      ("_relu_1", relu);
      ("mixed", Mixed [
        ("conv", Tower [
          ("conv", Convolution2D 384 384 (Pair 1 3) 1 (Pair 0 1));
          ("bn_conv", BatchNormalization 384);
          ("_relu", relu)
        ]);
        ("conv_1", Tower [
          ("conv_1", Convolution2D 384 384 (Pair 3 1) 1 (Pair 1 0));
          ("bn_conv_1", BatchNormalization 384);
          ("_relu_1", relu)
        ])
      ])
    ]);
    ("tower_2", Tower [
      ("_pooling", MaxPooling2D 3 1 1);
      ("conv", Convolution2D 2048 192 1 1 0);
      ("bn_conv", BatchNormalization 192);
      ("_relu", relu)
    ])
  ].

(** Line 582. *)
Definition Inception_logit : expr :=
  Linear 2048 1008.

Definition Inception_attrs : list (string * expr) :=
  [("conv", Inception_conv); ("conv_1", Inception_conv_1);
   ("conv_2", Inception_conv_2); ("conv_3", Inception_conv_3);
   ("conv_4", Inception_conv_4);
   ("bn_conv", Inception_bn_conv); ("bn_conv_1", Inception_bn_conv_1);
   ("bn_conv_2", Inception_bn_conv_2); ("bn_conv_3", Inception_bn_conv_3);
   ("bn_conv_4", Inception_bn_conv_4);
   ("mixed", Inception_mixed); ("mixed_1", Inception_mixed_1);
   ("mixed_2", Inception_mixed_2); ("mixed_3", Inception_mixed_3);
   ("mixed_4", Inception_mixed_4); ("mixed_5", Inception_mixed_5);
   ("mixed_6", Inception_mixed_6); ("mixed_7", Inception_mixed_7);
   ("mixed_8", Inception_mixed_8); ("mixed_9", Inception_mixed_9);
   ("mixed_10", Inception_mixed_10);
   ("logit", Inception_logit)].

(** [Inception.__init__]: the children of the new chain. *)
Definition Inception_init (in_dict has_attr : string -> bool)
  : outcome (list (string * obj)) :=
  init_scope in_dict has_attr Inception_attrs [].

(** The names the constructors register links under, those of the
    attributes of [Inception] and those inside its towers and mixed
    layers. *)
Definition Inception_names : list string :=
  ["conv"; "conv_1"; "conv_2"; "conv_3"; "conv_4";
   "bn_conv"; "bn_conv_1"; "bn_conv_2"; "bn_conv_3"; "bn_conv_4";
   "mixed"; "mixed_1"; "mixed_2"; "mixed_3"; "mixed_4"; "mixed_5";
   "mixed_6"; "mixed_7"; "mixed_8"; "mixed_9"; "mixed_10"; "logit";
   "tower"; "tower_1"; "tower_2"; "pool"].

Section InceptionCall.

Context {X : Type}.
Variable chainer : functions X.
Variable self : list (string * obj).

(** Lines 592-647 of [Inception.__call__]: nineteen assignments to [h],
    each followed in the source by a commented-out assertion on the shape
    of [h]. *)
Definition Inception_steps : list (X -> outcome X) :=
  [ (fun x => h <~ getattr_call chainer self "conv" x ;;
              h <~ getattr_call chainer self "bn_conv" h ;;
              F_relu chainer h);
    (fun h => h <~ getattr_call chainer self "conv_1" h ;;
              h <~ getattr_call chainer self "bn_conv_1" h ;;
              F_relu chainer h);
    (fun h => h <~ getattr_call chainer self "conv_2" h ;;
              h <~ getattr_call chainer self "bn_conv_2" h ;;
              F_relu chainer h);
    (fun h => F_max_pooling_2d chainer h 3 2 0);
    (fun h => h <~ getattr_call chainer self "conv_3" h ;;
              h <~ getattr_call chainer self "bn_conv_3" h ;;
              F_relu chainer h);
    (fun h => h <~ getattr_call chainer self "conv_4" h ;;
              h <~ getattr_call chainer self "bn_conv_4" h ;;
              F_relu chainer h);
    (fun h => F_max_pooling_2d chainer h 3 2 0);
    (fun h => getattr_call chainer self "mixed" h);
    (fun h => getattr_call chainer self "mixed_1" h);
    (fun h => getattr_call chainer self "mixed_2" h);
    (fun h => getattr_call chainer self "mixed_3" h);
    (fun h => getattr_call chainer self "mixed_4" h);
    (fun h => getattr_call chainer self "mixed_5" h);
    (fun h => getattr_call chainer self "mixed_6" h);
    (fun h => getattr_call chainer self "mixed_7" h);
    (fun h => getattr_call chainer self "mixed_8" h);
    (fun h => getattr_call chainer self "mixed_9" h);
    (fun h => getattr_call chainer self "mixed_10" h);
    (fun h => F_average_pooling_2d chainer h 8 1 0) ].

(** Lines 592-656: the layers, on the rescaled input. *)
Definition Inception_layers (x : X) (get_feature : bool) : outcome X :=
  h <~ run_steps Inception_steps x ;;
  h <~ F_reshape chainer h 2048 ;;
  if get_feature then Done h
  else
    h <~ getattr_call chainer self "logit" h ;;
    F_softmax chainer h.

End InceptionCall.

(** The shapes in the commented-out assertions of lines 593-647, for [n]
    examples. *)
Definition Inception_asserted (n : nat) : list shape :=
  [ [n; 32; 149; 149]; [n; 32; 147; 147]; [n; 64; 147; 147];
    [n; 64; 73; 73]; [n; 80; 73; 73]; [n; 192; 71; 71]; [n; 192; 35; 35];
    [n; 256; 35; 35]; [n; 288; 35; 35]; [n; 288; 35; 35];
    [n; 768; 17; 17]; [n; 768; 17; 17]; [n; 768; 17; 17];
    [n; 768; 17; 17]; [n; 768; 17; 17];
    [n; 1280; 8; 8]; [n; 2048; 8; 8]; [n; 2048; 8; 8];
    [n; 2048; 1; 1] ].

(* ===================================================================== *)
(** * Properties *)

(* ===================================================================== *)
(** ** Slices and ranges *)

Lemma clip_index_inside (len : nat) (i : nat) :
  (i <= len)%nat -> clip_index len (Z.of_nat i) = i.
Proof.
  intros Hi. unfold clip_index.
  destruct (Z.ltb_spec (Z.of_nat i) 0); lia.
Qed.

Lemma rows_of_length {A} (lo hi : nat) (l : list A) :
  (hi <= length l)%nat -> length (rows_of lo hi l) = (hi - lo)%nat.
Proof.
  intros Hhi. unfold rows_of.
  rewrite length_take, length_drop. lia.
Qed.

Lemma take_rows_of {A} (lo hi : nat) (l : list A) :
  (lo <= hi)%nat -> take lo l ++ rows_of lo hi l = take hi l.
Proof.
  intros Hle. unfold rows_of.
  rewrite take_take_drop. f_equal. lia.
Qed.

(** Consecutive ranges cut along a monotone sequence of boundaries tile the
    prefix up to the last boundary. *)
Lemma concat_rows_of {A} (b : nat -> nat) (l : list A) (k : nat) :
  b 0%nat = 0%nat ->
  (forall s, (s < k)%nat -> (b s <= b (S s))%nat) ->
  concat (map (fun s => rows_of (b s) (b (S s)) l) (seq 0 k)) = take (b k) l.
Proof.
  intros H0 Hmono. induction k as [|k IH].
  - simpl. by rewrite H0.
  - rewrite seq_S, map_app, concat_app, IH by (intros; apply Hmono; lia).
    simpl. rewrite app_nil_r. apply take_rows_of, Hmono. lia.
Qed.

(** Floor division of consecutive multiples: the steps differ by at most
    one. *)
Lemma div_step (N K s : nat) :
  (1 <= K)%nat ->
  let lo := (s * N / K)%nat in
  let hi := ((s + 1) * N / K)%nat in
  (lo <= hi)%nat /\ ((hi - lo = N / K)%nat \/ (hi - lo = N / K + 1)%nat).
Proof.
  intros HS lo hi.
  pose proof (Nat.div_mod_eq N K) as HN.
  pose proof (Nat.mod_upper_bound N K ltac:(lia)) as HNr.
  pose proof (Nat.div_mod_eq (s * N) K) as Hs.
  pose proof (Nat.mod_upper_bound (s * N) K ltac:(lia)) as Hsr.
  assert (Hhi : hi = (lo + N / K + ((s * N) mod K + N mod K) / K)%nat).
  { subst hi lo.
    replace ((s + 1) * N)%nat
      with (((s * N) mod K + N mod K) + (s * N / K + N / K) * K)%nat by lia.
    rewrite Nat.div_add by lia. lia. }
  assert (Hc : (((s * N) mod K + N mod K) / K < 2)%nat).
  { apply Nat.Div0.div_lt_upper_bound. lia. }
  lia.
Qed.

Lemma split_part_rows (ys : list (list float)) (N K s : nat) :
  (1 <= K)%nat -> (s < K)%nat -> length ys = N ->
  split_part ys N (Z.of_nat K) s
  = rows_of (s * N / K) ((s + 1) * N / K) ys.
Proof.
  intros HS Hs Hlen. unfold split_part, getrows.
  assert (Hb : forall k, (k <= K)%nat -> (k * N / K <= N)%nat).
  { intros k Hk. apply Nat.Div0.div_le_upper_bound. nia. }
  replace (Z.of_nat s + 1)%Z with (Z.of_nat (s + 1)) by lia.
  rewrite <- !Nat2Z.inj_mul, <- !Nat2Z.inj_div.
  rewrite !clip_index_inside by (rewrite Hlen; apply Hb; lia).
  done.
Qed.

Lemma range_of_nat (k : nat) : range (Z.of_nat k) = seq 0 k.
Proof. unfold range. by rewrite Nat2Z.id. Qed.

(** C2.  With [1 <= S <= N], split [s] is the row range
    [[floor(s*N/S), floor((s+1)*N/S))] of the probability matrix; the [S]
    ranges, taken in order, tile the [N] rows without gap or overlap; every
    split has [floor(N/S)] or [floor(N/S)+1] rows; the sizes add up to [N]. *)
Theorem split_rows_partition (ys : list (list float)) (N K : nat) :
  (1 <= N)%nat -> (1 <= K <= N)%nat -> length ys = N ->
  let part := split_part ys N (Z.of_nat K) in
  (forall s, (s < K)%nat ->
     part s = rows_of (s * N / K) ((s + 1) * N / K) ys
     /\ length (part s) = ((s + 1) * N / K - s * N / K)%nat
     /\ (length (part s) = (N / K)%nat \/ length (part s) = (N / K + 1)%nat))
  /\ concat (map part (range (Z.of_nat K))) = ys
  /\ sum_list (map (fun s => length (part s)) (range (Z.of_nat K))) = N.
Proof.
  intros HN HS Hlen part.
  assert (Hb : forall k, (k <= K)%nat -> (k * N / K <= N)%nat).
  { intros k Hk. apply Nat.Div0.div_le_upper_bound. nia. }
  assert (Hparts : forall s, (s < K)%nat ->
            part s = rows_of (s * N / K) ((s + 1) * N / K) ys).
  { intros s Hs. by apply split_part_rows; [lia|..]. }
  assert (Hcat : concat (map part (range (Z.of_nat K))) = ys).
  { rewrite range_of_nat.
    rewrite (map_ext_in part (fun s => rows_of (s * N / K) (S s * N / K) ys)).
    - rewrite (concat_rows_of (fun s => s * N / K)%nat ys K).
      + cbv beta. rewrite (Nat.mul_comm K N), Nat.div_mul by lia.
        apply take_ge. lia.
      + cbv beta. rewrite Nat.mul_0_l. apply Nat.Div0.div_0_l.
      + intros s _. replace (S s) with (s + 1)%nat by lia.
        apply (div_step N K s). lia.
    - intros s Hin. apply in_seq in Hin. rewrite Hparts by lia.
      do 2 f_equal. lia. }
  split; [|split].
  - intros s Hs. rewrite Hparts by done.
    destruct (div_step N K s ltac:(lia)) as [Hle Hsz].
    rewrite rows_of_length by (rewrite Hlen; apply Hb; lia).
    auto.
  - exact Hcat.
  - assert (Hsum : length (concat (map part (range (Z.of_nat K)))) = N)
      by (by rewrite Hcat).
    rewrite length_concat in Hsum. rewrite <- Hsum.
    f_equal. by rewrite map_map.
Qed.

Lemma split_rows_partition_witness :
  let ys := replicate 23 ([] : list float) in
  let part := split_part ys 23 10 in
  map (fun s => length (part s)) (range 10) = [2; 2; 2; 3; 2; 2; 3; 2; 2; 3]%nat
  /\ concat (map part (range 10)) = ys.
Proof.
  split; [reflexivity|].
  apply (split_rows_partition (replicate 23 []) 23 10); [lia | lia | reflexivity].
Defined.

(* ===================================================================== *)
(** ** Relations kept by every step of a computation *)

Section Keeps.

Context {S : Type} (R : S -> S -> Prop).
Hypothesis R_refl : forall s, R s s.
Hypothesis R_trans : forall s1 s2 s3, R s1 s2 -> R s2 s3 -> R s1 s3.

Lemma keeps_ret {A} (a : A) : keeps R (ret a).
Proof using R_refl. intros s. apply R_refl. Qed.

Lemma keeps_raise {A} (e : exn) : keeps R (raise (A := A) e).
Proof using R_refl. intros s. apply R_refl. Qed.

Lemma keeps_bind {A B} (c : SE S A) (k : A -> SE S B) :
  keeps R c -> (forall a, keeps R (k a)) -> keeps R (bind c k).
Proof using R_trans.
  intros Hc Hk s. unfold bind.
  specialize (Hc s). destruct (c s) as [[a|e] s']; simpl in *.
  - eapply R_trans; [exact Hc | apply Hk].
  - exact Hc.
Qed.

(** The continuation may rely on what the first step guarantees of its
    result. *)
Lemma keeps_bind_post {A B} (P : A -> Prop) (c : SE S A) (k : A -> SE S B) :
  keeps R c ->
  (forall s a, fst (c s) = Ok a -> P a) ->
  (forall a, P a -> keeps R (k a)) ->
  keeps R (bind c k).
Proof using R_trans.
  intros Hc HP Hk s. unfold bind.
  specialize (Hc s). specialize (HP s).
  destruct (c s) as [[a|e] s']; simpl in *.
  - eapply R_trans; [exact Hc | by apply Hk, HP].
  - exact Hc.
Qed.

Lemma keeps_for_each {A X} (xs : list X) (body : X -> A -> SE S A) (acc : A) :
  (forall x acc', keeps R (body x acc')) -> keeps R (for_each xs body acc).
Proof using R_refl R_trans.
  intros Hbody. revert acc. induction xs as [|x xs IH]; intros acc; simpl.
  - apply keeps_ret.
  - apply keeps_bind; [apply Hbody | intros acc'; apply IH].
Qed.

End Keeps.

(* ===================================================================== *)
(** ** The scoped configuration *)

Lemma scoped_refl (st : state) : scoped st st.
Proof. split; [done|]. exists []. by rewrite app_nil_r. Qed.

Lemma scoped_trans (s1 s2 s3 : state) : scoped s1 s2 -> scoped s2 s3 -> scoped s1 s3.
Proof.
  intros [Hf1 (n1 & Hc1 & Hn1)] [Hf2 (n2 & Hc2 & Hn2)]. split.
  - congruence.
  - exists (n1 ++ n2). split.
    + by rewrite Hc2, Hc1, app_assoc.
    + by apply Forall_app.
Qed.

(** What is unchanged by a step that works on the store only. *)
Lemma scoped_same (st st' : state) :
  flags (fst st') = flags (fst st) -> calls (snd st') = calls (snd st) ->
  scoped st st'.
Proof. intros Hf Hc. split; [done|]. exists []. by rewrite app_nil_r. Qed.

Lemma classify_entry (model : Model) (rng : Z * Z) (x : pyval) (st : state) :
  let st' := snd (classify model rng x st) in
  flags (fst st') = flags (fst st)
  /\ exists c, calls (snd st') = calls (snd st) ++ [c] /\ inference_mode c.
Proof.
  destruct st as [w t]. unfold classify, using_config, invoke, bind, lift. simpl.
  destruct (call model x _) as [r w']. simpl.
  split; [done|]. eexists. split; [done|]. done.
Qed.

(* ===================================================================== *)
(** ** Steps that only allocate *)

Lemma extends_refl (w : world) : extends w w.
Proof. by split. Qed.

Lemma extends_trans (w1 w2 w3 : world) :
  extends w1 w2 -> extends w2 w3 -> extends w1 w3.
Proof.
  intros (Hh1 & Hf1 & Hg1) (Hh2 & Hf2 & Hg2). split; [|split].
  - by etrans.
  - congruence.
  - congruence.
Qed.

Lemma extends_lookup (w w' : world) (l : loc) (a : ndarray) :
  extends w w' -> heap w !! l = Some a -> heap w' !! l = Some a.
Proof. intros (Hh & _) Hl. by eapply prefix_lookup_Some. Qed.

#[local] Hint Resolve extends_refl extends_trans : core.

Lemma keeps_load (l : loc) : keeps extends (load l).
Proof. intros w. unfold load. by destruct (heap w !! l). Qed.

Lemma keeps_alloc (a : ndarray) : keeps extends (alloc a).
Proof. intros w. split; [|done]. simpl. by apply prefix_app_r. Qed.

Ltac keeps_extends :=
  repeat first
    [ apply (keeps_bind extends extends_trans); [|intros ?]
    | apply (keeps_ret extends extends_refl)
    | apply (keeps_raise extends extends_refl)
    | apply keeps_load
    | apply keeps_alloc ].

Lemma keeps_read (v : view) : keeps extends (read v).
Proof. unfold read. keeps_extends. Qed.

Lemma keeps_asarray (m : array_module) (v : view) : keeps extends (asarray m v).
Proof. destruct m; simpl; keeps_extends. Qed.

Lemma keeps_resize_images resample (x : pyval) (out : nat * nat) :
  keeps extends (resize_images resample x out).
Proof. unfold resize_images. keeps_extends. Qed.

Lemma keeps_batch_input resample (model : Model) (ims : loc) (n w h : nat)
    (a b : Z) :
  keeps extends (batch_input resample model ims n w h a b).
Proof.
  unfold batch_input.
  apply (keeps_bind extends extends_trans); [apply keeps_asarray|intros v].
  destruct (decide _); [apply keeps_resize_images | keeps_extends].
Qed.

(* ===================================================================== *)
(** ** C6: the configuration override is scoped *)

Lemma keeps_lift_scoped {A} (c : W A) : keeps extends c -> keeps scoped (lift c).
Proof.
  intros Hc [w t]. unfold lift. simpl.
  destruct (Hc w) as (_ & Hf & _). destruct (c w) as [r w']. simpl in *.
  by apply scoped_same.
Qed.

Lemma keeps_print_scoped (e : event) : keeps scoped (print e).
Proof. intros [w t]. by apply scoped_same. Qed.

Lemma keeps_setitem_scoped (ys : list (list float)) (a b : Z) (y : matrix) :
  keeps scoped (setitem ys a b y).
Proof.
  intros [w t]. unfold setitem, on_trace, store_rows.
  destruct (assign ys a b y); by apply scoped_same.
Qed.

Lemma keeps_classify_scoped (model : Model) (rng : Z * Z) (x : pyval) :
  keeps scoped (classify model rng x).
Proof.
  intros st. destruct (classify_entry model rng x st) as (Hf & c & Hc & Hm).
  split; [done|]. exists [c]. split; [done|]. by apply Forall_singleton.
Qed.

Ltac keeps_scoped :=
  repeat first
    [ apply (keeps_bind scoped scoped_trans); [|intros ?]
    | apply (keeps_ret scoped scoped_refl)
    | apply (keeps_raise scoped scoped_refl)
    | apply (keeps_for_each scoped scoped_refl scoped_trans); intros ? ?
    | apply keeps_print_scoped
    | apply keeps_setitem_scoped
    | apply keeps_classify_scoped ].

Lemma keeps_run_batch_scoped resample (model : Model) (ims : loc) (n w h : nat)
    (batch_size n_batches : Z) (i : nat) (ys : list (list float)) :
  keeps scoped (run_batch resample model ims n w h batch_size n_batches i ys).
Proof.
  unfold run_batch.
  apply (keeps_bind scoped scoped_trans); [apply keeps_print_scoped|intros _].
  apply (keeps_bind scoped scoped_trans).
  { apply keeps_lift_scoped, keeps_batch_input. }
  intros x. keeps_scoped.
Qed.

Lemma keeps_inference_scoped resample (model : Model) (ims : loc) (batch_size : Z) :
  keeps scoped (inference resample model ims batch_size).
Proof.
  unfold inference.
  apply (keeps_bind scoped scoped_trans).
  { apply keeps_lift_scoped, keeps_load. }
  intros a. apply (keeps_bind scoped scoped_trans).
  { unfold ceil_div. destruct (_ =? _)%Z; keeps_scoped. }
  intros n_batches.
  do 3 (apply (keeps_bind scoped scoped_trans);
        [apply keeps_print_scoped|intros _]).
  apply (keeps_bind scoped scoped_trans).
  { intros st. apply scoped_refl. }
  intros ys. apply (keeps_bind scoped scoped_trans).
  - apply (keeps_for_each scoped scoped_refl scoped_trans).
    intros i acc. apply keeps_run_batch_scoped.
  - intros ys'. keeps_scoped.
Qed.

Lemma keeps_aggregate_scoped (ys : list (list float)) (n : nat) (splits : Z) :
  keeps scoped (aggregate ys n splits).
Proof.
  unfold aggregate. apply (keeps_bind scoped scoped_trans).
  { intros st. unfold empty_vector. destruct (_ <? _)%Z; apply scoped_refl. }
  intros scores. keeps_scoped.
Qed.

(** C6.  Each classifier invocation is entered with [train] and
    [enable_backprop] off and leaves both flags as they were before it,
    whether the classifier returns or raises; over a whole run of
    [inception_score] every recorded invocation ran with both flags off and
    the flags at the end are those at the start, whatever the outcome. *)
Theorem config_scoped resample (model : Model) (ims : loc)
    (batch_size splits : Z) (rng : Z * Z) (x : pyval) (st : state) :
  (let st' := snd (classify model rng x st) in
   flags (fst st') = flags (fst st)
   /\ exists c, calls (snd st') = calls (snd st) ++ [c]
                /\ c_train c = false /\ c_backprop c = false)
  /\ (let st' := snd (inception_score resample model ims batch_size splits st) in
      flags (fst st') = flags (fst st)
      /\ exists new, calls (snd st') = calls (snd st) ++ new
                     /\ Forall (fun c => c_train c = false /\ c_backprop c = false)
                               new).
Proof.
  split.
  - apply classify_entry.
  - cut (keeps scoped (inception_score resample model ims batch_size splits)).
    { intros H. apply H. }
    unfold inception_score.
    apply (keeps_bind scoped scoped_trans); [apply keeps_inference_scoped|].
    intros [n ys]. apply keeps_aggregate_scoped.
Qed.

(* ===================================================================== *)
(** ** C5: the input images are not written to *)

Lemma grows_refl (st : state) : grows st st.
Proof. by unfold grows. Qed.

Lemma grows_trans (s1 s2 s3 : state) : grows s1 s2 -> grows s2 s3 -> grows s1 s3.
Proof. unfold grows. intros. by etrans. Qed.

Lemma keeps_lift_grows {A} (c : W A) : keeps extends c -> keeps grows (lift c).
Proof.
  intros Hc [w t]. unfold lift, grows. simpl.
  destruct (Hc w) as (Hh & _). by destruct (c w).
Qed.

Lemma keeps_quiet_grows {A} (c : M A) :
  (forall st, heap (fst (snd (c st))) = heap (fst st)) -> keeps grows c.
Proof. intros Hc st. unfold grows. by rewrite Hc. Qed.

(** On a Variable the two updates of [Inception.__call__] allocate. *)
Lemma keeps_inplace_var (op : float -> float) (v : view) :
  keeps extends (inplace op (Var v)).
Proof. simpl. keeps_extends. Qed.

Lemma inplace_var_result (op : float -> float) (v : view) (w : world) (x : pyval) :
  fst (inplace op (Var v) w) = Ok x -> exists v', x = Var v'.
Proof.
  simpl. unfold bind, read, bind, load.
  destruct (heap w !! base v); simpl; [|done].
  intros [= <-]. by eexists.
Qed.

Lemma keeps_Inception_call_var trunk logit_softmax (v : view) (get_feature : bool) :
  keeps extends (Inception_call trunk logit_softmax (Var v) get_feature).
Proof.
  unfold Inception_call.
  apply (keeps_bind_post extends extends_trans (fun x => exists v', x = Var v')).
  { apply keeps_inplace_var. }
  { intros w x. apply inplace_var_result. }
  intros x [v' ->].
  apply (keeps_bind extends extends_trans); [apply keeps_inplace_var|].
  intros x'. apply (keeps_bind extends extends_trans); [apply keeps_read|].
  intros a. apply (keeps_bind extends extends_trans).
  { intros w. apply extends_refl. }
  intros h. destruct get_feature; keeps_extends.
Qed.

Lemma keeps_classify_grows (model : Model) (rng : Z * Z) (x : pyval) :
  keeps extends (call model x) -> keeps grows (classify model rng x).
Proof.
  intros Hcall [w t]. unfold classify, using_config, invoke, bind, lift, grows.
  simpl.
  match goal with |- context [call model x ?w0] =>
    destruct (Hcall w0) as (Hh & _); destruct (call model x w0) as [r w'] end.
  simpl in *. done.
Qed.

Lemma batch_input_var resample (model : Model) (ims : loc) (n w h : nat)
    (a b : Z) (s : world) (x : pyval) :
  fst (batch_input resample model ims n w h a b s) = Ok x -> exists v, x = Var v.
Proof.
  unfold batch_input, bind.
  destruct (asarray (xp model) _ s) as [[v|e] s']; simpl; [|done].
  destruct (decide _).
  - unfold resize_images, bind.
    destruct (read _ s') as [[a'|e] s'']; simpl; [|done].
    intros [= <-]. by eexists.
  - intros [= <-]. by eexists.
Qed.

Lemma keeps_run_batch_grows resample trunk logit_softmax (m : array_module)
    (ims : loc) (n w h : nat) (batch_size n_batches : Z) (i : nat)
    (ys : list (list float)) :
  keeps grows (run_batch resample (Inception trunk logit_softmax m)
                 ims n w h batch_size n_batches i ys).
Proof.
  unfold run_batch.
  apply (keeps_bind grows grows_trans); [by apply keeps_quiet_grows|intros _].
  apply (keeps_bind_post grows grows_trans (fun x => exists v, x = Var v)).
  { apply keeps_lift_grows, keeps_batch_input. }
  { intros [s t] x. unfold lift. simpl.
    pose proof (batch_input_var resample (Inception trunk logit_softmax m)
                  ims n w h (batch_start batch_size i)
                  (batch_end batch_size n i) s x) as Hv.
    destruct (batch_input _ _ _ _ _ _ _ _ s). exact Hv. }
  intros x [v ->].
  apply (keeps_bind grows grows_trans).
  { apply keeps_classify_grows. simpl. apply keeps_Inception_call_var. }
  intros y. apply keeps_quiet_grows. intros [s t].
  unfold setitem, on_trace, store_rows.
  by destruct (assign _ _ _ _).
Qed.

(** C5.  With the Inception model as classifier, a run of
    [inception_score] leaves every array of the store, the input images
    among them, where and as it was: the store has only been extended by
    fresh arrays, and the contents found at [ims] afterwards are those
    found there before, whatever the outcome of the run. *)
Theorem input_images_unchanged resample trunk logit_softmax (m : array_module)
    (ims : loc) (batch_size splits : Z) (st : state) :
  let st' := snd (inception_score resample (Inception trunk logit_softmax m)
                    ims batch_size splits st) in
  heap (fst st) `prefix_of` heap (fst st')
  /\ heap (fst st') !! ims = heap (fst st) !! ims.
Proof.
  set (model := Inception trunk logit_softmax m).
  assert (Hk : keeps grows (inception_score resample model ims batch_size splits)).
  { unfold inception_score, inference.
    apply (keeps_bind grows grows_trans).
    - apply (keeps_bind grows grows_trans).
      { apply keeps_lift_grows, keeps_load. }
      intros a. apply (keeps_bind grows grows_trans).
      { apply keeps_quiet_grows. intros s. unfold ceil_div.
        by destruct (_ =? _)%Z. }
      intros n_batches.
      do 3 (apply (keeps_bind grows grows_trans);
            [by apply keeps_quiet_grows|intros _]).
      apply (keeps_bind grows grows_trans); [by apply keeps_quiet_grows|].
      intros ys. apply (keeps_bind grows grows_trans).
      + apply (keeps_for_each grows grows_refl grows_trans).
        intros i acc. apply keeps_run_batch_grows.
      + intros ys'. by apply keeps_quiet_grows.
    - intros [n ys]. unfold aggregate.
      apply (keeps_bind grows grows_trans).
      { apply keeps_quiet_grows. intros s. unfold empty_vector.
        by destruct (_ <? _)%Z. }
      intros scores. by apply keeps_quiet_grows. }
  intros st'. split; [apply Hk|].
  destruct (heap (fst st) !! ims) as [a|] eqn:Hl.
  - eapply prefix_lookup_Some; [exact Hl | apply Hk].
  - subst st'. unfold inception_score, inference, bind, lift, load.
    rewrite Hl. simpl. exact Hl.
Qed.

(* ===================================================================== *)
(** ** The program against its denotation, for a functional classifier *)

Section Simulation.

Variable ims : loc.
Variable a : ndarray.
Variable g : nat -> nat -> float.

Lemma sim_ret {A} (x : A) : simulates ims a g (ret x) (ret x).
Proof. intros w t _ _. by exists w. Qed.

Lemma sim_raise {A} (e : exn) :
  simulates ims a g (raise (A := A) e) (raise e).
Proof. intros w t _ _. by exists w. Qed.

Lemma sim_bind {A B} (c : M A) (d : SE trace A) (k : A -> M B)
    (k' : A -> SE trace B) :
  simulates ims a g c d -> (forall x, simulates ims a g (k x) (k' x)) ->
  simulates ims a g (bind c k) (bind d k').
Proof.
  intros Hc Hk w t Hh Hg.
  destruct (Hc w t Hh Hg) as (w1 & He1 & Heq). unfold bind. rewrite Heq.
  destruct (d t) as [[x|e] t1]; simpl.
  - destruct (Hk x w1 t1) as (w2 & He2 & Heq2).
    + by eapply extends_lookup.
    + destruct He1 as (_ & _ & ->). done.
    + exists w2. split; [by eapply extends_trans|done].
  - by exists w1.
Qed.

Lemma sim_for_each {A X} (xs : list X) (body : X -> A -> M A)
    (body' : X -> A -> SE trace A) (acc : A) :
  (forall x acc', simulates ims a g (body x acc') (body' x acc')) ->
  simulates ims a g (for_each xs body acc) (for_each xs body' acc).
Proof.
  intros Hb. revert acc. induction xs as [|x xs IH]; intros acc; simpl.
  - apply sim_ret.
  - apply sim_bind; [apply Hb | intros acc'; apply IH].
Qed.

Lemma sim_on_trace {A} (d : SE trace A) : simulates ims a g (on_trace d) d.
Proof.
  intros w t _ _. exists w. split; [done|].
  unfold on_trace. simpl. by destruct (d t).
Qed.

Lemma sim_assoc {A B C} (c : M A) (k1 : A -> M B) (k2 : B -> M C)
    (d : SE trace C) :
  simulates ims a g (bind (bind c k1) k2) d ->
  simulates ims a g (bind c (fun x => bind (k1 x) k2)) d.
Proof.
  intros H w t Hh Hg. destruct (H w t Hh Hg) as (w' & He & Heq).
  exists w'. split; [done|]. rewrite <- Heq. unfold bind.
  destruct (c (w, t)) as [[x|e] s1]; [|done]. done.
Qed.

Lemma sim_load : simulates ims a g (lift (load ims)) (ret a).
Proof.
  intros w t Hh _. exists w. split; [done|].
  unfold lift, load. simpl. by rewrite Hh.
Qed.

Lemma sim_ceil_div (n : nat) (d : Z) :
  simulates ims a g (ceil_div n d) (ceil_div n d).
Proof. unfold ceil_div. destruct (_ =? _)%Z; [apply sim_raise|apply sim_ret]. Qed.

Lemma sim_empty_matrix (n k : nat) :
  simulates ims a g (empty_matrix n k) (ret (empty2 g n k)).
Proof.
  intros w t _ Hg. exists w. split; [done|].
  unfold empty_matrix. simpl. by rewrite Hg.
Qed.

Lemma sim_empty_vector (k : Z) :
  simulates ims a g (empty_vector k)
    (if (k <? 0)%Z then raise ValueError else ret (empty1 g (Z.to_nat k))).
Proof.
  intros w t _ Hg. exists w. split; [done|].
  unfold empty_vector. simpl. rewrite Hg. by destruct (_ <? _)%Z.
Qed.

End Simulation.

(* ===================================================================== *)
(** ** What the classifier is handed *)

Lemma rows_of_full {A} (l : list A) : rows_of 0 (length l) l = l.
Proof. unfold rows_of. rewrite Nat.sub_0_r. simpl. by apply take_ge. Qed.

Lemma slice_array_full (a : ndarray) : slice_array a 0 (length (images a)) = a.
Proof. destruct a as [c w h imgs]. unfold slice_array. simpl. by rewrite rows_of_full. Qed.

Lemma read_Ok (v : view) (w : world) (a : ndarray) :
  heap w !! base v = Some a ->
  read v w = (Ok (slice_array a (start v) (stop v)), w).
Proof. intros Hl. unfold read, bind, load. by rewrite Hl. Qed.

(** An array just allocated reads back as it was written. *)
Lemma read_alloc (x : ndarray) (w : world) :
  exists v w', alloc x w = (Ok v, w') /\ extends w w' /\ read v w' = (Ok x, w').
Proof.
  eexists _, _. split; [reflexivity|]. split; [apply keeps_alloc|].
  rewrite (read_Ok _ _ x).
  - simpl. by rewrite slice_array_full.
  - simpl. by rewrite lookup_app_r, Nat.sub_diag by lia.
Qed.

Section BatchInput.

Variable resample : nat * nat -> nat * nat -> image -> image.

Lemma resize_images_reads (v : view) (w : world) (x : ndarray) :
  read v w = (Ok x, w) ->
  exists v' w', resize_images resample (Var v) (299, 299)%nat w = (Ok (Var v'), w')
    /\ extends w w' /\ read v' w' = (Ok (resized resample x (299, 299)%nat), w').
Proof.
  intros Hr. unfold resize_images, bind.
  change (data (Var v)) with v. rewrite Hr. cbv beta iota.
  destruct (read_alloc (resized resample x (299, 299)%nat) w)
    as (v' & w' & Ha & He & Hr').
  rewrite Ha. by exists v', w'.
Qed.

(** Lines 41-47 hand the classifier a Variable; what it holds is the
    batch itself when the images are 299 by 299, and the resized batch
    otherwise. *)
Lemma batch_input_reads (model : Model) (ims : loc) (a : ndarray)
    (lo hi : Z) (w : world) :
  heap w !! ims = Some a ->
  let n := length (images a) in
  let batch := slice_array a (clip_index n lo) (clip_index n hi) in
  exists v w',
    batch_input resample model ims n (dim_w a) (dim_h a) lo hi w
    = (Ok (Var v), w')
    /\ extends w w'
    /\ read v w'
       = (Ok (if decide ((dim_w a, dim_h a) ≠ (299, 299))%nat
              then resized resample batch (299, 299)%nat else batch), w').
Proof.
  intros Hh n batch.
  assert (Hv0 : read (getitem ims n lo hi) w = (Ok batch, w)).
  { by rewrite (read_Ok _ _ a). }
  assert (Has : exists v1 w1, asarray (xp model) (getitem ims n lo hi) w
                              = (Ok v1, w1)
                              /\ extends w w1 /\ read v1 w1 = (Ok batch, w1)).
  { destruct (xp model); simpl.
    - eexists _, w. split; [reflexivity|]. by split.
    - unfold bind. rewrite Hv0. apply read_alloc. }
  destruct Has as (v1 & w1 & Has & He1 & Hr1).
  unfold batch_input, bind. rewrite Has.
  destruct (decide _).
  - destruct (resize_images_reads v1 w1 batch Hr1) as (v2 & w2 & Hrs & He2 & Hr2).
    exists v2, w2. split; [done|]. split; [by eapply extends_trans|done].
  - by exists v1, w1.
Qed.

End BatchInput.

Section Refinement.

Variable resample : nat * nat -> nat * nat -> image -> image.
Variable m : array_module.
Variable f : bool -> bool -> ndarray -> result matrix.
Variable ims : loc.
Variable a : ndarray.
Variable g : nat -> nat -> float.

Let model := pure_model m f.
Let n := length (images a).

Lemma classify_pure_model (rng : Z * Z) (v : view) (x : ndarray)
    (w : world) (t : trace) :
  read v w = (Ok x, w) ->
  classify model rng (Var v) (w, t)
  = (f false false x,
     (w, mk_trace (stdout t) (calls t ++ [mk_call rng (Some x) false false])
                  (writes t))).
Proof.
  intros Hr. destruct w as [h tr eb gb].
  unfold read, bind, load in Hr. simpl in Hr.
  destruct (h !! base v) as [a'|] eqn:Hl; [|done].
  injection Hr as <-.
  unfold classify, using_config, invoke, bind, on_trace, record_call, lift,
    entry_of. simpl.
  unfold read, bind, load. simpl. rewrite Hl. simpl. done.
Qed.

Lemma sim_classify (batch_size : Z) (i : nat) :
  simulates ims a g
    (x <- lift (batch_input resample model ims n (dim_w a) (dim_h a)
                  (batch_start batch_size i) (batch_end batch_size n i)) ;;
     classify model (batch_start batch_size i, batch_end batch_size n i) x)
    (classify_pure resample f a batch_size i).
Proof.
  intros w t Hh Hg.
  destruct (batch_input_reads resample model ims a
              (batch_start batch_size i) (batch_end batch_size n i) w Hh)
    as (v & w' & Hbi & He & Hr).
  exists w'. split; [done|].
  unfold bind at 1. unfold lift at 1. unfold n in *.
  change (fst (w, t)) with w. rewrite Hbi. cbv beta iota.
  change (snd (w, t)) with t.
  rewrite (classify_pure_model _ _ _ _ _ Hr). done.
Qed.

Lemma sim_run_batch (batch_size n_batches : Z) (i : nat)
    (ys : list (list float)) :
  simulates ims a g
    (run_batch resample model ims n (dim_w a) (dim_h a)
       batch_size n_batches i ys)
    (run_batch_pure resample f a batch_size n_batches i ys).
Proof.
  unfold run_batch, run_batch_pure.
  apply sim_bind; [apply sim_on_trace|intros _].
  apply sim_assoc. apply sim_bind; [apply sim_classify|intros y].
  apply sim_on_trace.
Qed.

Lemma sim_inference (batch_size : Z) :
  simulates ims a g (inference resample model ims batch_size)
                    (inference_pure resample f a g batch_size).
Proof.
  unfold inference, inference_pure.
  intros w t Hh Hg.
  unfold bind at 1. unfold lift at 1, load at 1. simpl. rewrite Hh.
  revert w t Hh Hg. fold n.
  apply sim_bind; [apply sim_ceil_div|intros n_batches].
  do 3 (apply sim_bind; [apply sim_on_trace|intros _]).
  apply sim_bind; [apply sim_empty_matrix|intros ys].
  apply sim_bind; [|intros ys'; apply sim_ret].
  apply sim_for_each. intros i acc. apply sim_run_batch.
Qed.

Lemma sim_aggregate (ys : list (list float)) (k : nat) (splits : Z) :
  simulates ims a g (aggregate ys k splits) (aggregate_pure g ys k splits).
Proof.
  unfold aggregate, aggregate_pure.
  apply sim_bind; [apply sim_empty_vector|intros scores]. apply sim_ret.
Qed.

(** With a functional classifier the program does what its denotation
    says, from any store that holds the images. *)
Lemma sim_inception_score (batch_size splits : Z) :
  simulates ims a g (inception_score resample model ims batch_size splits)
                    (inception_score_pure resample f a g batch_size splits).
Proof.
  unfold inception_score, inception_score_pure.
  apply sim_bind; [apply sim_inference|].
  intros [k ys]. apply sim_aggregate.
Qed.

End Refinement.

(* ===================================================================== *)
(** ** Batch bounds *)

Lemma for_each_app {S A X} (xs zs : list X) (body : X -> A -> SE S A)
    (acc : A) (s : S) :
  for_each (xs ++ zs) body acc s
  = bind (for_each xs body acc) (for_each zs body) s.
Proof.
  revert acc s. induction xs as [|x xs IH]; intros acc s; simpl.
  - done.
  - unfold bind. destruct (body x acc s) as [[acc'|e] s']; [|done].
    rewrite IH. done.
Qed.

Section Bounds.

Variable batch_size : Z.
Variable N : nat.
Hypothesis Hbs : (1 <= batch_size)%Z.

Lemma ceil_bounds :
  let q := (- ((- Z.of_nat N) / batch_size))%Z in
  ((q - 1) * batch_size < Z.of_nat N <= q * batch_size)%Z /\ (0 <= q)%Z.
Proof using Hbs.
  intros q.
  pose proof (Z.div_mod (- Z.of_nat N) batch_size ltac:(lia)) as Hdm.
  pose proof (Z.mod_pos_bound (- Z.of_nat N) batch_size ltac:(lia)) as Hm.
  subst q. nia.
Qed.

Lemma ceil_formula :
  (- ((- Z.of_nat N) / batch_size) = (Z.of_nat N + batch_size - 1) / batch_size)%Z.
Proof using Hbs.
  destruct ceil_bounds as [Hq Hq0].
  apply Z.div_unique with
    (r := (Z.of_nat N + batch_size - 1
           - batch_size * - ((- Z.of_nat N) / batch_size))%Z); lia.
Qed.

Lemma bound_0 : bound batch_size N 0 = 0%nat.
Proof using Type. clear Hbs. unfold bound. lia. Qed.

Lemma bound_le (k : nat) : (bound batch_size N k <= N)%nat.
Proof using Type. clear Hbs. unfold bound. lia. Qed.

Lemma bound_mono (k : nat) :
  (bound batch_size N k <= bound batch_size N (S k))%nat.
Proof using Hbs. unfold bound. nia. Qed.

Lemma bound_last : bound batch_size N (n_batches_of N batch_size) = N.
Proof using Hbs.
  destruct ceil_bounds as [Hq Hq0]. unfold bound, n_batches_of.
  rewrite Z2Nat.id by lia. lia.
Qed.

Lemma bound_inside (k : nat) :
  (k < n_batches_of N batch_size)%nat ->
  (Z.of_nat (bound batch_size N k) = Z.of_nat k * batch_size)%Z
  /\ (bound batch_size N k < bound batch_size N (S k))%nat.
Proof using Hbs.
  destruct ceil_bounds as [Hq Hq0]. unfold bound, n_batches_of. intros Hk.
  split; nia.
Qed.

Lemma clip_batch_start (k : nat) :
  clip_index N (batch_start batch_size k) = bound batch_size N k.
Proof using Hbs.
  unfold clip_index, batch_start, bound.
  destruct (Z.ltb_spec (Z.of_nat k * batch_size) 0); [nia|done].
Qed.

Lemma clip_batch_end (k : nat) :
  clip_index N (batch_end batch_size N k) = bound batch_size N (S k).
Proof using Hbs.
  unfold clip_index, batch_end, bound.
  destruct (Z.ltb_spec (Z.min ((Z.of_nat k + 1) * batch_size) (Z.of_nat N)) 0);
    [nia|].
  f_equal. lia.
Qed.

End Bounds.

(* ===================================================================== *)
(** ** The first loop with a classifier that always answers *)

Section TotalLoop.

Variable resample : nat * nat -> nat * nat -> image -> image.
Variable f : bool -> bool -> ndarray -> result matrix.
Variable a : ndarray.
Variable batch_size : Z.
Hypothesis Hbs : (1 <= batch_size)%Z.
Hypothesis Hf : answers f.

#[local] Abbreviation N := (length (images a)).
#[local] Abbreviation nb := (n_batches_of (length (images a)) batch_size).
#[local] Abbreviation bd := (bound batch_size (length (images a))).

Lemma classifier_input_length (i : nat) :
  length (images (classifier_input resample a batch_size i))
  = (bd (S i) - bd i)%nat.
Proof using Hbs.
  unfold classifier_input.
  rewrite clip_batch_start, clip_batch_end by done.
  destruct (decide _); simpl; rewrite ?length_map.
  all: apply rows_of_length; apply bound_le.
Qed.

Lemma the_output_spec (x : ndarray) :
  f false false x = Ok (the_output f x)
  /\ nrows (the_output f x) = length (images x)
  /\ broadcasts_to (ncols (the_output f x)) n_classes = true.
Proof using Hf.
  unfold the_output. destruct (Hf x) as (y & -> & Hr & Hc). done.
Qed.

Lemma assign_batch (P R : list (list float)) (k : nat) (y : matrix) :
  length P = bd k -> length (P ++ R) = N ->
  nrows y = (bd (S k) - bd k)%nat ->
  broadcasts_to (ncols y) n_classes = true ->
  assign (P ++ R) (batch_start batch_size k) (batch_end batch_size N k) y
  = Ok (P ++ broadcast_rows y (bd (S k) - bd k) n_classes
          ++ drop (bd (S k) - bd k) R)
  /\ written (length (P ++ R)) (batch_start batch_size k)
              (batch_end batch_size N k)
     = seq (bd k) (bd (S k) - bd k).
Proof using Hbs.
  intros HP HPR Hr Hc. unfold assign, written. rewrite HPR.
  rewrite clip_batch_start, clip_batch_end by done.
  split; [|done].
  rewrite Hc. unfold broadcasts_to. rewrite Hr, !Nat.eqb_refl. simpl.
  rewrite take_app_length' by done.
  rewrite <- HP at 2. by rewrite drop_app_add.
Qed.

(** After [k] batches the first [bd k] rows are those the classifier
    returned, the rest is as allocated; each batch was announced,
    recorded and written in turn. *)
Lemma loop_total (n_batches : Z) (k : nat) (ys0 : list (list float)) (t : trace) :
  length ys0 = N ->
  let P := concat (map (batch_rows resample f a batch_size) (seq 0 k)) in
  for_each (seq 0 k) (run_batch_pure resample f a batch_size n_batches) ys0 t
  = (Ok (P ++ drop (bd k) ys0),
     mk_trace
       (stdout t ++ map (fun i => PrintRunning (Z.of_nat i + 1) n_batches) (seq 0 k))
       (calls t ++ map (batch_entry resample a batch_size) (seq 0 k))
       (writes t ++ seq 0 (bd k)))
  /\ length P = bd k.
Proof using Hbs Hf.
  intros Hlen. induction k as [|k [IH IHlen]].
  - simpl. rewrite bound_0, !app_nil_r. simpl. by destruct t.
  - cbv zeta in *. rewrite seq_S, !map_app, concat_app. simpl.
    rewrite for_each_app. unfold bind at 1. rewrite IH. simpl.
    set (P := concat (map (batch_rows resample f a batch_size) (seq 0 k))) in *.
    destruct (the_output_spec (classifier_input resample a batch_size k))
      as (Hy & Hr & Hc).
    rewrite classifier_input_length in Hr.
    assert (HPR : length (P ++ drop (bd k) ys0) = N).
    { rewrite length_app, length_drop, IHlen, Hlen.
      pose proof (bound_le batch_size N k). lia. }
    destruct (assign_batch P (drop (bd k) ys0) k _ IHlen HPR Hr Hc)
      as [Has Hw].
    pose proof (bound_mono batch_size N Hbs k) as Hmono.
    split.
    + unfold bind, run_batch_pure, bind, emit, classify_pure, bind,
        record_call, store_rows. simpl. rewrite Hy, Has.
      unfold bind, record_writes, ret. simpl. rewrite Hw.
      rewrite drop_drop, app_nil_r, <- !app_assoc.
      replace (bd k + (bd (S k) - bd k))%nat with (bd (S k)) by lia.
      do 2 f_equal. f_equal.
      replace (bd (S k)) with (bd k + (bd (S k) - bd k))%nat at 2 by lia.
      by rewrite seq_app.
    + rewrite app_nil_r, length_app, IHlen. unfold batch_rows at 1.
      unfold broadcast_rows. rewrite length_map, length_seq. lia.
Qed.

Lemma length_empty2 (g : nat -> nat -> float) (n k : nat) :
  length (empty2 g n k) = n.
Proof using Type. unfold empty2. by rewrite length_map, length_seq. Qed.

Lemma range_n_batches :
  range (- ((- Z.of_nat N) / batch_size)) = seq 0 nb.
Proof using Type. done. Qed.

Lemma inference_pure_total (g : nat -> nat -> float) (t : trace) :
  let n_batches := (- ((- Z.of_nat N) / batch_size))%Z in
  inference_pure resample f a g batch_size t
  = (Ok (N, concat (map (batch_rows resample f a batch_size) (seq 0 nb))),
     mk_trace
       (stdout t ++ [PrintBatchSize batch_size; PrintTotalImages N;
                     PrintTotalBatches n_batches]
          ++ map (fun i => PrintRunning (Z.of_nat i + 1) n_batches) (seq 0 nb))
       (calls t ++ map (batch_entry resample a batch_size) (seq 0 nb))
       (writes t ++ seq 0 N)).
Proof using Hbs Hf.
  intros n_batches. subst n_batches. unfold inference_pure, ceil_div.
  destruct (Z.eqb_spec batch_size 0) as [?|_]; [lia|].
  unfold bind at 1, ret at 1. unfold bind at 1, emit at 1.
  unfold bind at 1, emit at 1. unfold bind at 1, emit at 1.
  unfold bind at 1, ret at 1. unfold bind at 1.
  rewrite range_n_batches.
  match goal with |- context [for_each _ (run_batch_pure _ _ _ _ ?q) ?ys0 ?t0] =>
    destruct (loop_total q nb ys0 t0) as [Hloop Hlen] end.
  { apply length_empty2. }
  rewrite Hloop. unfold ret. simpl.
  rewrite bound_last by done.
  rewrite drop_ge, app_nil_r by (by rewrite length_empty2).
  by rewrite <- !app_assoc.
Qed.

End TotalLoop.

(* ===================================================================== *)
(** ** C3: the batches tile the input *)

Lemma rows_of_seq (lo hi N : nat) :
  (hi <= N)%nat -> rows_of lo hi (seq 0 N) = seq lo (hi - lo).
Proof.
  intros Hhi. unfold rows_of. rewrite drop_seq, take_seq. simpl.
  f_equal. lia.
Qed.

Lemma rows_of_map {A B} (h : A -> B) (lo hi : nat) (l : list A) :
  rows_of lo hi (map h l) = map h (rows_of lo hi l).
Proof. unfold rows_of. by rewrite skipn_map, firstn_map. Qed.

Lemma const_stub_total (p : list float) :
  length p = n_classes -> total_classifier (const_stub p).
Proof. intros Hp x. eexists. split; [reflexivity|]. by split. Qed.

Lemma total_answers (f : bool -> bool -> ndarray -> result matrix) :
  total_classifier f -> answers f.
Proof.
  intros Hf x. destruct (Hf x) as (y & Hy & Hr & Hc). exists y.
  split; [done|]. split; [done|].
  unfold broadcasts_to. by rewrite Hc, Nat.eqb_refl.
Qed.

Section Tiling.

Variable resample : nat * nat -> nat * nat -> image -> image.
Variable a : ndarray.
Variable batch_size : Z.
Hypothesis Hbs : (1 <= batch_size)%Z.

#[local] Abbreviation N := (length (images a)).
#[local] Abbreviation nb := (n_batches_of (length (images a)) batch_size).
#[local] Abbreviation bd := (bound batch_size (length (images a))).

Lemma covered_batch_entry (i : nat) :
  (i < nb)%nat ->
  covered (batch_entry resample a batch_size i) = seq (bd i) (bd (S i) - bd i).
Proof using Hbs.
  intros Hi. unfold covered, batch_entry. simpl.
  destruct (bound_inside batch_size N Hbs i Hi) as [Hin _].
  unfold batch_start, batch_end, bound in *.
  f_equal; [lia|]. f_equal; [f_equal|]; lia.
Qed.

Lemma covered_tile :
  concat (map covered (map (batch_entry resample a batch_size) (seq 0 nb)))
  = seq 0 N.
Proof using Hbs.
  rewrite map_map.
  rewrite (map_ext_in _ (fun i => rows_of (bd i) (bd (S i)) (seq 0 N))).
  - rewrite (concat_rows_of bd).
    + rewrite bound_last by done. apply take_ge. by rewrite length_seq.
    + apply bound_0.
    + intros s _. by apply bound_mono.
  - intros i Hi. apply in_seq in Hi. rewrite covered_batch_entry by lia.
    symmetry. apply rows_of_seq, bound_le.
Qed.

Lemma handed_tile :
  concat (map handed (map (batch_entry resample a batch_size) (seq 0 nb)))
  = images (if decide ((dim_w a, dim_h a) ≠ (299, 299))%nat
            then resized resample a (299, 299)%nat else a).
Proof using Hbs.
  rewrite map_map.
  set (imgs := images (if decide ((dim_w a, dim_h a) ≠ (299, 299))%nat
                       then resized resample a (299, 299)%nat else a)).
  assert (Hlen : length imgs = N).
  { subst imgs. destruct (decide _); simpl; by rewrite ?length_map. }
  rewrite (map_ext _ (fun i => rows_of (bd i) (bd (S i)) imgs)).
  - rewrite (concat_rows_of bd).
    + rewrite bound_last by done. apply take_ge. by rewrite Hlen.
    + apply bound_0.
    + intros s _. by apply bound_mono.
  - intros i. unfold handed, batch_entry, classifier_input. simpl.
    rewrite clip_batch_start, clip_batch_end by done.
    subst imgs. destruct (decide _); simpl; [|done].
    by rewrite rows_of_map.
Qed.

End Tiling.

(** Row [j] of a list made of consecutive blocks, block [i] holding the
    rows [[bd i, bd (i+1))]. *)
Lemma concat_blocks_lookup {A} (B : nat -> list A) (bd : nat -> nat)
    (k i j : nat) :
  (forall m, (m <= k)%nat -> length (concat (map B (seq 0 m))) = bd m) ->
  (i < k)%nat -> (bd i <= j < bd (S i))%nat ->
  concat (map B (seq 0 k)) !! j = B i !! (j - bd i)%nat.
Proof.
  intros Hlen Hi Hj.
  assert (HBi : length (B i) = (bd (S i) - bd i)%nat).
  { pose proof (Hlen (S i) ltac:(lia)) as HS.
    rewrite seq_S, map_app, concat_app, length_app in HS.
    rewrite (Hlen i) in HS by lia.
    cbn [map concat Nat.add] in HS. rewrite app_nil_r in HS. lia. }
  replace k with (i + S (k - S i))%nat by lia.
  rewrite seq_app, map_app, concat_app.
  rewrite lookup_app_r by (rewrite (Hlen i) by lia; lia).
  rewrite (Hlen i) by lia. cbn [seq map concat Nat.add].
  apply lookup_app_l. lia.
Qed.

(** The row that the assignment of line 52 leaves at position [r] of the
    slice, for a value with one row of [n_classes] entries per row of the
    slice: row [r] of the value. *)
Lemma broadcast_rows_lookup (y : matrix) (len r : nat) :
  nrows y = len -> ncols y = n_classes -> (r < len)%nat ->
  broadcast_rows y len n_classes !! r
  = Some (map (cell y r) (seq 0 n_classes)).
Proof.
  intros Hr Hc Hlt. unfold broadcast_rows.
  rewrite list_lookup_fmap, lookup_seq_lt by done. cbn [fmap option_fmap option_map].
  f_equal. apply map_ext_in. intros c Hin. apply in_seq in Hin.
  rewrite Hc. unfold bidx at 2.
  replace (n_classes =? 1)%nat with false by reflexivity.
  f_equal. unfold bidx. destruct (Nat.eqb_spec (nrows y) 1); lia.
Qed.

(** C3.  With [batch_size >= 1] and a classifier that answers every batch
    with one 1008-entry row per image, the first loop makes exactly
    [ceil(N / batch_size)] classifier invocations; invocation [i] is for
    the row range [[i*batch_size, min((i+1)*batch_size, N))]; the ranges,
    in order, list every row index of [[0, N)] exactly once; the images
    handed over, in order, are the input images (resampled when they are
    not 299 by 299), each once; the rows of [ys] are assigned once each,
    in order; and the matrix returned holds, at every row [j] of the
    range of batch [i], row [j - i*batch_size] of the answer of the
    classifier for batch [i]: nothing of the uninitialised container is
    left, and no row holds the answer for another image. *)
Theorem batches_partition resample (m : array_module)
    (f : bool -> bool -> ndarray -> result matrix) (ims : loc) (a : ndarray)
    (batch_size : Z) (st : state) :
  heap (fst st) !! ims = Some a ->
  (1 <= batch_size)%Z ->
  total_classifier f ->
  let N := length (images a) in
  let nb := n_batches_of N batch_size in
  ((Z.of_nat nb - 1) * batch_size < Z.of_nat N <= Z.of_nat nb * batch_size)%Z
  /\ exists ys st' new,
       inference resample (pure_model m f) ims batch_size st = (Ok (N, ys), st')
       /\ length ys = N
       /\ calls (snd st') = calls (snd st) ++ new
       /\ length new = nb
       /\ (forall i, (i < nb)%nat ->
             exists c, new !! i = Some c
               /\ c_range c = (Z.of_nat i * batch_size,
                               Z.min ((Z.of_nat i + 1) * batch_size) (Z.of_nat N))%Z
               /\ c_input c = Some (classifier_input resample a batch_size i))
       /\ concat (map covered new) = seq 0 N
       /\ concat (map handed new)
          = images (if decide ((dim_w a, dim_h a) ≠ (299, 299))%nat
                    then resized resample a (299, 299)%nat else a)
       /\ writes (snd st') = writes (snd st) ++ seq 0 N
       /\ (forall i j, (i < nb)%nat ->
             (bound batch_size N i <= j < bound batch_size N (S i))%nat ->
             exists y,
               f false false (classifier_input resample a batch_size i) = Ok y
               /\ ys !! j
                  = Some (map (cell y (j - bound batch_size N i))
                              (seq 0 n_classes))).
Proof.
  intros Hh Hbs Hf N nb. split.
  { destruct (ceil_bounds batch_size N Hbs) as [Hq Hq0].
    subst nb. unfold n_batches_of. rewrite Z2Nat.id by lia. exact Hq. }
  destruct st as [w t].
  destruct (sim_inference resample m f ims a (garbage w) batch_size w t Hh eq_refl)
    as (w' & He & Heq).
  pose proof (total_answers f Hf) as Ha.
  rewrite (inference_pure_total resample f a batch_size Hbs Ha) in Heq.
  simpl in Heq.
  eexists _, _, (map (batch_entry resample a batch_size) (seq 0 nb)).
  split; [exact Heq|]. cbn [fst snd calls writes stdout].
  assert (Hys : length (concat (map (batch_rows resample f a batch_size)
                                    (seq 0 nb))) = N).
  { destruct (loop_total resample f a batch_size Hbs Ha 0 nb
                (empty2 (garbage w) N n_classes) t) as [_ Hl].
    { apply length_empty2. }
    rewrite Hl. by apply bound_last. }
  split; [exact Hys|]. split; [done|].
  split; [by rewrite length_map, length_seq|].
  split.
  { intros i Hi. eexists. split.
    - rewrite list_lookup_fmap, lookup_seq_lt by done. reflexivity.
    - done. }
  split; [by apply covered_tile|].
  split; [by apply handed_tile|]. split; [done|].
  intros i j Hi Hj.
  destruct (Hf (classifier_input resample a batch_size i)) as (y & Hy & Hr & Hc).
  exists y. split; [exact Hy|].
  etrans.
  { apply (concat_blocks_lookup (batch_rows resample f a batch_size)
             (bound batch_size N) nb i j); [|done|done].
    intros k _.
    by destruct (loop_total resample f a batch_size Hbs Ha 0 k
                   (empty2 (garbage w) N n_classes) t (length_empty2 _ _ _))
      as [_ Hl]. }
  unfold batch_rows, the_output. rewrite Hy.
  apply broadcast_rows_lookup; [|done|fold N; lia].
  rewrite Hr. by apply classifier_input_length.
Qed.

Lemma batches_partition_witness :
  exists ys st',
    inference keep_pixels (pure_model numpy (const_stub uniform_row)) 0 4
      (start_state (blank_images 10) (fun _ _ => NaN))
    = (Ok (10%nat, ys), st')
    /\ writes (snd st') = seq 0 10
    /\ ys !! 9%nat = Some (map (fun c => nth c uniform_row NaN) (seq 0 n_classes)).
Proof.
  destruct (batches_partition keep_pixels numpy (const_stub uniform_row) 0%nat
              (blank_images 10) 4 (start_state (blank_images 10) (fun _ _ => NaN)))
    as (_ & ys & st' & new & Hrun & _ & _ & _ & _ & _ & _ & Hw & Hrows).
  - reflexivity.
  - lia.
  - apply const_stub_total. apply length_replicate.
  - exists ys, st'. split; [exact Hrun|]. split; [exact Hw|].
    destruct (Hrows 2%nat 9%nat) as (y & Hy & Hrow).
    + cbn [blank_images images]. rewrite length_replicate. vm_compute. lia.
    + cbn [blank_images images]. rewrite length_replicate. vm_compute. lia.
    + unfold const_stub in Hy. injection Hy as <-. exact Hrow.
Defined.

(* ===================================================================== *)
(** ** C7: resizing *)

Lemma classify_records (model : Model) (rng : Z * Z) (v : view) (x : ndarray)
    (w : world) (t : trace) :
  read v w = (Ok x, w) ->
  calls (snd (snd (classify model rng (Var v) (w, t))))
  = calls t ++ [mk_call rng (Some x) false false].
Proof.
  intros Hr. destruct w as [h tr eb gb].
  unfold read, bind, load in Hr. simpl in Hr.
  destruct (h !! base v) as [a'|] eqn:Hl; [|done].
  injection Hr as <-.
  unfold classify, using_config, invoke, bind, on_trace, record_call, lift,
    entry_of. simpl.
  destruct (call model (Var v) _) as [r w']. simpl.
  unfold read, bind, load. simpl. rewrite Hl. done.
Qed.

(** C7.  In every turn of the first loop the classifier is handed the
    batch as it is when the images are 299 by 299, and otherwise the batch
    resized (by [F.resize_images], bilinear) to 299 by 299, with the same
    number of images and channels. *)
Theorem resize_iff_needed resample (model : Model) (ims : loc) (a : ndarray)
    (batch_size n_batches : Z) (i : nat) (ys : list (list float)) (st : state) :
  heap (fst st) !! ims = Some a ->
  let n := length (images a) in
  let batch := slice_array a (clip_index n (batch_start batch_size i))
                             (clip_index n (batch_end batch_size n i)) in
  let st' := snd (run_batch resample model ims n (dim_w a) (dim_h a)
                    batch_size n_batches i ys st) in
  exists c, calls (snd st') = calls (snd st) ++ [c]
    /\ ((dim_w a, dim_h a) = (299, 299)%nat -> c_input c = Some batch)
    /\ ((dim_w a, dim_h a) <> (299, 299)%nat ->
        exists x, c_input c = Some x
          /\ x = resized resample batch (299, 299)%nat
          /\ (dim_w x, dim_h x) = (299, 299)%nat
          /\ channels x = channels batch
          /\ length (images x) = length (images batch)).
Proof.
  intros Hh n batch st'. destruct st as [w t]. simpl in Hh.
  destruct (batch_input_reads resample model ims a
              (batch_start batch_size i) (batch_end batch_size n i) w Hh)
    as (v & w1 & Hbi & He & Hr).
  fold n in Hbi. fold batch in Hr.
  eexists. split.
  - subst st'. unfold run_batch, bind at 1, print, on_trace, emit. simpl.
    unfold bind at 1, lift at 1. simpl. rewrite Hbi.
    unfold bind. pose proof (classify_records model
      (batch_start batch_size i, batch_end batch_size n i) v _ w1
      (mk_trace (stdout t ++ [PrintRunning (Z.of_nat i + 1) n_batches])
                (calls t) (writes t)) Hr) as Hc.
    destruct (classify model _ (Var v) _) as [[y|e] [w2 t2]]; simpl in *.
    + unfold setitem, on_trace, store_rows. simpl.
      destruct (assign ys _ _ y); simpl; exact Hc.
    + exact Hc.
  - simpl. split.
    + intros Heq. by rewrite decide_False by (by intros ?).
    + intros Hne. rewrite decide_True by done. eexists. split; [done|].
      split; [done|]. split; [done|]. split; [done|].
      simpl. by rewrite length_map.
Qed.

Lemma resize_iff_needed_witness :
  let a := blank_images 10 in
  let st := start_state a (fun _ _ => NaN) in
  exists c,
    calls (snd (snd (run_batch keep_pixels
                       (pure_model numpy (const_stub uniform_row))
                       0 10 299 299 4 3 0 (empty2 (fun _ _ => NaN) 10 n_classes) st)))
    = [c]
    /\ c_input c = Some (slice_array a 0 4).
Proof.
  intros a st.
  destruct (resize_iff_needed keep_pixels
              (pure_model numpy (const_stub uniform_row)) 0%nat a 4 3 0
              (empty2 (fun _ _ => NaN) 10 n_classes) st)
    as (c & Hc & Hsame & _).
  - reflexivity.
  - exists c. split; [exact Hc|]. apply Hsame. reflexivity.
Defined.


(* ===================================================================== *)
(** ** C4: the array expressions against the entry-wise formula *)

Lemma map_seq_nth {A B} (h : A -> B) (l : list A) (d : A) :
  map (fun i => h (nth i l d)) (seq 0 (length l)) = map h l.
Proof.
  induction l as [|x l IH]; simpl; [done|].
  f_equal. rewrite <- seq_shift, map_map. exact IH.
Qed.

Lemma big_sum_nth (l : list float) : big_sum (length l) (fun i => nth i l NaN) = fsum l.
Proof. unfold big_sum. by rewrite (map_seq_nth (fun x => x)), map_id. Qed.

Lemma kl_row_as_map (row lm : list float) :
  length row = length lm ->
  zip_with fmul row (zip_with fsub (map flog row) lm)
  = map (fun c => fmul (nth c row NaN)
                       (fsub (flog (nth c row NaN)) (nth c lm NaN)))
        (seq 0 (length row)).
Proof.
  revert lm. induction row as [|x row IH]; intros [|y lm] Hlen; simpl in *;
    try done.
  f_equal. rewrite <- seq_shift, map_map. apply IH. lia.
Qed.

(** A column of the accumulated rows is the accumulated column. *)
Lemma nth_fold_zip_fadd (part : list (list float)) (acc : list float) (c : nat) :
  Forall (fun row => length row = length acc) part ->
  (c < length acc)%nat ->
  nth c (fold_left (zip_with fadd) part acc) NaN
  = fold_left fadd (map (fun row => nth c row NaN) part) (nth c acc NaN).
Proof.
  revert acc. induction part as [|row part IH]; intros acc Hrows Hc; simpl.
  - done.
  - inversion Hrows as [|? ? Hrow Hrest]; subst.
    rewrite IH.
    + f_equal. clear -Hrow Hc. revert row c Hrow Hc.
      induction acc as [|x acc IHa]; intros [|y row] c Hrow Hc; simpl in *;
        try lia.
      destruct c as [|c]; [done|]. apply IHa; lia.
    + rewrite length_zip_with_l_eq by lia. done.
    + rewrite length_zip_with_l_eq by lia. done.
Qed.

Lemma length_sum_axis0 (part : list (list float)) :
  rectangular part -> length (sum_axis0 part) = n_classes.
Proof.
  unfold sum_axis0. intros Hrect.
  assert (H : forall acc, length acc = n_classes ->
            length (fold_left (zip_with fadd) part acc) = n_classes).
  { induction Hrect as [|row part Hrow _ IH]; intros acc Hacc; simpl; [done|].
    apply IH. rewrite length_zip_with_l_eq by lia. done. }
  apply H, length_replicate.
Qed.

Lemma nth_mean_axis0 (part : list (list float)) (c : nat) :
  rectangular part -> (c < n_classes)%nat ->
  nth c (mean_axis0 part) NaN = spec_marginal part c.
Proof.
  intros Hrect Hc. unfold mean_axis0, spec_marginal, big_sum, entry.
  change NaN with ((fun s => fdiv s (of_nat (length part))) NaN) at 1.
  rewrite map_nth. f_equal.
  unfold sum_axis0. rewrite nth_fold_zip_fadd.
  - rewrite (map_seq_nth (fun row => nth c row NaN)).
    unfold fsum. f_equal.
    rewrite nth_lookup, lookup_replicate_2 by done. done.
  - by rewrite length_replicate.
  - by rewrite length_replicate.
Qed.

Lemma row_kl_spec (part : list (list float)) :
  rectangular part ->
  map fsum (kl_matrix part) = map (spec_row_kl part) (seq 0 (length part)).
Proof.
  intros Hrect. unfold kl_matrix. rewrite map_map.
  rewrite <- (map_seq_nth _ part []).
  apply map_ext_in. intros r Hr. apply in_seq in Hr.
  assert (Hrow : length (nth r part []) = n_classes).
  { unfold rectangular in Hrect. rewrite List.Forall_forall in Hrect.
    apply Hrect, nth_In. lia. }
  unfold spec_row_kl, big_sum, entry.
  rewrite kl_row_as_map.
  - rewrite Hrow. f_equal. apply map_ext_in. intros c Hc. apply in_seq in Hc.
    do 2 f_equal.
    change NaN with (flog NaN) at 1. rewrite map_nth.
    rewrite nth_mean_axis0 by (done || lia). done.
  - rewrite length_map. unfold mean_axis0. rewrite length_map.
    by rewrite length_sum_axis0.
Qed.

Lemma part_score_spec (part : list (list float)) :
  rectangular part -> part_score part = spec_split_score part.
Proof.
  intros Hrect. unfold part_score, spec_split_score, fmean, big_sum.
  rewrite row_kl_spec by done. by rewrite length_map, length_seq.
Qed.

(** The second loop overwrites every entry of the score vector. *)
Lemma fill_prefix (h : nat -> float) (k : nat) (scores : list float) :
  (k <= length scores)%nat ->
  fold_left (fun scores i => <[i := h i]> scores) (seq 0 k) scores
  = map h (seq 0 k) ++ drop k scores.
Proof.
  induction k as [|k IH]; intros Hk.
  - simpl. by rewrite drop_0.
  - rewrite seq_S, fold_left_app, map_app. simpl. rewrite IH by lia.
    destruct (drop k scores) as [|x rest] eqn:Hd.
    { apply (f_equal length) in Hd. rewrite length_drop in Hd. simpl in Hd. lia. }
    assert (Hlen : length (map h (seq 0 k)) = k)
      by (by rewrite length_map, length_seq).
    replace k with (length (map h (seq 0 k)) + 0)%nat at 1 by lia.
    rewrite insert_app_r. simpl. rewrite <- app_assoc. simpl.
    do 2 f_equal.
    replace (S k) with (k + 1)%nat by lia.
    rewrite <- drop_drop, Hd. done.
Qed.

Lemma fill_scores_map (ys : list (list float)) (n : nat) (splits : Z)
    (scores : list float) :
  length scores = Z.to_nat splits ->
  fill_scores ys n splits scores = map (split_score ys n splits) (range splits).
Proof.
  intros Hlen. unfold fill_scores, range.
  rewrite (fill_prefix (split_score ys n splits)) by lia.
  rewrite drop_ge by lia. by rewrite app_nil_r.
Qed.

Lemma length_empty1 (g : nat -> nat -> float) (k : nat) : length (empty1 g k) = k.
Proof. unfold empty1. by rewrite length_map, length_seq. Qed.

Lemma aggregate_scores (ys : list (list float)) (n : nat) (splits : Z) (st : state) :
  (0 <= splits)%Z ->
  let scores := map (split_score ys n splits) (range splits) in
  aggregate ys n splits st = (Ok (fmean scores, fstd scores), st).
Proof.
  intros HS scores. unfold aggregate, bind, empty_vector.
  destruct (Z.ltb_spec splits 0) as [?|_]; [lia|].
  by rewrite fill_scores_map by apply length_empty1.
Qed.

Lemma fmean_spec (xs : list float) : fmean xs = spec_mean xs.
Proof. unfold fmean, spec_mean. by rewrite big_sum_nth. Qed.

Lemma fstd_spec (xs : list float) : fstd xs = spec_pop_std xs.
Proof.
  unfold fstd, spec_pop_std, fmean at 1. rewrite length_map. do 2 f_equal.
  unfold big_sum. rewrite <- fmean_spec.
  by rewrite (map_seq_nth (fun x => let d := fsub x (fmean xs) in fmul d d)).
Qed.

Lemma rectangular_split_part (ys : list (list float)) (n : nat) (splits : Z)
    (i : nat) :
  rectangular ys -> rectangular (split_part ys n splits i).
Proof.
  intros Hrect. unfold split_part, getrows, rows_of.
  by apply Forall_take, Forall_drop.
Qed.

(** Rows that agree on a range give the same slice. *)
Lemma rows_of_agree {A} (lo hi : nat) (l l' : list A) :
  (forall j, (lo <= j < hi)%nat -> l' !! j = l !! j) ->
  rows_of lo hi l' = rows_of lo hi l.
Proof.
  intros Hagree. unfold rows_of. apply list_eq. intros r.
  destruct (decide (r < hi - lo)%nat) as [Hr|Hr].
  - rewrite !lookup_take_lt, !lookup_drop by done. apply Hagree. lia.
  - by rewrite !lookup_take_ge by lia.
Qed.

(** C4.  On a matrix [ys] of [N] rows of 1008 entries and for [K >= 1]
    splits, the value the second loop stores for split [s] is, with
    [part] the rows of [ys] with index in [[s*N/K, (s+1)*N/K)], the
    exponential of the mean over the rows of [part] of the sum over
    classes of [p * (log p - log marginal)], the marginal being the
    column-wise mean of the rows of [part]; the pair returned is the
    arithmetic mean and the population standard deviation of these [K]
    values; and the score of split [s] does not depend on the rows of
    [ys] outside that range: any matrix of [N] rows with the same rows in
    the range has the same score for split [s]. *)
Theorem split_scores_formula (ys : list (list float)) (K : nat) (st : state) :
  rectangular ys ->
  (1 <= K)%nat ->
  let N := length ys in
  let part := fun s => rows_of (s * N / K) ((s + 1) * N / K) ys in
  (forall s, (s < K)%nat ->
     split_score ys N (Z.of_nat K) s = spec_split_score (part s))
  /\ (let scores := map (fun s => spec_split_score (part s)) (seq 0 K) in
      aggregate ys N (Z.of_nat K) st
      = (Ok (spec_mean scores, spec_pop_std scores), st))
  /\ (forall ys' s, (s < K)%nat -> length ys' = N ->
        (forall j, (s * N / K <= j < (s + 1) * N / K)%nat -> ys' !! j = ys !! j) ->
        split_score ys' N (Z.of_nat K) s = split_score ys N (Z.of_nat K) s).
Proof.
  intros Hrect HK N part.
  assert (Hscore : forall s, (s < K)%nat ->
            split_score ys N (Z.of_nat K) s = spec_split_score (part s)).
  { intros s Hs. unfold split_score.
    rewrite (split_part_rows ys N K s HK Hs eq_refl).
    apply part_score_spec. unfold rows_of. by apply Forall_take, Forall_drop. }
  split; [exact Hscore|]. split.
  - intros scores. rewrite aggregate_scores by lia.
    rewrite fmean_spec, fstd_spec, range_of_nat.
    rewrite (map_ext_in _ (fun s => spec_split_score (part s))); [done|].
    intros s Hs. apply in_seq in Hs. apply Hscore. lia.
  - intros ys' s Hs Hlen Hagree. unfold split_score.
    rewrite (split_part_rows ys' N K s HK Hs Hlen).
    rewrite (split_part_rows ys N K s HK Hs eq_refl).
    by rewrite (rows_of_agree _ _ ys ys' Hagree).
Qed.

Lemma rectangular_replicate (k : nat) (p : list float) :
  length p = n_classes -> rectangular (replicate k p).
Proof. intros Hp. by apply Forall_replicate. Qed.

Lemma split_scores_formula_witness :
  let u := uniform_row in
  let v := replicate n_classes (Fin 1) in
  split_score [u; u; v; u] 4 2 1 = spec_split_score [v; u]
  /\ split_score [v; v; v; u] 4 2 1 = split_score [u; u; v; u] 4 2 1.
Proof.
  intros u v.
  destruct (split_scores_formula [u; u; v; u] 2
              (start_state (blank_images 2) (fun _ _ => NaN)))
    as (Hscore & _ & Hindep).
  - repeat (apply List.Forall_cons; [apply length_replicate|]).
    apply List.Forall_nil.
  - lia.
  - split.
    + apply (Hscore 1%nat). lia.
    + apply (Hindep [v; v; v; u] 1%nat); [lia|reflexivity|].
      cbn [length].
      change (1 * 4 / 2)%nat with 2%nat. change ((1 + 1) * 4 / 2)%nat with 4%nat.
      intros j Hj.
      destruct j as [|[|[|[|j]]]]; [lia|lia|reflexivity|reflexivity|lia].
Defined.


(* ===================================================================== *)
(** ** Arithmetic on the extended reals *)

Lemma map_replicate {A B} (h : A -> B) (k : nat) (x : A) :
  map h (replicate k x) = replicate k (h x).
Proof. induction k as [|k IH]; simpl; [done|by f_equal]. Qed.

Lemma Rsign_pos (r : R) : (0 < r)%R -> Rsign r = Gt.
Proof. intros Hr. unfold Rsign. by destruct (Rlt_dec 0 r). Qed.

Lemma Rsign_0 : Rsign 0 = Eq.
Proof.
  unfold Rsign. destruct (Rlt_dec 0 0) as [H|_]; [lra|].
  destruct (Rlt_dec 0 0) as [H|_]; [lra|done].
Qed.

Lemma fadd_NaN_r (x : float) : fadd x NaN = NaN.
Proof. by destruct x. Qed.

Lemma fold_fadd_NaN (l : list float) : fold_left fadd l NaN = NaN.
Proof. induction l as [|x l IH]; simpl; [done|exact IH]. Qed.

(** A sum with a NaN term is NaN. *)
Lemma fold_fadd_has_NaN (l : list float) (acc : float) :
  In NaN l -> fold_left fadd l acc = NaN.
Proof.
  revert acc. induction l as [|x l IH]; intros acc Hin; simpl; [done|].
  destruct Hin as [->|Hin].
  - rewrite fadd_NaN_r. apply fold_fadd_NaN.
  - by apply IH.
Qed.

Lemma fold_fadd_Fin (k : nat) (r acc : R) :
  fold_left fadd (replicate k (Fin r)) (Fin acc) = Fin (acc + INR k * r).
Proof.
  revert acc. induction k as [|k IH]; intros acc.
  - simpl. f_equal. lra.
  - change (replicate (S k) (Fin r)) with (Fin r :: replicate k (Fin r)).
    simpl fold_left. rewrite IH. f_equal. rewrite S_INR. lra.
Qed.

Lemma fsum_zeros (l : list float) :
  Forall (fun x => x = Fin 0) l -> fsum l = Fin 0.
Proof.
  unfold fsum. induction 1 as [|x l -> _ IH]; simpl; [done|].
  by rewrite Rplus_0_l.
Qed.

Lemma INR_pos (k : nat) : (1 <= k)%nat -> (0 < INR k)%R.
Proof. intros Hk. apply lt_0_INR. lia. Qed.

Lemma const_mean_Fin (k : nat) (r : R) :
  (1 <= k)%nat -> const_mean k (Fin r) = Fin r.
Proof.
  intros Hk. pose proof (INR_pos k Hk) as Hpos.
  unfold const_mean, fsum, of_nat. rewrite fold_fadd_Fin.
  unfold fdiv. rewrite Rsign_pos by done. f_equal. field. lra.
Qed.

Lemma const_mean_NaN (k : nat) : (1 <= k)%nat -> const_mean k NaN = NaN.
Proof.
  intros Hk. unfold const_mean, fsum.
  rewrite fold_fadd_has_NaN; [done|].
  destruct k; [lia|]. by left.
Qed.

(** An entry equal to the marginal contributes nothing when it is
    positive ... *)
Lemma kl_entry_positive (k : nat) (x : float) :
  (1 <= k)%nat -> positive x -> kl_entry k x = Fin 0.
Proof.
  intros Hk (r & -> & Hr). unfold kl_entry.
  rewrite const_mean_Fin by done.
  unfold flog. rewrite Rsign_pos by done. simpl. f_equal. ring.
Qed.

(** ... and NaN when it is zero: [0 * (-inf - -inf)]. *)
Lemma kl_entry_zero (k : nat) : (1 <= k)%nat -> kl_entry k (Fin 0) = NaN.
Proof.
  intros Hk. unfold kl_entry. rewrite const_mean_Fin by done.
  unfold flog. rewrite Rsign_0. done.
Qed.

Lemma kl_entry_NaN (k : nat) : kl_entry k NaN = NaN.
Proof. done. Qed.

Lemma fmean_ones (k : nat) : (1 <= k)%nat -> fmean (replicate k (Fin 1)) = Fin 1.
Proof.
  intros Hk. unfold fmean. rewrite length_replicate.
  by apply (const_mean_Fin k 1).
Qed.

Lemma fstd_ones (k : nat) : (1 <= k)%nat -> fstd (replicate k (Fin 1)) = Fin 0.
Proof.
  intros Hk. unfold fstd. rewrite fmean_ones by done.
  rewrite map_replicate.
  unfold fmean. rewrite length_replicate.
  replace (fmul (fsub (Fin 1) (Fin 1)) (fsub (Fin 1) (Fin 1))) with (Fin 0)
    by (simpl; f_equal; ring).
  fold (const_mean k (Fin 0)). rewrite const_mean_Fin by done.
  unfold fsqrt. rewrite Rsign_0. by rewrite sqrt_0.
Qed.

Lemma fmean_NaNs (k : nat) : (1 <= k)%nat -> fmean (replicate k NaN) = NaN.
Proof.
  intros Hk. unfold fmean. rewrite length_replicate.
  by apply const_mean_NaN.
Qed.

(* ===================================================================== *)
(** ** Splits made of one repeated row *)

Lemma nth_replicate {A} (k r : nat) (x d : A) :
  (r < k)%nat -> nth r (replicate k x) d = x.
Proof. intros Hr. by rewrite nth_lookup, lookup_replicate_2. Qed.

Lemma map_const_seq {A} (x : A) (j k : nat) :
  map (fun _ => x) (seq j k) = replicate k x.
Proof. revert j. induction k as [|k IH]; intros j; simpl; [done|by f_equal]. Qed.

Lemma spec_marginal_const (k : nat) (p : list float) (c : nat) :
  spec_marginal (replicate k p) c = const_mean k (nth c p NaN).
Proof.
  unfold spec_marginal, const_mean, big_sum. rewrite length_replicate.
  do 2 f_equal. rewrite <- (map_const_seq (nth c p NaN) 0 k).
  apply map_ext_in. intros r Hr. apply in_seq in Hr.
  unfold entry. by rewrite nth_replicate by lia.
Qed.

Lemma spec_row_kl_const (k r : nat) (p : list float) :
  (r < k)%nat -> length p = n_classes ->
  spec_row_kl (replicate k p) r = fsum (map (kl_entry k) p).
Proof.
  intros Hr Hp. unfold spec_row_kl, big_sum. rewrite <- Hp.
  rewrite <- (map_seq_nth (kl_entry k) p NaN). f_equal.
  apply map_ext. intros c. unfold kl_entry, entry.
  rewrite nth_replicate by lia. by rewrite spec_marginal_const.
Qed.

Lemma part_score_const (k : nat) (p : list float) :
  length p = n_classes ->
  part_score (replicate k p) = fexp (const_mean k (fsum (map (kl_entry k) p))).
Proof.
  intros Hp. rewrite part_score_spec by (by apply rectangular_replicate).
  unfold spec_split_score, const_mean. rewrite length_replicate.
  do 3 f_equal. unfold big_sum at 1.
  rewrite <- (map_const_seq (fsum (map (kl_entry k) p)) 0 k).
  f_equal. apply map_ext_in. intros r Hr. apply in_seq in Hr.
  apply spec_row_kl_const; [lia|done].
Qed.

Lemma kl_entries_zero (k : nat) (p : list float) :
  (1 <= k)%nat -> Forall positive p ->
  Forall (fun x => x = Fin 0) (map (kl_entry k) p).
Proof.
  intros Hk Hpos. induction Hpos as [|x p Hx _ IH]; simpl; constructor; [|done].
  by apply kl_entry_positive.
Qed.

(** Positive entries everywhere: the score is [exp 0 = 1]. *)
Lemma part_score_positive (k : nat) (p : list float) :
  (1 <= k)%nat -> length p = n_classes -> Forall positive p ->
  part_score (replicate k p) = Fin 1.
Proof.
  intros Hk Hp Hpos. rewrite part_score_const by done.
  rewrite fsum_zeros.
  - rewrite const_mean_Fin by done. simpl. by rewrite exp_0.
  - by apply kl_entries_zero.
Qed.

(** A zero or a NaN entry: the score is NaN. *)
Lemma part_score_degenerate (k : nat) (p : list float) :
  (1 <= k)%nat -> length p = n_classes -> (In (Fin 0) p \/ In NaN p) ->
  part_score (replicate k p) = NaN.
Proof.
  intros Hk Hp Hin. rewrite part_score_const by done.
  unfold fsum. rewrite fold_fadd_has_NaN.
  - by rewrite const_mean_NaN.
  - destruct Hin as [Hin|Hin].
    + rewrite <- (kl_entry_zero k Hk). by apply in_map.
    + rewrite <- (kl_entry_NaN k). by apply in_map.
Qed.

Lemma split_part_replicate (N K s : nat) (p : list float) :
  (1 <= K <= N)%nat -> (s < K)%nat ->
  exists k, (1 <= k)%nat
    /\ split_part (replicate N p) N (Z.of_nat K) s = replicate k p.
Proof.
  intros HK Hs.
  rewrite split_part_rows by (lia || apply length_replicate).
  destruct (div_step N K s ltac:(lia)) as [Hle Hsz].
  exists ((s + 1) * N / K - s * N / K)%nat. split.
  - assert (1 <= N / K)%nat by (apply Nat.div_le_lower_bound; lia). lia.
  - unfold rows_of. rewrite drop_replicate, take_replicate. f_equal.
    assert ((s + 1) * N / K <= N)%nat
      by (apply Nat.Div0.div_le_upper_bound; nia).
    lia.
Qed.

Lemma scores_const (N K : nat) (p : list float) (v : float) :
  (1 <= K <= N)%nat ->
  (forall k, (1 <= k)%nat -> part_score (replicate k p) = v) ->
  map (split_score (replicate N p) N (Z.of_nat K)) (range (Z.of_nat K))
  = replicate K v.
Proof.
  intros HK Hv. rewrite range_of_nat, <- (map_const_seq v 0 K).
  apply map_ext_in. intros s Hs. apply in_seq in Hs. unfold split_score.
  destruct (split_part_replicate N K s p HK ltac:(lia)) as (k & Hk & ->).
  by apply Hv.
Qed.

(* ===================================================================== *)
(** ** A whole run with a classifier that always answers *)

Section AnsweringRun.

Variable resample : nat * nat -> nat * nat -> image -> image.
Variable m : array_module.
Variable f : bool -> bool -> ndarray -> result matrix.
Variable ims : loc.
Variable a : ndarray.
Variable batch_size : Z.
Hypothesis Hbs : (1 <= batch_size)%Z.
Hypothesis Hf : answers f.

#[local] Abbreviation N := (length (images a)).
#[local] Abbreviation nb := (n_batches_of (length (images a)) batch_size).

(** All batches are classified and written; only then is [splits] looked
    at: a negative value makes the allocation of [scores] raise, any other
    value yields a pair. *)
Lemma inception_score_answers (splits : Z) (w : world) (t : trace) :
  heap w !! ims = Some a ->
  let ys := concat (map (batch_rows resample f a batch_size) (seq 0 nb)) in
  let scores := map (split_score ys N splits) (range splits) in
  let n_batches := (- ((- Z.of_nat N) / batch_size))%Z in
  exists w', extends w w'
    /\ inception_score resample (pure_model m f) ims batch_size splits (w, t)
       = (if (splits <? 0)%Z then Raise ValueError
          else Ok (fmean scores, fstd scores),
          (w', mk_trace
                 (stdout t ++ [PrintBatchSize batch_size; PrintTotalImages N;
                               PrintTotalBatches n_batches]
                    ++ map (fun i => PrintRunning (Z.of_nat i + 1) n_batches)
                           (seq 0 nb))
                 (calls t ++ map (batch_entry resample a batch_size) (seq 0 nb))
                 (writes t ++ seq 0 N))).
Proof using Hbs Hf.
  intros Hh ys scores n_batches.
  destruct (sim_inception_score resample m f ims a (garbage w) batch_size
              splits w t Hh eq_refl) as (w' & He & Heq).
  exists w'. split; [done|]. rewrite Heq. clear Heq.
  unfold inception_score_pure, bind.
  rewrite (inference_pure_total resample f a batch_size Hbs Hf).
  fold ys. unfold aggregate_pure, bind.
  destruct (Z.ltb_spec splits 0) as [Hneg|Hpos]; [done|].
  unfold ret. simpl.
  by rewrite fill_scores_map by apply length_empty1.
Qed.

End AnsweringRun.

(** With the constant stub every row of [ys] is the stub's row. *)
Lemma const_stub_rows resample (a : ndarray) (batch_size : Z) (p : list float) :
  (1 <= batch_size)%Z ->
  let N := length (images a) in
  concat (map (batch_rows resample (const_stub p) a batch_size)
              (seq 0 (n_batches_of N batch_size)))
  = replicate N (stub_row p).
Proof.
  intros Hbs N.
  rewrite (map_ext _ (fun i => rows_of (bound batch_size N i)
                                       (bound batch_size N (S i))
                                       (replicate N (stub_row p)))).
  - rewrite (concat_rows_of (bound batch_size N)).
    + rewrite bound_last by done. apply take_ge. by rewrite length_replicate.
    + apply bound_0.
    + intros s _. by apply bound_mono.
  - intros i. unfold batch_rows, broadcast_rows, the_output, const_stub. simpl.
    fold (stub_row p). rewrite map_const_seq.
    unfold rows_of. rewrite drop_replicate, take_replicate. f_equal.
    pose proof (bound_le batch_size N (S i)). fold N. lia.
Qed.

Lemma stub_row_full (p : list float) : length p = n_classes -> stub_row p = p.
Proof.
  intros Hp. unfold stub_row, bidx. rewrite Hp. simpl (n_classes =? 1)%nat.
  rewrite <- Hp. by rewrite (map_seq_nth (fun x => x)), map_id.
Qed.

Lemma stub_row_single (x : float) : stub_row [x] = replicate n_classes x.
Proof.
  unfold stub_row. rewrite <- (map_const_seq x 0 n_classes).
  apply map_ext. intros c. reflexivity.
Qed.

Lemma const_stub_answers (p : list float) :
  broadcasts_to (length p) n_classes = true -> answers (const_stub p).
Proof. intros Hp x. eexists. split; [reflexivity|]. by split. Qed.


(* ===================================================================== *)
(** ** C1: degenerate split counts *)

Lemma fmean_nil : fmean [] = NaN.
Proof. unfold fmean, fsum, of_nat. simpl. by rewrite Rsign_0. Qed.

Lemma fmean_has_NaN (l : list float) : In NaN l -> fmean l = NaN.
Proof. intros Hin. unfold fmean, fsum. by rewrite fold_fadd_has_NaN. Qed.

Lemma fstd_has_NaN (l : list float) : In NaN l -> fstd l = NaN.
Proof.
  intros Hin. unfold fstd. rewrite (fmean_has_NaN l Hin).
  rewrite fmean_has_NaN; [done|].
  apply in_map_iff. exists NaN. by split.
Qed.

Lemma fstd_nil : fstd [] = NaN.
Proof. unfold fstd. simpl. by rewrite fmean_nil. Qed.

Lemma part_score_nil : part_score [] = NaN.
Proof. unfold part_score. simpl. by rewrite fmean_nil. Qed.

(** With more splits than rows the first split is empty. *)
Lemma split_part_empty (ys : list (list float)) (N : nat) (splits : Z) :
  (Z.of_nat N < splits)%Z -> split_part ys N splits 0 = [].
Proof.
  intros HS. unfold split_part, getrows, rows_of.
  replace (Z.of_nat 0 * Z.of_nat N / splits)%Z with 0%Z
    by (by rewrite Z.mul_0_l, Z.div_0_l by lia).
  replace ((Z.of_nat 0 + 1) * Z.of_nat N / splits)%Z with 0%Z
    by (rewrite Z.mul_1_l, Z.div_small; lia).
  by rewrite Nat.sub_diag.
Qed.

Lemma degenerate_scores (ys : list (list float)) (N : nat) (splits : Z) :
  (splits = 0 \/ Z.of_nat N < splits)%Z ->
  let scores := map (split_score ys N splits) (range splits) in
  fmean scores = NaN /\ fstd scores = NaN.
Proof.
  intros [->|HS] scores.
  - subst scores. simpl. by rewrite fmean_nil, fstd_nil.
  - assert (Hin : In NaN scores).
    { subst scores. unfold range.
      destruct (Z.to_nat splits) as [|k] eqn:Hk; [lia|].
      simpl. left. unfold split_score.
      by rewrite split_part_empty, part_score_nil. }
    by rewrite fmean_has_NaN, fstd_has_NaN.
Qed.

(** C1, as the program has it.  [inception_score] does not look at
    [splits] before the second loop.  With [batch_size >= 1] and a
    classifier that answers every batch, whatever [splits] is, all
    [ceil(N / batch_size)] invocations are made and all rows are written
    first; then a negative [splits] raises [ValueError] from the
    allocation of the score vector, and any other value returns a pair,
    which is [(nan, nan)] when [splits] is 0 or exceeds [N]. *)
Theorem splits_not_validated resample (m : array_module)
    (f : bool -> bool -> ndarray -> result matrix) (ims : loc) (a : ndarray)
    (batch_size splits : Z) (st : state) :
  heap (fst st) !! ims = Some a ->
  (1 <= batch_size)%Z ->
  total_classifier f ->
  let N := length (images a) in
  let r := inception_score resample (pure_model m f) ims batch_size splits st in
  (exists new, calls (snd (snd r)) = calls (snd st) ++ new
               /\ length new = n_batches_of N batch_size)
  /\ writes (snd (snd r)) = writes (snd st) ++ seq 0 N
  /\ ((splits < 0)%Z -> fst r = Raise ValueError)
  /\ ((0 <= splits)%Z -> exists v, fst r = Ok v)
  /\ ((splits = 0 \/ Z.of_nat N < splits)%Z -> fst r = Ok (NaN, NaN)).
Proof.
  intros Hh Hbs Hf N r. subst N. destruct st as [w t]. simpl in Hh.
  destruct (inception_score_answers resample m f ims a batch_size Hbs
              (total_answers f Hf) splits w t Hh) as (w' & He & Heq).
  subst r. rewrite Heq. cbn [fst snd calls writes].
  split; [|split; [|split; [|split]]].
  - eexists. split; [done|]. by rewrite length_map, length_seq.
  - done.
  - intros HS. by destruct (Z.ltb_spec splits 0) as [_|?]; [|lia].
  - intros HS. destruct (Z.ltb_spec splits 0) as [?|_]; [lia|]. by eexists.
  - intros HS. destruct (Z.ltb_spec splits 0) as [?|_]; [lia|].
    destruct (degenerate_scores
                (concat (map (batch_rows resample f a batch_size)
                             (seq 0 (n_batches_of (length (images a)) batch_size))))
                (length (images a)) splits HS) as [-> ->].
    done.
Qed.

Lemma splits_not_validated_witness :
  let st := start_state (blank_images 10) (fun _ _ => NaN) in
  let r := inception_score keep_pixels
             (pure_model numpy (const_stub uniform_row)) 0 25 11 st in
  writes (snd (snd r)) = seq 0 10 /\ fst r = Ok (NaN, NaN).
Proof.
  intros st r.
  destruct (splits_not_validated keep_pixels numpy (const_stub uniform_row)
              0%nat (blank_images 10) 25 11 st)
    as (_ & Hw & _ & _ & Hnan).
  - reflexivity.
  - lia.
  - apply const_stub_total. apply length_replicate.
  - split; [exact Hw|]. apply Hnan. right. simpl. lia.
Defined.

(** C1, as the specification has it, fails: with 10 images and 11 splits
    the run is not turned down; the classifier is invoked and a pair is
    returned. *)
Lemma splits_above_N_not_rejected :
  let st := start_state (blank_images 10) (fun _ _ => NaN) in
  ~ rejected_before_inference
      (inception_score keep_pixels
         (pure_model numpy (const_stub uniform_row)) 0 25 11 st) st.
Proof.
  intros st [[e He] Hc].
  destruct (inception_score_answers keep_pixels numpy (const_stub uniform_row)
              0%nat (blank_images 10) 25 ltac:(lia)
              (const_stub_answers uniform_row eq_refl) 11
              (fst st) (snd st) eq_refl) as (w' & _ & Heq).
  change (fst st, snd st) with st in Heq.
  rewrite Heq in Hc. cbn [fst snd calls] in Hc.
  apply (f_equal length) in Hc. rewrite length_app, length_map, length_seq in Hc.
  unfold blank_images in Hc. cbn [images] in Hc.
  rewrite length_replicate in Hc.
  change (n_batches_of 10 25) with 1%nat in Hc. lia.
Qed.

(* ===================================================================== *)
(** ** C9: a classifier that answers every image alike *)

Lemma const_stub_result_gen resample (m : array_module) (ims : loc) (a : ndarray)
    (batch_size : Z) (K : nat) (p : list float) (v : float)
    (w : world) (t : trace) :
  heap w !! ims = Some a ->
  (1 <= batch_size)%Z ->
  (1 <= K <= length (images a))%nat ->
  broadcasts_to (length p) n_classes = true ->
  (forall k, (1 <= k)%nat -> part_score (replicate k (stub_row p)) = v) ->
  fst (inception_score resample (pure_model m (const_stub p)) ims batch_size
         (Z.of_nat K) (w, t))
  = Ok (fmean (replicate K v), fstd (replicate K v)).
Proof.
  intros Hh Hbs HK Hp Hv.
  destruct (inception_score_answers resample m (const_stub p) ims a batch_size
              Hbs (const_stub_answers p Hp) (Z.of_nat K) w t Hh)
    as (w' & _ & ->).
  cbn [fst]. destruct (Z.ltb_spec (Z.of_nat K) 0) as [?|_]; [lia|].
  rewrite const_stub_rows by done.
  by rewrite (scores_const _ _ (stub_row p) v).
Qed.

Lemma const_stub_result resample (m : array_module) (ims : loc) (a : ndarray)
    (batch_size : Z) (K : nat) (p : list float) (v : float)
    (w : world) (t : trace) :
  heap w !! ims = Some a ->
  (1 <= batch_size)%Z ->
  (1 <= K <= length (images a))%nat ->
  length p = n_classes ->
  (forall k, (1 <= k)%nat -> part_score (replicate k p) = v) ->
  fst (inception_score resample (pure_model m (const_stub p)) ims batch_size
         (Z.of_nat K) (w, t))
  = Ok (fmean (replicate K v), fstd (replicate K v)).
Proof.
  intros Hh Hbs HK Hp Hv.
  apply (const_stub_result_gen resample m ims a batch_size K p v w t); try done.
  - unfold broadcasts_to. by rewrite Hp, Nat.eqb_refl.
  - by rewrite stub_row_full.
Qed.

Lemma mean_axis0_const (k : nat) (p : list float) :
  (1 <= k)%nat -> length p = n_classes -> Forall positive p ->
  mean_axis0 (replicate k p) = p.
Proof.
  intros Hk Hp Hpos.
  pose proof (rectangular_replicate k p Hp) as Hrect.
  apply (nth_ext _ _ NaN NaN).
  - unfold mean_axis0. by rewrite length_map, length_sum_axis0.
  - unfold mean_axis0 at 1. rewrite length_map, length_sum_axis0 by done.
    intros c Hc. rewrite nth_mean_axis0, spec_marginal_const by done.
    rewrite List.Forall_forall in Hpos.
    destruct (Hpos (nth c p NaN)) as (r & -> & _).
    { apply nth_In. lia. }
    by apply const_mean_Fin.
Qed.

Lemma row_kl_const (k : nat) (p : list float) :
  (1 <= k)%nat -> length p = n_classes -> Forall positive p ->
  map fsum (kl_matrix (replicate k p)) = replicate k (Fin 0).
Proof.
  intros Hk Hp Hpos.
  rewrite row_kl_spec by (by apply rectangular_replicate).
  rewrite length_replicate, <- (map_const_seq (Fin 0) 0 k).
  apply map_ext_in. intros r Hr. apply in_seq in Hr.
  rewrite spec_row_kl_const by (lia || done).
  by apply fsum_zeros, kl_entries_zero.
Qed.

(** C9, as the program has it.  Let the classifier answer every image with
    the same row [p] of 1008 strictly positive entries, and let
    [batch_size >= 1] and [1 <= splits <= N].  Then the probability matrix
    is [N] copies of [p]; in every split the marginal is [p], the
    divergence of every row is 0 and the score is 1; and the run returns
    [(1, 0)].  (Arithmetic on finite values is exact here; float32
    rounding is not modelled.) *)
Theorem constant_classifier_score resample (m : array_module) (ims : loc)
    (a : ndarray) (batch_size : Z) (K : nat) (p : list float) (st : state) :
  heap (fst st) !! ims = Some a ->
  (1 <= batch_size)%Z ->
  (1 <= K <= length (images a))%nat ->
  length p = n_classes ->
  Forall positive p ->
  let N := length (images a) in
  let model := pure_model m (const_stub p) in
  fst (inference resample model ims batch_size st) = Ok (N, replicate N p)
  /\ (forall s, (s < K)%nat ->
        let part := split_part (replicate N p) N (Z.of_nat K) s in
        mean_axis0 part = p
        /\ Forall (fun kl => kl = Fin 0) (map fsum (kl_matrix part))
        /\ part_score part = Fin 1)
  /\ fst (inception_score resample model ims batch_size (Z.of_nat K) st)
     = Ok (Fin 1, Fin 0).
Proof.
  intros Hh Hbs HK Hp Hpos N model. subst N model.
  destruct st as [w t]. simpl in Hh.
  split; [|split].
  - assert (Ha : answers (const_stub p)).
    { apply const_stub_answers. unfold broadcasts_to. by rewrite Hp, Nat.eqb_refl. }
    destruct (sim_inference resample m (const_stub p) ims a (garbage w)
                batch_size w t Hh eq_refl) as (w' & _ & ->).
    rewrite (inference_pure_total resample (const_stub p) a batch_size Hbs Ha).
    cbn [fst]. by rewrite const_stub_rows, stub_row_full.
  - intros s Hs part.
    destruct (split_part_replicate (length (images a)) K s p HK Hs)
      as (k & Hk & Hpart).
    subst part. rewrite Hpart.
    split; [by apply mean_axis0_const|]. split.
    + rewrite row_kl_const by done. by apply Forall_replicate.
    + by apply part_score_positive.
  - rewrite (const_stub_result resample m ims a batch_size K p (Fin 1)) by
      (done || intros; by apply part_score_positive).
    by rewrite fmean_ones, fstd_ones by lia.
Qed.

Lemma uniform_row_positive : Forall positive uniform_row.
Proof.
  apply Forall_replicate. exists (/ 1008)%R. split; [done|]. lra.
Qed.

Lemma length_blank_images (n : nat) : length (images (blank_images n)) = n.
Proof. apply length_replicate. Qed.

Lemma constant_classifier_score_witness :
  fst (inception_score keep_pixels (pure_model numpy (const_stub uniform_row))
         0 25 10 (start_state (blank_images 100) (fun _ _ => NaN)))
  = Ok (Fin 1, Fin 0).
Proof.
  apply (constant_classifier_score keep_pixels numpy 0%nat (blank_images 100)
           25 10 uniform_row (start_state (blank_images 100) (fun _ _ => NaN))).
  - reflexivity.
  - lia.
  - rewrite length_blank_images. lia.
  - apply length_replicate.
  - apply uniform_row_positive.
Defined.

Lemma one_hot_has_zero : In (Fin 0) one_hot.
Proof.
  unfold one_hot. right. change (n_classes - 1)%nat with (S 1006). by left.
Qed.

Lemma length_one_hot : length one_hot = n_classes.
Proof. unfold one_hot. cbn [length]. by rewrite length_replicate. Qed.

(** C9, as the specification has it, fails for the one-hot stub of its
    scenario (100 images, batches of 25, 10 splits): the zero entries give
    [0 * (log 0 - log 0) = nan], and the run returns [(nan, nan)]. *)
Lemma one_hot_scores_nan :
  let r := fst (inception_score keep_pixels
                  (pure_model numpy (const_stub one_hot)) 0 25 10
                  (start_state (blank_images 100) (fun _ _ => NaN))) in
  r = Ok (NaN, NaN) /\ r <> Ok (Fin 1, Fin 0).
Proof.
  assert (H : fst (inception_score keep_pixels
                     (pure_model numpy (const_stub one_hot)) 0 25 (Z.of_nat 10)
                     (start_state (blank_images 100) (fun _ _ => NaN)))
              = Ok (NaN, NaN)).
  { unfold start_state.
    rewrite (const_stub_result keep_pixels numpy 0%nat (blank_images 100) 25 10
               one_hot NaN).
    - rewrite fmean_NaNs by lia. rewrite fstd_has_NaN; [done|]. by left.
    - reflexivity.
    - lia.
    - rewrite length_blank_images. lia.
    - apply length_one_hot.
    - intros k Hk. apply part_score_degenerate; [done|apply length_one_hot|].
      left. apply one_hot_has_zero. }
  change (Z.of_nat 10) with 10%Z in H. intros r. subst r. rewrite H.
  split; [done|]. intros [=].
Qed.


(* ===================================================================== *)
(** ** C10: the width of the probability matrix *)

Lemma for_each_post {S A X} (P : A -> Prop) (xs : list X)
    (body : X -> A -> SE S A) :
  (forall x acc s acc' s', P acc -> body x acc s = (Ok acc', s') -> P acc') ->
  forall acc s acc' s',
    P acc -> for_each xs body acc s = (Ok acc', s') -> P acc'.
Proof.
  intros Hbody. induction xs as [|x xs IH]; intros acc s acc' s' HP Hrun.
  - simpl in Hrun. injection Hrun as <- _. exact HP.
  - simpl in Hrun. unfold bind in Hrun.
    destruct (body x acc s) as [[acc1|e] s1] eqn:Hb; [|done].
    eapply IH; [|exact Hrun]. eapply Hbody; [exact HP|exact Hb].
Qed.

Lemma rectangular_broadcast_rows (y : matrix) (len : nat) :
  rectangular (broadcast_rows y len n_classes).
Proof.
  unfold rectangular, broadcast_rows. rewrite List.Forall_forall.
  intros row Hin. apply in_map_iff in Hin as (j & <- & _).
  by rewrite length_map, length_seq.
Qed.

Lemma clip_index_le (len : nat) (i : Z) : (clip_index len i <= len)%nat.
Proof. unfold clip_index. destruct (Z.ltb_spec i 0); lia. Qed.

(** An assignment to a slice keeps the shape of [ys]. *)
Lemma assign_shape (ys ys' : list (list float)) (a b : Z) (y : matrix) :
  assign ys a b y = Ok ys' ->
  length ys' = length ys /\ (rectangular ys -> rectangular ys').
Proof.
  unfold assign. destruct (_ && _); [|done]. intros [= <-].
  pose proof (clip_index_le (length ys) a).
  pose proof (clip_index_le (length ys) b).
  split.
  - rewrite !length_app, length_take, length_drop.
    unfold broadcast_rows. rewrite length_map, length_seq. lia.
  - intros Hrect. apply Forall_app. split; [by apply Forall_take|].
    apply Forall_app. split; [apply rectangular_broadcast_rows|].
    by apply Forall_drop.
Qed.

Lemma run_batch_shape resample (model : Model) (ims : loc) (n w h : nat)
    (batch_size n_batches : Z) (i : nat) (ys ys' : list (list float))
    (st st' : state) :
  run_batch resample model ims n w h batch_size n_batches i ys st = (Ok ys', st') ->
  length ys' = length ys /\ (rectangular ys -> rectangular ys').
Proof.
  unfold run_batch, bind.
  destruct (print _ st) as [[[]|e] s1]; [|done].
  destruct (lift _ s1) as [[x|e] s2]; [|done].
  destruct (classify _ _ x s2) as [[y|e] s3]; [|done].
  unfold setitem, on_trace, store_rows.
  destruct (assign ys _ _ y) as [ys1|e] eqn:Has; [|done].
  simpl. intros [= <- _]. by eapply assign_shape.
Qed.

Lemma rectangular_empty2 (g : nat -> nat -> float) (n : nat) :
  rectangular (empty2 g n n_classes).
Proof.
  unfold rectangular, empty2. rewrite List.Forall_forall.
  intros row Hin. apply in_map_iff in Hin as (j & <- & _).
  by rewrite length_map, length_seq.
Qed.

(** Whatever the classifier, the matrix the first loop hands on has one
    row of 1008 entries per image. *)
Lemma inference_shape resample (model : Model) (ims : loc) (a : ndarray)
    (batch_size : Z) (st st' : state) (n : nat) (ys : list (list float)) :
  heap (fst st) !! ims = Some a ->
  inference resample model ims batch_size st = (Ok (n, ys), st') ->
  n = length (images a) /\ length ys = n /\ rectangular ys.
Proof.
  intros Hh. unfold inference, bind at 1. unfold lift at 1, load at 1.
  rewrite Hh. cbv beta iota. unfold bind at 1.
  destruct (ceil_div _ _ _) as [[q|e] s1]; [|done].
  unfold bind.
  destruct (print _ s1) as [[[]|e] s2]; [|done].
  destruct (print _ s2) as [[[]|e] s3]; [|done].
  destruct (print _ s3) as [[[]|e] s4]; [|done].
  unfold empty_matrix at 1.
  destruct (for_each _ _ _ s4) as [[ys1|e] s5] eqn:Hloop; [|done].
  unfold ret. intros [= <- <- _]. split; [done|].
  apply (for_each_post
           (fun ys => length ys = length (images a) /\ rectangular ys))
    in Hloop.
  - done.
  - intros i acc s acc' s' [Hl Hr] Hb.
    apply run_batch_shape in Hb as [Hl' Hr']. split; [congruence|auto].
  - split; [apply length_empty2|apply rectangular_empty2].
Qed.

Lemma n_batches_positive (N : nat) (batch_size : Z) :
  (1 <= batch_size)%Z -> (1 <= N)%nat -> (1 <= n_batches_of N batch_size)%nat.
Proof.
  intros Hbs HN. destruct (ceil_bounds batch_size N Hbs) as [Hq Hq0].
  unfold n_batches_of. nia.
Qed.

(** Rows of a width that does not broadcast: the first assignment raises. *)
Lemma inference_pure_wrong_width resample
    (f : bool -> bool -> ndarray -> result matrix) (a : ndarray)
    (g : nat -> nat -> float) (batch_size : Z) (k : nat) (t : trace) :
  (1 <= batch_size)%Z -> (1 <= length (images a))%nat ->
  returns_width f k -> k <> n_classes -> k <> 1%nat ->
  let N := length (images a) in
  let n_batches := (- ((- Z.of_nat N) / batch_size))%Z in
  inference_pure resample f a g batch_size t
  = (Raise ValueError,
     mk_trace (stdout t ++ [PrintBatchSize batch_size; PrintTotalImages N;
                            PrintTotalBatches n_batches;
                            PrintRunning 1 n_batches])
              (calls t ++ [batch_entry resample a batch_size 0])
              (writes t)).
Proof.
  intros Hbs HN Hf Hk Hk1 N n_batches. subst N n_batches.
  unfold inference_pure, ceil_div.
  destruct (Z.eqb_spec batch_size 0) as [?|_]; [lia|].
  pose proof (n_batches_positive _ _ Hbs HN) as Hnb.
  assert (Hr : range (- ((- Z.of_nat (length (images a))) / batch_size))
               = 0%nat :: seq 1 (n_batches_of (length (images a)) batch_size - 1)).
  { unfold range. fold (n_batches_of (length (images a)) batch_size).
    destruct (n_batches_of _ _) as [|nb']; [lia|].
    simpl. by rewrite Nat.sub_0_r. }
  unfold bind at 1, ret at 1. rewrite Hr.
  destruct (Hf (classifier_input resample a batch_size 0)) as (y & Hy & _ & Hc).
  assert (Has : forall ys b e, assign ys b e y = Raise ValueError).
  { intros ys b e. unfold assign, broadcasts_to. rewrite Hc.
    destruct (Nat.eqb_spec k n_classes) as [?|_]; [done|].
    destruct (Nat.eqb_spec k 1) as [?|_]; [done|].
    by rewrite andb_false_r. }
  cbn [for_each].
  unfold run_batch_pure, classify_pure, bind, ret, emit, record_call, store_rows.
  cbv beta iota. rewrite Hy. cbv beta iota. rewrite Has. unfold raise.
  cbn [stdout calls writes]. by rewrite <- !app_assoc.
Qed.

(** C10, as the program has it.  The probability matrix is allocated with
    1008 columns whatever the classifier: every matrix the first loop hands
    on has [N] rows of 1008 entries.  A classifier returning rows of a
    width other than 1008 and other than 1 makes the assignment of the
    first batch raise [ValueError], after one invocation and before any
    row is written; rows of width 1 are broadcast over the 1008 columns
    and the run goes through. *)
Theorem output_width_hardcoded resample (model : Model) (m : array_module)
    (f : bool -> bool -> ndarray -> result matrix) (k : nat)
    (ims : loc) (a : ndarray) (batch_size splits : Z) (st : state) :
  heap (fst st) !! ims = Some a ->
  (1 <= length (images a))%nat ->
  (1 <= batch_size)%Z ->
  (0 <= splits)%Z ->
  returns_width f k ->
  let N := length (images a) in
  (forall n ys st',
      inference resample model ims batch_size st = (Ok (n, ys), st') ->
      n = N /\ length ys = N /\ rectangular ys)
  /\ let r := inception_score resample (pure_model m f) ims batch_size splits st in
     (k <> n_classes -> k <> 1%nat ->
        fst r = Raise ValueError
        /\ length (calls (snd (snd r))) = (length (calls (snd st)) + 1)%nat
        /\ writes (snd (snd r)) = writes (snd st))
     /\ (k = n_classes \/ k = 1%nat -> exists v, fst r = Ok v).
Proof.
  intros Hh HN Hbs HS Hf N. subst N. split.
  { intros n ys st' Hrun.
    destruct (inference_shape resample model ims a batch_size st st' n ys Hh Hrun)
      as (-> & Hl & Hr).
    done. }
  destruct st as [w t]. simpl in Hh. cbv zeta. split.
  - intros Hk Hk1.
    destruct (sim_inception_score resample m f ims a (garbage w) batch_size
                splits w t Hh eq_refl) as (w' & _ & ->).
    unfold inception_score_pure, bind.
    rewrite (inference_pure_wrong_width resample f a (garbage w) batch_size k t)
      by done.
    cbn [fst snd calls writes]. split; [done|]. split; [|done].
    rewrite length_app. simpl. lia.
  - intros Hk.
    assert (Ha : answers f).
    { intros x. destruct (Hf x) as (y & Hy & Hr & Hc). exists y.
      split; [done|]. split; [done|]. unfold broadcasts_to. rewrite Hc.
      destruct Hk as [->| ->]; [by rewrite Nat.eqb_refl|].
      by rewrite orb_true_r. }
    destruct (inception_score_answers resample m f ims a batch_size Hbs Ha
                splits w t Hh) as (w' & _ & ->).
    cbn [fst]. destruct (Z.ltb_spec splits 0) as [?|_]; [lia|]. by eexists.
Qed.

Lemma output_width_hardcoded_witness :
  fst (inception_score keep_pixels
         (pure_model numpy (const_stub [Fin 0.5; Fin 0.5])) 0 25 10
         (start_state (blank_images 100) (fun _ _ => NaN)))
  = Raise ValueError.
Proof.
  destruct (output_width_hardcoded keep_pixels
              (pure_model numpy (const_stub uniform_row)) numpy
              (const_stub [Fin 0.5; Fin 0.5]) 2 0%nat (blank_images 100) 25 10
              (start_state (blank_images 100) (fun _ _ => NaN)))
    as (_ & Hfail & _).
  - reflexivity.
  - rewrite length_blank_images. lia.
  - lia.
  - lia.
  - intros x. eexists. split; [reflexivity|]. by split.
  - apply Hfail; unfold n_classes; lia.
Defined.

(** C10, as the specification has it, fails for rows of width 1: the
    assignment broadcasts them and the run returns. *)
Lemma width_one_is_broadcast :
  let p := [Fin 1] in
  let r := fst (inception_score keep_pixels (pure_model numpy (const_stub p))
                  0 25 10 (start_state (blank_images 100) (fun _ _ => NaN))) in
  length p <> n_classes /\ r = Ok (Fin 1, Fin 0) /\ (forall e, r <> Raise e).
Proof.
  intros p r.
  assert (H : r = Ok (Fin 1, Fin 0)).
  { subst r p. unfold start_state. change 10%Z with (Z.of_nat 10).
    rewrite (const_stub_result_gen keep_pixels numpy 0%nat (blank_images 100)
               25 10 [Fin 1] (Fin 1)).
    - by rewrite fmean_ones, fstd_ones by lia.
    - reflexivity.
    - lia.
    - rewrite length_blank_images. lia.
    - reflexivity.
    - intros k Hk. rewrite stub_row_single.
      apply part_score_positive; [done|apply length_replicate|].
      apply Forall_replicate. exists 1%R. split; [done|lra]. }
  split; [|split].
  - subst p. unfold n_classes. simpl. lia.
  - exact H.
  - intros e. by rewrite H.
Qed.

(* ===================================================================== *)
(** ** C8: what the result depends on *)

Section Determinism.

Variable resample : nat * nat -> nat * nat -> image -> image.
Variable f : bool -> bool -> ndarray -> result matrix.
Variable a : ndarray.
Variable batch_size : Z.
Hypothesis Hbs : (1 <= batch_size)%Z.

#[local] Abbreviation N := (length (images a)).
#[local] Abbreviation nb := (n_batches_of (length (images a)) batch_size).
#[local] Abbreviation bd := (bound batch_size (length (images a))).

(** One batch: two matrices that agree on the rows written so far agree on
    the rows written after it, whatever was observed before. *)
Lemma run_batch_pure_agree (n_batches : Z) (i : nat)
    (ys1 ys2 : list (list float)) (t1 t2 : trace) :
  agree N (bd i) (Ok ys1) (Ok ys2) ->
  agree N (bd (S i))
    (fst (run_batch_pure resample f a batch_size n_batches i ys1 t1))
    (fst (run_batch_pure resample f a batch_size n_batches i ys2 t2)).
Proof using Hbs.
  intros (Hl1 & Hl2 & Htake).
  unfold run_batch_pure, classify_pure, bind, emit, record_call, store_rows.
  cbv beta iota.
  destruct (f false false _) as [y|e]; [|done].
  unfold assign. rewrite Hl1, Hl2.
  rewrite clip_batch_start, clip_batch_end by done.
  destruct (_ && _); [|done].
  unfold bind, record_writes, ret. cbn [fst].
  pose proof (bound_mono batch_size N Hbs i) as Hmono.
  pose proof (bound_le batch_size N (S i)) as Hle.
  set (B := broadcast_rows y (bd (S i) - bd i) n_classes).
  assert (HB : length B = (bd (S i) - bd i)%nat).
  { subst B. unfold broadcast_rows. by rewrite length_map, length_seq. }
  assert (Hlen : forall ys, length ys = N ->
            length (take (bd i) ys ++ B ++ drop (bd i + (bd (S i) - bd i)) ys) = N).
  { intros ys Hl. rewrite !length_app, length_take, length_drop, HB, Hl. lia. }
  assert (Htk : forall ys, length ys = N ->
            take (bd (S i)) (take (bd i) ys ++ B ++ drop (bd i + (bd (S i) - bd i)) ys)
            = take (bd i) ys ++ B).
  { intros ys Hl. rewrite app_assoc. apply take_app_length'.
    rewrite length_app, length_take, HB, Hl. lia. }
  split; [by apply Hlen|]. split; [by apply Hlen|].
  rewrite !Htk by done. by rewrite Htake.
Qed.

Lemma loop_agree (n_batches : Z) (m k : nat) (ys1 ys2 : list (list float))
    (t1 t2 : trace) :
  agree N (bd k) (Ok ys1) (Ok ys2) ->
  agree N (bd (k + m))
    (fst (for_each (seq k m) (run_batch_pure resample f a batch_size n_batches)
            ys1 t1))
    (fst (for_each (seq k m) (run_batch_pure resample f a batch_size n_batches)
            ys2 t2)).
Proof using Hbs.
  revert k ys1 ys2 t1 t2. induction m as [|m IH]; intros k ys1 ys2 t1 t2 Hag.
  - simpl. by rewrite Nat.add_0_r.
  - cbn [seq for_each]. unfold bind.
    pose proof (run_batch_pure_agree n_batches k ys1 ys2 t1 t2 Hag) as Hstep.
    destruct (run_batch_pure _ _ _ _ _ k ys1 t1) as [[y1|e1] s1];
      destruct (run_batch_pure _ _ _ _ _ k ys2 t2) as [[y2|e2] s2];
      cbn [fst] in Hstep; try done.
    replace (k + S m)%nat with (S k + m)%nat by lia. by apply IH.
Qed.

(** With [batch_size >= 1] every row is overwritten: the outcome of the
    first loop owes nothing to the uninitialised contents of [ys], nor to
    what was observed before. *)
Lemma inference_pure_deterministic (g1 g2 : nat -> nat -> float) (t1 t2 : trace) :
  fst (inference_pure resample f a g1 batch_size t1)
  = fst (inference_pure resample f a g2 batch_size t2).
Proof using Hbs.
  unfold inference_pure, ceil_div.
  destruct (Z.eqb_spec batch_size 0) as [?|_]; [lia|].
  unfold bind at 1, ret at 1. unfold bind at 1, emit at 1.
  unfold bind at 1, emit at 1. unfold bind at 1, emit at 1.
  unfold bind at 1, ret at 1. unfold bind at 1.
  symmetry.
  unfold bind at 1, ret at 1. unfold bind at 1, emit at 1.
  unfold bind at 1, emit at 1. unfold bind at 1, emit at 1.
  unfold bind at 1, ret at 1. unfold bind at 1.
  rewrite !range_n_batches.
  match goal with
  | |- fst (let (_, _) := for_each _ (run_batch_pure _ _ _ _ ?q) ?y2 ?s2 in _)
       = fst (let (_, _) := for_each _ _ ?y1 ?s1 in _) =>
      pose proof (loop_agree q nb 0 y1 y2 s1 s2) as Hag
  end.
  rewrite Nat.add_0_l, bound_0, bound_last in Hag by done.
  specialize (Hag ltac:(unfold agree; by rewrite !length_empty2)).
  destruct (for_each _ _ _ _) as [[y2|e2] s2];
    destruct (for_each _ _ _ _) as [[y1|e1] s1];
    cbn [fst] in Hag; try done.
  - destruct Hag as (Hl1 & Hl2 & Htake).
    rewrite !take_ge in Htake by lia. subst. reflexivity.
  - unfold agree in Hag. subst. reflexivity.
Qed.

Lemma aggregate_pure_deterministic (g1 g2 : nat -> nat -> float)
    (ys : list (list float)) (n : nat) (splits : Z) (t1 t2 : trace) :
  fst (aggregate_pure g1 ys n splits t1) = fst (aggregate_pure g2 ys n splits t2).
Proof using Type.
  unfold aggregate_pure, bind.
  destruct (Z.ltb_spec splits 0) as [?|?]; [done|].
  unfold ret. cbn [fst].
  by rewrite !fill_scores_map by apply length_empty1.
Qed.

Lemma inception_score_pure_deterministic (g1 g2 : nat -> nat -> float)
    (splits : Z) (t1 t2 : trace) :
  fst (inception_score_pure resample f a g1 batch_size splits t1)
  = fst (inception_score_pure resample f a g2 batch_size splits t2).
Proof using Hbs.
  unfold inception_score_pure, bind.
  pose proof (inference_pure_deterministic g1 g2 t1 t2) as Hinf.
  destruct (inference_pure resample f a g1 batch_size t1) as [[[n1 y1]|e1] s1];
    destruct (inference_pure resample f a g2 batch_size t2) as [[[n2 y2]|e2] s2];
    cbn [fst] in Hinf; try discriminate.
  - injection Hinf as -> ->. apply aggregate_pure_deterministic.
  - injection Hinf as ->. reflexivity.
Qed.

End Determinism.

(** C8, as the program has it.  For [batch_size >= 1] and a classifier
    that is a function of the batch and of the flags, the outcome of a
    run, value or exception, is a function of the contents of the image
    array, of the classifier, of [batch_size] and of [splits]: runs from
    two states whatever, with the images at whatever place in the store,
    on whatever array module, have the same outcome. *)
Theorem deterministic_for_positive_batch_size resample
    (m1 m2 : array_module) (f : bool -> bool -> ndarray -> result matrix)
    (ims1 ims2 : loc) (a : ndarray) (batch_size splits : Z) (st1 st2 : state) :
  heap (fst st1) !! ims1 = Some a ->
  heap (fst st2) !! ims2 = Some a ->
  (1 <= batch_size)%Z ->
  fst (inception_score resample (pure_model m1 f) ims1 batch_size splits st1)
  = fst (inception_score resample (pure_model m2 f) ims2 batch_size splits st2).
Proof.
  intros H1 H2 Hbs. destruct st1 as [w1 t1], st2 as [w2 t2]. simpl in H1, H2.
  destruct (sim_inception_score resample m1 f ims1 a (garbage w1) batch_size
              splits w1 t1 H1 eq_refl) as (w1' & _ & ->).
  destruct (sim_inception_score resample m2 f ims2 a (garbage w2) batch_size
              splits w2 t2 H2 eq_refl) as (w2' & _ & ->).
  cbn [fst]. by apply inception_score_pure_deterministic.
Qed.

Lemma deterministic_for_positive_batch_size_witness :
  fst (inception_score keep_pixels (pure_model numpy (const_stub uniform_row))
         0 25 10 (start_state (blank_images 100) (fun _ _ => NaN)))
  = fst (inception_score keep_pixels (pure_model cupy (const_stub uniform_row))
           0 25 10 (start_state (blank_images 100) (fun _ _ => Fin 0))).
Proof.
  apply (deterministic_for_positive_batch_size keep_pixels numpy cupy
           (const_stub uniform_row) 0%nat 0%nat (blank_images 100) 25 10).
  - reflexivity.
  - reflexivity.
  - lia.
Defined.

(** A negative [batch_size] gives a non-positive batch count: the first
    loop does not run and [ys] is handed on as allocated. *)
Lemma inference_pure_negative resample
    (f : bool -> bool -> ndarray -> result matrix) (a : ndarray)
    (g : nat -> nat -> float) (batch_size : Z) (t : trace) :
  (batch_size < 0)%Z ->
  let N := length (images a) in
  inference_pure resample f a g batch_size t
  = (Ok (N, empty2 g N n_classes),
     mk_trace (stdout t ++ [PrintBatchSize batch_size; PrintTotalImages N;
                            PrintTotalBatches (- ((- Z.of_nat N) / batch_size))])
              (calls t) (writes t)).
Proof.
  intros Hbs N. subst N. unfold inference_pure, ceil_div.
  destruct (Z.eqb_spec batch_size 0) as [?|_]; [lia|].
  unfold bind at 1, ret at 1.
  assert (Hr : range (- ((- Z.of_nat (length (images a))) / batch_size)) = []).
  { unfold range.
    replace batch_size with (- (- batch_size))%Z by lia.
    rewrite Z.div_opp_opp by lia.
    pose proof (Z.div_pos (Z.of_nat (length (images a))) (- batch_size)
                  ltac:(lia) ltac:(lia)).
    replace (Z.to_nat _) with 0%nat by lia. done. }
  rewrite Hr. unfold bind, emit, ret. cbn [for_each stdout calls writes].
  unfold ret. by rewrite <- !app_assoc.
Qed.

Lemma empty2_const (x : float) (n k : nat) :
  empty2 (fun _ _ => x) n k = replicate n (replicate k x).
Proof.
  unfold empty2. rewrite <- (map_const_seq (replicate k x) 0 n).
  apply map_ext. intros r. apply map_const_seq.
Qed.

Lemma negative_batch_result resample (m : array_module)
    (f : bool -> bool -> ndarray -> result matrix) (a : ndarray)
    (batch_size : Z) (K : nat) (x v : float) :
  (batch_size < 0)%Z ->
  (1 <= K <= length (images a))%nat ->
  (forall k, (1 <= k)%nat -> part_score (replicate k (replicate n_classes x)) = v) ->
  fst (inception_score resample (pure_model m f) 0%nat batch_size (Z.of_nat K)
         (start_state a (fun _ _ => x)))
  = Ok (fmean (replicate K v), fstd (replicate K v)).
Proof.
  intros Hbs HK Hv. unfold start_state.
  destruct (sim_inception_score resample m f 0%nat a (fun _ _ => x) batch_size
              (Z.of_nat K) (mk_world [a] true true (fun _ _ => x))
              (mk_trace [] [] []) eq_refl eq_refl) as (w' & _ & ->).
  cbn [fst]. unfold inception_score_pure, bind.
  rewrite inference_pure_negative by done.
  unfold aggregate_pure, bind.
  destruct (Z.ltb_spec (Z.of_nat K) 0) as [?|_]; [lia|].
  unfold ret. cbn [fst].
  rewrite fill_scores_map by apply length_empty1.
  rewrite empty2_const. by rewrite (scores_const _ _ _ v).
Qed.

(** C8, as the specification has it, fails for a negative [batch_size]:
    no row of [ys] is written, and the result is computed from whatever
    the allocation contained.  The same image, classifier, batch size and
    split count give [(1, 0)] over one memory and [(nan, nan)] over
    another. *)
Lemma negative_batch_size_reads_garbage :
  let run g :=
    fst (inception_score keep_pixels
           (pure_model numpy (const_stub uniform_row)) 0 (-1) 1
           (start_state (blank_images 1) g)) in
  run (fun _ _ => Fin (/ 1008)) = Ok (Fin 1, Fin 0)
  /\ run (fun _ _ => NaN) = Ok (NaN, NaN)
  /\ run (fun _ _ => Fin (/ 1008)) <> run (fun _ _ => NaN).
Proof.
  intros run.
  assert (H1 : run (fun _ _ => Fin (/ 1008)) = Ok (Fin 1, Fin 0)).
  { subst run. cbv beta. change 1%Z with (Z.of_nat 1).
    rewrite (negative_batch_result _ _ _ _ _ 1 (Fin (/ 1008)) (Fin 1)).
    - by rewrite fmean_ones, fstd_ones by lia.
    - lia.
    - rewrite length_blank_images. lia.
    - intros k Hk. apply part_score_positive; [done|apply length_replicate|].
      apply uniform_row_positive. }
  assert (H2 : run (fun _ _ => NaN) = Ok (NaN, NaN)).
  { subst run. cbv beta. change 1%Z with (Z.of_nat 1).
    rewrite (negative_batch_result _ _ _ _ _ 1 NaN NaN).
    - rewrite fmean_NaNs by lia. rewrite fstd_has_NaN; [done|]. by left.
    - lia.
    - rewrite length_blank_images. lia.
    - intros k Hk. apply part_score_degenerate; [done|apply length_replicate|].
      right. change n_classes with (S 1007). by left. }
  split; [exact H1|]. split; [exact H2|].
  rewrite H1, H2. intros [=].
Qed.

(* ===================================================================== *)
(** ** A bare array would be overwritten

    The frame property of C5 rests on the batch being wrapped in a
    Variable before the call.  Handed a bare array that covers a whole
    buffer, [Inception.__call__] rescales that buffer in place. *)

Lemma rows_of_all_updated {A} (h : A -> A) (l : list A) (n : nat) :
  n = length l ->
  take 0 l ++ map h (rows_of 0 n l) ++ drop (0 + (n - 0)) l = map h l.
Proof.
  intros ->. rewrite rows_of_full, Nat.sub_0_r, Nat.add_0_l, drop_ge by lia.
  simpl. by rewrite app_nil_r.
Qed.

Lemma Inception_call_bare_array trunk logit_softmax (l : loc) (a : ndarray)
    (get_feature : bool) (w : world) :
  heap w !! l = Some a ->
  let x := NdArray (mk_view l 0 (length (images a))) in
  heap (snd (Inception_call trunk logit_softmax x get_feature w)) !! l
  = Some (map_pixels (fun p => fmul (fsub p (Fin 128)) (Fin 0.0078125)) a).
Proof.
  intros Hl x. subst x.
  assert (Hlt : (l < length (heap w))%nat) by (by eapply lookup_lt_Some).
  unfold Inception_call, isub, imul, inplace.
  unfold bind at 1. unfold bind at 1. unfold update_rows at 1.
  cbn [base start stop]. rewrite Hl. cbn [images].
  rewrite rows_of_all_updated by done.
  unfold ret at 1. unfold bind at 1. unfold bind at 1. unfold update_rows at 1.
  cbn [base start stop heap set_heap].
  rewrite list_lookup_insert_eq by done. cbn [images channels dim_w dim_h].
  rewrite rows_of_all_updated by (by rewrite length_map).
  rewrite map_map.
  unfold ret at 1. unfold bind at 1. unfold read, bind, load.
  cbn [data base heap set_heap].
  rewrite list_insert_insert_eq, list_lookup_insert_eq by done.
  cbv beta iota. unfold ret at 1.
  set (w2 := set_heap _ _).
  assert (Hh : heap w2 !! l = Some (map_pixels
            (fun p => fmul (fsub p (Fin 128)) (Fin 0.0078125)) a)).
  { subst w2. cbn [heap set_heap]. rewrite list_lookup_insert_eq by done.
    unfold map_pixels. f_equal. f_equal. apply map_ext. intros img.
    by rewrite map_map. }
  destruct (trunk _ _ _) as [h|e]; [|exact Hh].
  destruct get_feature; exact Hh.
Qed.


(* ===================================================================== *)
(** * Further properties of [inception_score] *)

(* ===================================================================== *)
(** ** A zero batch size *)

(** X1.  With [batch_size = 0] the division on line 21 raises
    [ZeroDivisionError] before anything is printed, allocated or
    classified: the state after the call is the state before it. *)
Theorem zero_batch_size_raises resample (model : Model) (ims : loc)
    (a : ndarray) (splits : Z) (st : state) :
  heap (fst st) !! ims = Some a ->
  inception_score resample model ims 0 splits st = (Raise ZeroDivisionError, st).
Proof.
  intros Hh. destruct st as [w t]. simpl in Hh.
  unfold inception_score, inference, bind, lift, load. simpl. by rewrite Hh.
Qed.

Lemma zero_batch_size_raises_witness :
  fst (inception_score keep_pixels (pure_model numpy (const_stub uniform_row))
         0 0 10 (start_state (blank_images 100) (fun _ _ => NaN)))
  = Raise ZeroDivisionError.
Proof.
  rewrite (zero_batch_size_raises keep_pixels _ 0%nat (blank_images 100)).
  - reflexivity.
  - reflexivity.
Defined.

(* ===================================================================== *)
(** ** Splits that divide the rows evenly *)

(** X2.  When the number of rows is a multiple [K * q] of the number of
    splits [K], split [s] is the row range [[s*q, (s+1)*q)]: every split
    has exactly [q] rows. *)
Theorem even_splits (ys : list (list float)) (K q s : nat) :
  (1 <= K)%nat -> (s < K)%nat -> length ys = (K * q)%nat ->
  split_part ys (K * q) (Z.of_nat K) s = rows_of (s * q) ((s + 1) * q) ys
  /\ length (split_part ys (K * q) (Z.of_nat K) s) = q.
Proof.
  intros HK Hs Hlen.
  assert (Hdiv : forall j, (j * (K * q) / K = j * q)%nat).
  { intros j. replace (j * (K * q))%nat with (j * q * K)%nat by lia.
    apply Nat.div_mul. lia. }
  rewrite split_part_rows by done. rewrite !Hdiv. split; [done|].
  rewrite rows_of_length by nia. lia.
Qed.

Lemma even_splits_witness :
  let ys := replicate 100 uniform_row in
  length (split_part ys (10 * 10) 10 3) = 10%nat.
Proof.
  intros ys.
  apply (even_splits ys 10 10 3); [lia | lia | apply length_replicate].
Defined.

(* ===================================================================== *)
(** ** An empty batch of images *)

Lemma split_part_nil (n : nat) (splits : Z) (i : nat) : split_part [] n splits i = [].
Proof. unfold split_part, getrows, rows_of. by rewrite drop_nil, take_nil. Qed.

Lemma scores_of_nothing (n : nat) (splits : Z) :
  (0 <= splits)%Z ->
  let scores := map (split_score [] n splits) (range splits) in
  fmean scores = NaN /\ fstd scores = NaN.
Proof.
  intros HS scores. subst scores. unfold range.
  destruct (Z.to_nat splits) as [|k].
  - simpl. by rewrite fmean_nil, fstd_nil.
  - assert (Hin : In NaN (map (split_score [] n splits) (seq 0 (S k)))).
    { simpl. left. unfold split_score. by rewrite split_part_nil, part_score_nil. }
    by rewrite fmean_has_NaN, fstd_has_NaN.
Qed.

Lemma inference_empty resample (model : Model) (ims : loc) (a : ndarray)
    (batch_size : Z) (w : world) (t : trace) :
  heap w !! ims = Some a -> images a = [] -> batch_size <> 0%Z ->
  forall splits,
  inception_score resample model ims batch_size splits (w, t)
  = (if (splits <? 0)%Z then Raise ValueError
     else let scores := map (split_score [] 0 splits) (range splits) in
          Ok (fmean scores, fstd scores),
     (w, mk_trace (stdout t ++ [PrintBatchSize batch_size; PrintTotalImages 0;
                                PrintTotalBatches 0])
                  (calls t) (writes t))).
Proof.
  intros Hh Himgs Hbs splits.
  unfold inception_score, inference, bind, lift, load. cbn [fst snd].
  rewrite Hh, Himgs. cbn [length].
  unfold ceil_div. destruct (Z.eqb_spec batch_size 0) as [?|_]; [done|].
  change (- Z.of_nat 0)%Z with 0%Z. rewrite Z.div_0_l by done.
  change (- 0)%Z with 0%Z.
  unfold ret, print, on_trace, emit, empty_matrix, aggregate, bind,
    empty_vector. cbn [fst snd stdout calls writes].
  change (range 0) with (@nil nat). cbn [for_each]. unfold ret.
  change (empty2 (garbage w) 0 n_classes) with (@nil (list float)).
  cbn [fst snd].
  destruct (Z.ltb_spec splits 0) as [Hneg|Hpos].
  - by rewrite <- !app_assoc.
  - rewrite fill_scores_map by apply length_empty1.
    by rewrite <- !app_assoc.
Qed.

(** X3.  With no image at all ([N = 0]) and a non-zero batch size, the
    classifier is never invoked, nothing is allocated in the store or
    written, and the call does not fail for that: a non-negative [splits]
    returns [(nan, nan)] (means over nothing), a negative one raises
    [ValueError]. *)
Theorem empty_input resample (model : Model) (ims : loc) (a : ndarray)
    (batch_size splits : Z) (st : state) :
  heap (fst st) !! ims = Some a ->
  images a = [] ->
  batch_size <> 0%Z ->
  let r := inception_score resample model ims batch_size splits st in
  fst r = (if (splits <? 0)%Z then Raise ValueError else Ok (NaN, NaN))
  /\ fst (snd r) = fst st
  /\ calls (snd (snd r)) = calls (snd st)
  /\ writes (snd (snd r)) = writes (snd st).
Proof.
  intros Hh Himgs Hbs r. subst r. destruct st as [w t]. simpl in Hh.
  rewrite (inference_empty resample model ims a batch_size w t Hh Himgs Hbs
             splits).
  cbn [fst snd calls writes].
  destruct (Z.ltb_spec splits 0) as [Hneg|Hpos]; [done|].
  destruct (scores_of_nothing 0 splits Hpos) as [-> ->]. done.
Qed.

Lemma empty_input_witness :
  fst (inception_score keep_pixels (pure_model numpy (const_stub uniform_row))
         0 25 10 (start_state (blank_images 0) (fun _ _ => NaN)))
  = Ok (NaN, NaN).
Proof.
  destruct (empty_input keep_pixels (pure_model numpy (const_stub uniform_row))
              0%nat (blank_images 0) 25 10
              (start_state (blank_images 0) (fun _ _ => NaN))) as [Hr _].
  - reflexivity.
  - reflexivity.
  - lia.
  - exact Hr.
Defined.

(* ===================================================================== *)
(** ** Progress lines *)

(** X4.  With [batch_size >= 1] and a classifier that answers every
    batch, a run prints the batch size, the number of images and the
    number of batches, and then one line per batch, numbered from 1 to
    the number of batches, in order. *)
Theorem progress_lines resample (m : array_module)
    (f : bool -> bool -> ndarray -> result matrix) (ims : loc) (a : ndarray)
    (batch_size splits : Z) (st : state) :
  heap (fst st) !! ims = Some a ->
  (1 <= batch_size)%Z ->
  total_classifier f ->
  let N := length (images a) in
  let nb := n_batches_of N batch_size in
  stdout (snd (snd (inception_score resample (pure_model m f) ims batch_size
                      splits st)))
  = stdout (snd st)
      ++ [PrintBatchSize batch_size; PrintTotalImages N;
          PrintTotalBatches (Z.of_nat nb)]
      ++ map (fun i => PrintRunning (Z.of_nat i + 1) (Z.of_nat nb)) (seq 0 nb).
Proof.
  intros Hh Hbs Hf N nb. subst N nb. destruct st as [w t]. simpl in Hh.
  destruct (inception_score_answers resample m f ims a batch_size Hbs
              (total_answers f Hf) splits w t Hh) as (w' & _ & ->).
  cbn [fst snd stdout].
  destruct (ceil_bounds batch_size (length (images a)) Hbs) as [_ Hq0].
  unfold n_batches_of. by rewrite Z2Nat.id by lia.
Qed.

Lemma progress_lines_witness :
  stdout (snd (snd (inception_score keep_pixels
                      (pure_model numpy (const_stub uniform_row)) 0 4 2
                      (start_state (blank_images 10) (fun _ _ => NaN)))))
  = [PrintBatchSize 4; PrintTotalImages 10; PrintTotalBatches 3;
     PrintRunning 1 3; PrintRunning 2 3; PrintRunning 3 3].
Proof.
  rewrite (progress_lines keep_pixels numpy (const_stub uniform_row) 0%nat
             (blank_images 10)).
  - rewrite length_blank_images. reflexivity.
  - reflexivity.
  - lia.
  - apply const_stub_total. apply length_replicate.
Defined.

(* ===================================================================== *)
(** ** Views, not copies *)

Lemma unmoved_refl (ims : loc) (a : ndarray) (st : state) : unmoved ims a st st.
Proof. by intros _. Qed.

Lemma unmoved_trans (ims : loc) (a : ndarray) (s1 s2 s3 : state) :
  unmoved ims a s1 s2 -> unmoved ims a s2 s3 -> unmoved ims a s1 s3.
Proof. intros H12 H23 Hh. rewrite H23; rewrite H12; done. Qed.

Lemma keeps_quiet_unmoved {A} (ims : loc) (a : ndarray) (c : M A) :
  (forall st, fst (snd (c st)) = fst st) -> keeps (unmoved ims a) c.
Proof. intros Hc st _. apply Hc. Qed.

(** On NumPy, with images of 299 by 299, a batch is classified without
    any array being allocated: the classifier reads a view of [ims]. *)
Lemma keeps_run_batch_unmoved resample
    (f : bool -> bool -> ndarray -> result matrix) (ims : loc) (a : ndarray)
    (batch_size n_batches : Z) (i : nat) (ys : list (list float)) :
  keeps (unmoved ims a)
    (run_batch resample (pure_model numpy f) ims (length (images a)) 299 299
       batch_size n_batches i ys).
Proof.
  intros [w t] Hh. simpl in Hh.
  unfold run_batch, bind at 1, print, on_trace, emit. cbn [fst snd].
  unfold bind at 1, lift at 1, batch_input, asarray, bind at 1, ret.
  cbn [fst snd xp pure_model].
  rewrite decide_False by (by intros ?). unfold ret.
  unfold bind at 1.
  rewrite (classify_pure_model numpy f _ _
             (slice_array a
                (clip_index (length (images a)) (batch_start batch_size i))
                (clip_index (length (images a))
                   (batch_end batch_size (length (images a)) i)))).
  - destruct (f false false _) as [y|e]; [|done].
    unfold setitem, on_trace. by destruct (store_rows _ _ _ _ _).
  - by apply read_Ok.
Qed.

Lemma inference_loaded resample (model : Model) (ims : loc) (a : ndarray)
    (batch_size : Z) (w : world) (t : trace) :
  heap w !! ims = Some a ->
  inference resample model ims batch_size (w, t)
  = inference_from resample model ims a batch_size (w, t).
Proof.
  intros Hh. unfold inference, bind at 1, lift at 1, load at 1.
  cbn [fst snd]. by rewrite Hh.
Qed.

Lemma keeps_aggregate_unmoved (ims : loc) (a : ndarray)
    (ys : list (list float)) (n : nat) (splits : Z) :
  keeps (unmoved ims a) (aggregate ys n splits).
Proof.
  apply keeps_quiet_unmoved. intros st. unfold aggregate, bind, empty_vector.
  by destruct (_ <? _)%Z.
Qed.

(** X5.  On NumPy, with input images already 299 by 299 and a classifier
    that is a function of its batch, a run leaves the store exactly as it
    found it, whatever its outcome: no image array is copied or
    allocated, each batch is a view of the input. *)
Theorem views_not_copies resample
    (f : bool -> bool -> ndarray -> result matrix) (ims : loc) (a : ndarray)
    (batch_size splits : Z) (st : state) :
  heap (fst st) !! ims = Some a ->
  (dim_w a, dim_h a) = (299, 299)%nat ->
  fst (snd (inception_score resample (pure_model numpy f) ims batch_size
              splits st))
  = fst st.
Proof.
  intros Hh [= Hw Hd]. destruct st as [w t]. cbn [fst] in Hh.
  unfold inception_score. unfold bind at 1.
  rewrite (inference_loaded _ _ _ a) by done.
  assert (Hk : keeps (unmoved ims a)
                 (r <- inference_from resample (pure_model numpy f) ims a
                         batch_size ;;
                  let '(n, ys) := r in aggregate ys n splits)).
  { apply (keeps_bind _ (unmoved_trans ims a)).
    - unfold inference_from. rewrite Hw, Hd.
      apply (keeps_bind _ (unmoved_trans ims a)).
      { apply keeps_quiet_unmoved. intros s. unfold ceil_div.
        by destruct (_ =? _)%Z. }
      intros n_batches.
      do 3 (apply (keeps_bind _ (unmoved_trans ims a));
            [by apply keeps_quiet_unmoved|intros _]).
      apply (keeps_bind _ (unmoved_trans ims a));
        [by apply keeps_quiet_unmoved|intros ys].
      apply (keeps_bind _ (unmoved_trans ims a)).
      + apply (keeps_for_each _ (unmoved_refl ims a) (unmoved_trans ims a)).
        intros i acc. apply keeps_run_batch_unmoved.
      + intros ys'. by apply keeps_quiet_unmoved.
    - intros [n ys]. apply keeps_aggregate_unmoved. }
  specialize (Hk (w, t) Hh). unfold bind at 1 in Hk. exact Hk.
Qed.

Lemma views_not_copies_witness :
  let st := start_state (blank_images 10) (fun _ _ => NaN) in
  fst (snd (inception_score keep_pixels
              (pure_model numpy (const_stub uniform_row)) 0 4 2 st))
  = fst st.
Proof.
  intros st.
  apply (views_not_copies keep_pixels (const_stub uniform_row) 0%nat
           (blank_images 10)); reflexivity.
Defined.

(* ===================================================================== *)
(** ** A classifier that raises *)

Lemma for_each_ext {S A X} (xs : list X) (body body' : X -> A -> SE S A)
    (acc : A) (s : S) :
  (forall x, In x xs -> forall acc' s', body x acc' s' = body' x acc' s') ->
  for_each xs body acc s = for_each xs body' acc s.
Proof.
  revert acc s. induction xs as [|x xs IH]; intros acc s Hext; [done|].
  simpl. unfold bind. rewrite Hext by (by left).
  destruct (body' x acc s) as [[acc'|e] s']; [|done].
  apply IH. intros z Hz. apply Hext. by right.
Qed.

Lemma patched_answers (f : bool -> bool -> ndarray -> result matrix) :
  answers (patched f).
Proof.
  intros x. unfold patched.
  destruct (f false false x) as [y|e].
  - destruct (_ && _) eqn:Hc.
    + apply andb_prop in Hc as [Hr Hb]. apply Nat.eqb_eq in Hr. by exists y.
    + eexists. split; [done|]. split; [done|].
      unfold broadcasts_to. cbn [ncols]. by rewrite Nat.eqb_refl.
  - eexists. split; [done|]. split; [done|].
    unfold broadcasts_to. cbn [ncols]. by rewrite Nat.eqb_refl.
Qed.

Lemma patched_same (f : bool -> bool -> ndarray -> result matrix)
    (x : ndarray) (y : matrix) :
  f false false x = Ok y -> nrows y = length (images x) -> ncols y = n_classes ->
  patched f false false x = f false false x.
Proof.
  intros Hy Hr Hc. unfold patched. rewrite Hy.
  unfold broadcasts_to. by rewrite Hr, Hc, !Nat.eqb_refl.
Qed.

Lemma run_batch_pure_ext resample
    (f f' : bool -> bool -> ndarray -> result matrix) (a : ndarray)
    (batch_size n_batches : Z) (i : nat) (ys : list (list float)) (t : trace) :
  f' false false (classifier_input resample a batch_size i)
  = f false false (classifier_input resample a batch_size i) ->
  run_batch_pure resample f' a batch_size n_batches i ys t
  = run_batch_pure resample f a batch_size n_batches i ys t.
Proof.
  intros Heq. unfold run_batch_pure, classify_pure, bind. by rewrite Heq.
Qed.

Section FailingClassifier.

Variable resample : nat * nat -> nat * nat -> image -> image.
Variable f : bool -> bool -> ndarray -> result matrix.
Variable a : ndarray.
Variable batch_size : Z.
Variable k : nat.
Variable e : exn.
Hypothesis Hbs : (1 <= batch_size)%Z.
Hypothesis Hk : (k < n_batches_of (length (images a)) batch_size)%nat.
Hypothesis Hbefore : forall i, (i < k)%nat ->
  exists y, f false false (classifier_input resample a batch_size i) = Ok y
            /\ nrows y = length (images (classifier_input resample a batch_size i))
            /\ ncols y = n_classes.
Hypothesis Hfail : f false false (classifier_input resample a batch_size k) = Raise e.

#[local] Abbreviation N := (length (images a)).
#[local] Abbreviation nb := (n_batches_of (length (images a)) batch_size).
#[local] Abbreviation bd := (bound batch_size (length (images a))).

(** The batches before the failing one go through as usual; the failing
    one is announced and recorded, and ends the loop. *)
Lemma loop_fails (n_batches : Z) (ys0 : list (list float)) (t : trace) :
  length ys0 = N ->
  for_each (seq 0 nb) (run_batch_pure resample f a batch_size n_batches) ys0 t
  = (Raise e,
     mk_trace
       (stdout t ++ map (fun i => PrintRunning (Z.of_nat i + 1) n_batches)
                        (seq 0 (S k)))
       (calls t ++ map (batch_entry resample a batch_size) (seq 0 (S k)))
       (writes t ++ seq 0 (bd k))).
Proof using Hbs Hk Hbefore Hfail.
  intros Hlen. rewrite (seq_S k 0), !map_app, !app_assoc. cbn [map Nat.add].
  replace nb with (k + S (nb - S k))%nat by lia.
  rewrite seq_app, for_each_app. unfold bind at 1.
  rewrite (for_each_ext _ _
             (run_batch_pure resample (patched f) a batch_size n_batches)).
  2:{ intros i Hi acc' s'. apply in_seq in Hi. symmetry.
      apply run_batch_pure_ext.
      destruct (Hbefore i ltac:(lia)) as (y & Hy & Hr & Hc).
      by eapply patched_same. }
  destruct (loop_total resample (patched f) a batch_size Hbs (patched_answers f)
              n_batches k ys0 t Hlen) as [-> _].
  cbn [seq for_each Nat.add]. unfold bind at 1.
  unfold run_batch_pure at 1, classify_pure, bind, emit, record_call.
  cbv beta iota. by rewrite Hfail.
Qed.

Lemma inference_pure_fails (g : nat -> nat -> float) (t : trace) :
  let n_batches := (- ((- Z.of_nat N) / batch_size))%Z in
  inference_pure resample f a g batch_size t
  = (Raise e,
     mk_trace
       (stdout t ++ [PrintBatchSize batch_size; PrintTotalImages N;
                     PrintTotalBatches n_batches]
          ++ map (fun i => PrintRunning (Z.of_nat i + 1) n_batches) (seq 0 (S k)))
       (calls t ++ map (batch_entry resample a batch_size) (seq 0 (S k)))
       (writes t ++ seq 0 (bd k))).
Proof using Hbs Hk Hbefore Hfail.
  intros n_batches. subst n_batches. unfold inference_pure, ceil_div.
  destruct (Z.eqb_spec batch_size 0) as [?|_]; [lia|].
  unfold bind at 1, ret at 1. unfold bind at 1, emit at 1.
  unfold bind at 1, emit at 1. unfold bind at 1, emit at 1.
  unfold bind at 1, ret at 1. unfold bind at 1.
  rewrite range_n_batches.
  rewrite loop_fails by apply length_empty2.
  cbn [stdout calls writes]. by rewrite <- !app_assoc.
Qed.

End FailingClassifier.

(** X6.  If the classifier answers the first [k] batches and raises on
    batch [k], the run raises that same exception and returns nothing:
    batch [k] is the last one announced and the last invocation made, the
    rows of the batches before it are the only ones written, and no later
    batch is started. *)
Theorem classifier_failure_propagates resample (m : array_module)
    (f : bool -> bool -> ndarray -> result matrix) (ims : loc) (a : ndarray)
    (batch_size splits : Z) (k : nat) (e : exn) (st : state) :
  heap (fst st) !! ims = Some a ->
  (1 <= batch_size)%Z ->
  (k < n_batches_of (length (images a)) batch_size)%nat ->
  (forall i, (i < k)%nat ->
     exists y, f false false (classifier_input resample a batch_size i) = Ok y
       /\ nrows y = length (images (classifier_input resample a batch_size i))
       /\ ncols y = n_classes) ->
  f false false (classifier_input resample a batch_size k) = Raise e ->
  let r := inception_score resample (pure_model m f) ims batch_size splits st in
  fst r = Raise e
  /\ calls (snd (snd r))
     = calls (snd st) ++ map (batch_entry resample a batch_size) (seq 0 (S k))
  /\ writes (snd (snd r))
     = writes (snd st) ++ seq 0 (bound batch_size (length (images a)) k).
Proof.
  intros Hh Hbs Hk Hbefore Hfail r. subst r. destruct st as [w t]. simpl in Hh.
  destruct (sim_inception_score resample m f ims a (garbage w) batch_size
              splits w t Hh eq_refl) as (w' & _ & ->).
  unfold inception_score_pure, bind.
  rewrite (inference_pure_fails resample f a batch_size k e Hbs Hk Hbefore Hfail).
  done.
Qed.

Lemma classifier_failure_propagates_witness :
  let r := inception_score keep_pixels
             (pure_model numpy (full_batches_only 2 7)) 0 2 1
             (start_state (blank_images 3) (fun _ _ => NaN)) in
  fst r = Raise (ModelError 7)
  /\ length (calls (snd (snd r))) = 2%nat
  /\ writes (snd (snd r)) = [0; 1]%nat.
Proof.
  intros r.
  assert (Hin : forall i,
            length (images (classifier_input keep_pixels (blank_images 3) 2 i))
            = (bound 2 3 (S i) - bound 2 3 i)%nat).
  { intros i.
    rewrite (classifier_input_length keep_pixels (blank_images 3) 2) by lia.
    by rewrite length_blank_images. }
  destruct (classifier_failure_propagates keep_pixels numpy
              (full_batches_only 2 7) 0%nat (blank_images 3) 2 1 1
              (ModelError 7) (start_state (blank_images 3) (fun _ _ => NaN)))
    as (H1 & H2 & H3).
  - reflexivity.
  - lia.
  - rewrite length_blank_images. vm_compute. lia.
  - intros i Hi. assert (i = 0)%nat as -> by lia.
    unfold full_batches_only. rewrite Hin.
    change (bound 2 3 1 - bound 2 3 0)%nat with 2%nat. cbn [Nat.eqb].
    eexists. split; [reflexivity|]. split.
    + cbn [nrows]. rewrite Hin. reflexivity.
    + cbn [ncols]. apply length_replicate.
  - unfold full_batches_only. rewrite Hin. reflexivity.
  - subst r. split; [exact H1|]. split.
    + rewrite H2. reflexivity.
    + rewrite H3, length_blank_images. reflexivity.
Defined.

(* ===================================================================== *)
(** ** The batch size and the result *)

Lemma per_image_total (g : image -> list float) : total_classifier (per_image g).
Proof. intros x. eexists. split; [reflexivity|]. by split. Qed.

Lemma classifier_input_images resample (a : ndarray) (batch_size : Z) (i : nat) :
  (1 <= batch_size)%Z ->
  let N := length (images a) in
  images (classifier_input resample a batch_size i)
  = rows_of (bound batch_size N i) (bound batch_size N (S i))
      (images (if decide ((dim_w a, dim_h a) ≠ (299, 299))%nat
               then resized resample a (299, 299)%nat else a)).
Proof.
  intros Hbs N. unfold classifier_input.
  rewrite clip_batch_start, clip_batch_end by done.
  destruct (decide _); cbn [images resized slice_array]; [|done].
  by rewrite rows_of_map.
Qed.

(** With a classifier that works image by image, the rows of [ys] are the
    rows of the images, whatever the batches were. *)
Lemma per_image_rows resample (g : image -> list float) (a : ndarray)
    (batch_size : Z) :
  (1 <= batch_size)%Z ->
  let N := length (images a) in
  concat (map (batch_rows resample (per_image g) a batch_size)
              (seq 0 (n_batches_of N batch_size)))
  = map (image_row g)
        (images (if decide ((dim_w a, dim_h a) ≠ (299, 299))%nat
                 then resized resample a (299, 299)%nat else a)).
Proof.
  intros Hbs N.
  set (imgs := images (if decide ((dim_w a, dim_h a) ≠ (299, 299))%nat
                       then resized resample a (299, 299)%nat else a)).
  assert (Hlen : length imgs = N).
  { subst imgs. destruct (decide _); cbn [images resized]; by rewrite ?length_map. }
  rewrite (map_ext _ (fun i => rows_of (bound batch_size N i)
                                       (bound batch_size N (S i))
                                       (map (image_row g) imgs))).
  - rewrite (concat_rows_of (bound batch_size N)).
    + rewrite bound_last by done. apply take_ge. by rewrite length_map, Hlen.
    + apply bound_0.
    + intros s _. by apply bound_mono.
  - intros i. unfold batch_rows, broadcast_rows, the_output, per_image.
    cbn [nrows ncols cell].
    rewrite (classifier_input_length resample a batch_size Hbs i).
    rewrite (classifier_input_images resample a batch_size i Hbs).
    fold N. fold imgs. rewrite rows_of_map.
    set (part := rows_of (bound batch_size N i) (bound batch_size N (S i)) imgs).
    assert (Hpart : length part = (bound batch_size N (S i) - bound batch_size N i)%nat).
    { subst part. apply rows_of_length. rewrite Hlen. apply bound_le. }
    rewrite <- Hpart, <- (map_seq_nth (image_row g) part []).
    apply map_ext_in. intros j Hj. apply in_seq in Hj.
    unfold image_row. apply map_ext_in. intros c Hc. apply in_seq in Hc.
    unfold bidx.
    replace (n_classes =? 1)%nat with false by reflexivity.
    destruct (Nat.eqb_spec (length part) 1) as [H1|_]; [|done].
    by replace j with 0%nat by lia.
Qed.

(** The result of a run over a classifier that works image by image: the
    aggregation of the images' rows. *)
Lemma per_image_result resample (m : array_module) (g : image -> list float)
    (ims : loc) (a : ndarray) (batch_size splits : Z) (st : state) :
  heap (fst st) !! ims = Some a ->
  (1 <= batch_size)%Z ->
  let ys := map (image_row g)
              (images (if decide ((dim_w a, dim_h a) ≠ (299, 299))%nat
                       then resized resample a (299, 299)%nat else a)) in
  let scores := map (split_score ys (length (images a)) splits) (range splits) in
  fst (inception_score resample (pure_model m (per_image g)) ims batch_size
         splits st)
  = if (splits <? 0)%Z then Raise ValueError else Ok (fmean scores, fstd scores).
Proof.
  intros Hh Hbs ys scores. destruct st as [w t]. cbn [fst] in Hh.
  destruct (inception_score_answers resample m (per_image g) ims a batch_size
              Hbs (total_answers _ (per_image_total g)) splits w t Hh)
    as (w' & _ & ->).
  cbn [fst]. by rewrite per_image_rows.
Qed.

(** X7.  The batch size only cuts the work into pieces: with a classifier
    that treats every image on its own, two runs over the same images
    with any two batch sizes of at least 1 return the same result. *)
Theorem batch_size_irrelevant resample (m : array_module)
    (g : image -> list float) (ims : loc) (a : ndarray)
    (batch_size batch_size' splits : Z) (st st' : state) :
  heap (fst st) !! ims = Some a ->
  heap (fst st') !! ims = Some a ->
  (1 <= batch_size)%Z ->
  (1 <= batch_size')%Z ->
  fst (inception_score resample (pure_model m (per_image g)) ims batch_size
         splits st)
  = fst (inception_score resample (pure_model m (per_image g)) ims batch_size'
           splits st').
Proof.
  intros Hh Hh' Hbs Hbs'.
  rewrite (per_image_result resample m g ims a batch_size splits st Hh Hbs).
  by rewrite (per_image_result resample m g ims a batch_size' splits st' Hh' Hbs').
Qed.

Lemma batch_size_irrelevant_witness :
  fst (inception_score keep_pixels
         (pure_model numpy (per_image (fun _ => uniform_row))) 0 4 2
         (start_state (blank_images 10) (fun _ _ => NaN)))
  = fst (inception_score keep_pixels
           (pure_model numpy (per_image (fun _ => uniform_row))) 0 7 2
           (start_state (blank_images 10) (fun _ _ => Fin 0))).
Proof.
  apply (batch_size_irrelevant keep_pixels numpy (fun _ => uniform_row) 0%nat
           (blank_images 10)); [reflexivity | reflexivity | lia | lia].
Defined.

(* ===================================================================== *)
(** ** The score lies between 1 and the number of rows *)

Lemma big_sum_Fin (k : nat) (term : nat -> float) (u : nat -> R) :
  (forall i, (i < k)%nat -> term i = Fin (u i)) ->
  big_sum k term = Fin (rsum k u).
Proof.
  induction k as [|k IH]; intros Hterm; [done|].
  unfold big_sum, fsum in *. rewrite seq_S, map_app, fold_left_app.
  rewrite IH by (intros i Hi; apply Hterm; lia).
  cbn [map fold_left Nat.add rsum]. by rewrite Hterm by lia.
Qed.

Lemma rsum_le (k : nat) (u v : nat -> R) :
  (forall i, (i < k)%nat -> (u i <= v i)%R) -> (rsum k u <= rsum k v)%R.
Proof.
  induction k as [|k IH]; intros Huv; cbn [rsum]; [lra|].
  pose proof (IH (fun i Hi => Huv i (Nat.lt_lt_succ_r _ _ Hi))).
  pose proof (Huv k (Nat.lt_succ_diag_r k)). lra.
Qed.

Lemma rsum_pos (k : nat) (u : nat -> R) :
  (1 <= k)%nat -> (forall i, (i < k)%nat -> (0 < u i)%R) -> (0 < rsum k u)%R.
Proof.
  intros Hk Hu.
  assert (H0 : forall j, (j <= k)%nat -> (0 <= rsum j u)%R).
  { induction j as [|j IH]; intros Hj; cbn [rsum]; [lra|].
    pose proof (IH ltac:(lia)). pose proof (Hu j ltac:(lia)). lra. }
  destruct k as [|k]; [lia|]. cbn [rsum].
  pose proof (H0 k ltac:(lia)). pose proof (Hu k ltac:(lia)). lra.
Qed.

Lemma rsum_plus (k : nat) (u v : nat -> R) :
  rsum k (fun i => u i + v i)%R = (rsum k u + rsum k v)%R.
Proof. induction k as [|k IH]; cbn [rsum]; [lra|]. rewrite IH. lra. Qed.

Lemma rsum_const (k : nat) (x : R) : rsum k (fun _ => x) = (INR k * x)%R.
Proof.
  induction k as [|k IH]; [simpl; lra|].
  cbn [rsum]. rewrite IH, S_INR. lra.
Qed.

Lemma rsum_ext (k : nat) (u v : nat -> R) :
  (forall i, u i = v i) -> rsum k u = rsum k v.
Proof. intros Huv. induction k as [|k IH]; cbn [rsum]; [done|]. by rewrite IH, Huv. Qed.

(** The two orders of summation over a table agree. *)
Lemma rsum_exchange (n k : nat) (u : nat -> nat -> R) :
  rsum n (fun r => rsum k (fun c => u r c))
  = rsum k (fun c => rsum n (fun r => u r c)).
Proof.
  induction n as [|n IH]; cbn [rsum].
  - rewrite rsum_const. lra.
  - rewrite IH, <- rsum_plus. done.
Qed.

(** [ln t <= t - 1], read for [t = m / x]. *)
Lemma ln_gibbs (x m : R) :
  (0 < x)%R -> (0 < m)%R -> (x - m <= x * (ln x + - ln m))%R.
Proof.
  intros Hx Hm.
  assert (Ht : (0 < m * / x)%R).
  { apply Rmult_lt_0_compat; [done|]. by apply Rinv_0_lt_compat. }
  pose proof (exp_ineq1_le (ln (m * / x))) as Hexp.
  rewrite exp_ln in Hexp by done.
  rewrite ln_mult, ln_Rinv in Hexp by (done || by apply Rinv_0_lt_compat).
  assert (Hmul : (x * (1 + (ln m + - ln x)) <= x * (m * / x))%R).
  { apply Rmult_le_compat_l; lra. }
  replace (x * (m * / x))%R with m in Hmul by (field; lra).
  lra.
Qed.

Lemma rsum_scale (k : nat) (u : nat -> R) (x : R) :
  rsum k (fun i => u i * x)%R = (rsum k u * x)%R.
Proof. induction k as [|k IH]; cbn [rsum]; [lra|]. rewrite IH. lra. Qed.

Lemma rsum_ge_term (k i : nat) (u : nat -> R) :
  (forall j, (j < k)%nat -> (0 <= u j)%R) -> (i < k)%nat ->
  (u i <= rsum k u)%R.
Proof.
  induction k as [|k IH]; intros Hu Hi; [lia|]. cbn [rsum].
  assert (H0 : (0 <= rsum k u)%R).
  { rewrite <- (Rmult_0_r (INR k)), <- rsum_const.
    apply rsum_le. intros j Hj. apply Hu. lia. }
  pose proof (Hu k ltac:(lia)).
  destruct (decide (i = k)) as [->|Hne]; [lra|].
  pose proof (IH (fun j Hj => Hu j (Nat.lt_lt_succ_r _ _ Hj)) ltac:(lia)). lra.
Qed.

Lemma ln_le_mono (x y : R) : (0 < x)%R -> (x <= y)%R -> (ln x <= ln y)%R.
Proof.
  intros Hx [Hlt| ->]; [|lra]. left. by apply ln_increasing.
Qed.

Lemma exp_le_mono (x y : R) : (x <= y)%R -> (exp x <= exp y)%R.
Proof. intros [Hlt| ->]; [|lra]. left. by apply exp_increasing. Qed.

Section AtLeastOne.

Variable part : list (list float).
Hypothesis Hne : part <> [].
Hypothesis Hrect : rectangular part.
Hypothesis Hpos : Forall (Forall positive) part.

Lemma rows_nonempty : (1 <= length part)%nat.
Proof using Hne.
  pose proof (length_zero_iff_nil part) as [Hnil _].
  destruct (length part); [by specialize (Hnil eq_refl)|lia].
Qed.

Lemma rows_positive : (0 < INR (length part))%R.
Proof using Hne. apply lt_0_INR. pose proof rows_nonempty. lia. Qed.

Lemma entry_Fin (r c : nat) :
  (r < length part)%nat -> (c < n_classes)%nat ->
  entry part r c = Fin (entry_val part r c) /\ (0 < entry_val part r c)%R.
Proof using Hrect Hpos.
  intros Hr Hc. unfold entry_val, entry.
  assert (Hin : In (nth r part []) part) by (by apply nth_In).
  unfold rectangular in Hrect. rewrite List.Forall_forall in Hrect, Hpos.
  specialize (Hrect _ Hin). specialize (Hpos _ Hin).
  rewrite List.Forall_forall in Hpos.
  destruct (Hpos (nth c (nth r part []) NaN)) as (x & -> & Hx); [|done].
  apply nth_In. lia.
Qed.

Lemma marginal_Fin (c : nat) :
  (c < n_classes)%nat ->
  spec_marginal part c = Fin (marginal_val part c) /\ (0 < marginal_val part c)%R.
Proof using Hne Hrect Hpos.
  intros Hc. unfold spec_marginal, marginal_val, of_nat.
  rewrite (big_sum_Fin _ _ (fun r => entry_val part r c))
    by (intros r Hr; by apply entry_Fin).
  pose proof rows_positive as HR.
  cbn [fdiv]. rewrite (Rsign_pos _ HR). split; [done|].
  apply Rdiv_lt_0_compat; [|done].
  apply rsum_pos; [apply rows_nonempty|].
  intros r Hr. by apply entry_Fin.
Qed.

Lemma row_kl_Fin (r : nat) :
  (r < length part)%nat ->
  spec_row_kl part r = Fin (rsum n_classes (kl_term part r)).
Proof using Hne Hrect Hpos.
  intros Hr. unfold spec_row_kl. apply big_sum_Fin. intros c Hc.
  destruct (entry_Fin r c Hr Hc) as [-> Hx].
  destruct (marginal_Fin c Hc) as [-> Hm].
  unfold flog, kl_term. by rewrite !Rsign_pos by done.
Qed.

(** The exponent of the score: the mean over the rows of their
    divergence. *)
Lemma kl_mean_Fin :
  fmean (map fsum (kl_matrix part)) = Fin (kl_val part / INR (length part)).
Proof using Hne Hrect Hpos.
  rewrite row_kl_spec by done. unfold fmean.
  rewrite length_map, length_seq. fold (big_sum (length part) (spec_row_kl part)).
  rewrite (big_sum_Fin _ _ (fun r => rsum n_classes (kl_term part r)))
    by apply row_kl_Fin.
  unfold of_nat. cbn [fdiv]. by rewrite (Rsign_pos _ rows_positive).
Qed.

Lemma part_score_Fin : part_score part = Fin (exp (kl_val part / INR (length part))).
Proof using Hne Hrect Hpos. unfold part_score. by rewrite kl_mean_Fin. Qed.

(** The divergence of the rows from their mean is not negative. *)
Lemma kl_val_nonneg : (0 <= kl_val part)%R.
Proof using Hne Hrect Hpos.
  unfold kl_val.
  apply Rle_trans
    with (rsum (length part)
            (fun r => rsum n_classes
               (fun c => entry_val part r c + - marginal_val part c)%R)).
  - rewrite rsum_exchange.
    rewrite (rsum_ext _ _ (fun _ => 0%R)); [rewrite rsum_const; lra|].
    intros c. rewrite rsum_plus, rsum_const. unfold marginal_val.
    pose proof rows_positive. field. lra.
  - apply rsum_le. intros r Hr. apply rsum_le. intros c Hc.
    destruct (entry_Fin r c Hr Hc) as [_ Hx].
    destruct (marginal_Fin c Hc) as [_ Hm].
    pose proof (ln_gibbs _ _ Hx Hm). unfold kl_term. lra.
Qed.

Hypothesis Hsum : Forall (fun row => fsum row = Fin 1) part.

Lemma row_sum_one (r : nat) :
  (r < length part)%nat -> rsum n_classes (entry_val part r) = 1%R.
Proof using Hrect Hpos Hsum.
  intros Hr.
  assert (Hin : In (nth r part []) part) by (by apply nth_In).
  pose proof (proj1 (List.Forall_forall _ _) Hsum _ Hin) as Hone.
  pose proof (proj1 (List.Forall_forall _ _) Hrect _ Hin) as Hlen.
  cbv beta in Hone, Hlen.
  rewrite <- big_sum_nth, Hlen in Hone.
  rewrite (big_sum_Fin _ _ (entry_val part r)) in Hone.
  - by injection Hone.
  - intros c Hc. destruct (entry_Fin r c Hr Hc) as [He _]. exact He.
Qed.

(** No entry exceeds the sum of its column. *)
Lemma entry_le_column (r c : nat) :
  (r < length part)%nat -> (c < n_classes)%nat ->
  (entry_val part r c <= INR (length part) * marginal_val part c)%R.
Proof using Hne Hrect Hpos.
  intros Hr Hc. unfold marginal_val.
  replace (INR (length part)
           * (rsum (length part) (fun r0 => entry_val part r0 c)
              / INR (length part)))%R
    with (rsum (length part) (fun r0 => entry_val part r0 c))
    by (pose proof rows_positive; field; lra).
  apply (rsum_ge_term (length part) r (fun r0 => entry_val part r0 c)); [|done].
  intros j Hj. left. by apply entry_Fin.
Qed.

(** The divergence of distributions from their mean is at most the
    logarithm of their number, for each of them. *)
Lemma kl_val_le :
  (kl_val part <= INR (length part) * ln (INR (length part)))%R.
Proof using Hne Hrect Hpos Hsum.
  unfold kl_val. rewrite <- rsum_const. apply rsum_le. intros r Hr.
  rewrite <- (Rmult_1_l (ln (INR (length part)))), <- (row_sum_one r Hr).
  rewrite <- rsum_scale. apply rsum_le. intros c Hc.
  destruct (entry_Fin r c Hr Hc) as [_ Hx].
  destruct (marginal_Fin c Hc) as [_ Hm].
  pose proof (entry_le_column r c Hr Hc) as Hle.
  pose proof (ln_le_mono _ _ Hx Hle) as Hln.
  rewrite ln_mult in Hln by (done || apply rows_positive).
  unfold kl_term. apply Rmult_le_compat_l; lra.
Qed.

(** The exponent lies between 0 and the logarithm of the number of
    rows. *)
Lemma kl_mean_bounds :
  (0 <= kl_val part / INR (length part) <= ln (INR (length part)))%R.
Proof using Hne Hrect Hpos Hsum.
  pose proof kl_val_nonneg as H0. pose proof kl_val_le as H1.
  pose proof rows_positive as HR. split.
  - apply Rmult_le_pos; [done|]. left. by apply Rinv_0_lt_compat.
  - apply Rmult_le_reg_r with (INR (length part)); [done|].
    replace (kl_val part / INR (length part) * INR (length part))%R
      with (kl_val part) by (field; lra).
    lra.
Qed.

Lemma score_bounds :
  (1 <= exp (kl_val part / INR (length part)) <= INR (length part))%R.
Proof using Hne Hrect Hpos Hsum.
  destruct kl_mean_bounds as [H0 H1]. split.
  - pose proof (exp_ineq1_le (kl_val part / INR (length part))). lra.
  - rewrite <- (exp_ln (INR (length part))) at 2 by apply rows_positive.
    by apply exp_le_mono.
Qed.

End AtLeastOne.

Lemma distributions_split (part : list (list float)) :
  Forall distribution part ->
  Forall (Forall positive) part /\ Forall (fun row => fsum row = Fin 1) part.
Proof.
  intros H. split; (eapply Forall_impl; [exact H|]); by intros row [H1 H2].
Qed.

(** X8.  For a split that is not empty and whose rows are probability
    distributions over the 1008 classes (finite, strictly positive
    entries that sum to 1), the exponent computed on lines 59-61 is a
    finite number between 0 and the logarithm of the number of rows of
    the split, and the score stored on line 62 is its exponential, a
    number between 1 and the number of rows.  The arithmetic is that of
    the real numbers: rounding is not modelled. *)
Theorem split_score_at_least_one (part : list (list float)) :
  part <> [] ->
  rectangular part ->
  Forall distribution part ->
  exists k,
    fmean (map fsum (kl_matrix part)) = Fin k
    /\ part_score part = Fin (exp k)
    /\ (0 <= k <= ln (INR (length part)))%R
    /\ (1 <= exp k <= INR (length part))%R.
Proof.
  intros Hne Hrect Hdist.
  apply distributions_split in Hdist as [Hpos Hsum].
  exists (kl_val part / INR (length part))%R.
  split; [by apply kl_mean_Fin|]. split; [by apply part_score_Fin|].
  split; [by apply kl_mean_bounds|by apply score_bounds].
Qed.

Lemma INR_literal (k : nat) : INR k = IZR (Z.of_nat k).
Proof. apply INR_IZR_INZ. Qed.

Lemma uniform_row_distribution : distribution uniform_row.
Proof.
  split.
  - apply Forall_replicate. exists (/ 1008)%R. split; [done|lra].
  - unfold fsum, uniform_row. rewrite fold_fadd_Fin. f_equal.
    rewrite INR_literal. change (Z.of_nat n_classes) with 1008%Z. field.
Qed.

Lemma skewed_row_distribution : distribution skewed_row.
Proof.
  split.
  - apply List.Forall_cons; [exists (/ 2)%R; split; [done|lra]|].
    apply Forall_replicate. exists (/ 2014)%R. split; [done|lra].
  - unfold fsum, skewed_row. cbn [fold_left fadd]. rewrite fold_fadd_Fin.
    f_equal. rewrite INR_literal.
    change (Z.of_nat (n_classes - 1)) with 1007%Z. field.
Qed.

Lemma length_skewed_row : length skewed_row = n_classes.
Proof. unfold skewed_row. cbn [length]. by rewrite length_replicate. Qed.

Lemma split_score_at_least_one_witness :
  exists k,
    fmean (map fsum (kl_matrix [uniform_row; skewed_row])) = Fin k
    /\ part_score [uniform_row; skewed_row] = Fin (exp k)
    /\ (0 <= k <= ln (INR 2))%R
    /\ (1 <= exp k <= INR 2)%R.
Proof.
  apply (split_score_at_least_one [uniform_row; skewed_row]).
  - discriminate.
  - apply List.Forall_cons; [apply length_replicate|].
    apply List.Forall_cons; [apply length_skewed_row|apply List.Forall_nil].
  - apply List.Forall_cons; [apply uniform_row_distribution|].
    apply List.Forall_cons; [apply skewed_row_distribution|apply List.Forall_nil].
Defined.

(* ===================================================================== *)
(** ** The returned pair is bounded *)

Lemma nonempty_length {A} (l : list A) : l <> [] -> (1 <= length l)%nat.
Proof. destruct l; [done|simpl; lia]. Qed.

Lemma fsqrt_Fin (r : R) : (0 <= r)%R -> fsqrt (Fin r) = Fin (sqrt r).
Proof.
  intros Hr. unfold fsqrt, Rsign.
  destruct (Rlt_dec 0 r); [done|]. destruct (Rlt_dec r 0); [lra|done].
Qed.

(** Mean and standard deviation of finite numbers that all lie between
    [lo] and [hi]. *)
Lemma mean_std_Fin (xs : list float) (lo hi : R) :
  xs <> [] ->
  (forall x, In x xs -> exists r, x = Fin r /\ (lo <= r <= hi)%R) ->
  exists mu sigma, fmean xs = Fin mu /\ fstd xs = Fin sigma
                   /\ (lo <= mu <= hi)%R /\ (0 <= sigma <= hi - lo)%R.
Proof.
  intros Hne Hxs.
  pose proof (nonempty_length xs Hne) as Hk.
  assert (HK : (0 < INR (length xs))%R) by (apply lt_0_INR; lia).
  assert (Hnth : forall i, (i < length xs)%nat ->
            nth i xs NaN = Fin (val (nth i xs NaN))
            /\ (lo <= val (nth i xs NaN) <= hi)%R).
  { intros i Hi. destruct (Hxs (nth i xs NaN)) as (r & -> & Hr); [|done].
    by apply nth_In. }
  set (total := rsum (length xs) (fun i => val (nth i xs NaN))).
  assert (Htotal : (INR (length xs) * lo <= total <= INR (length xs) * hi)%R).
  { subst total. rewrite <- !rsum_const. split.
    - apply rsum_le. intros i Hi. by apply Hnth.
    - apply rsum_le. intros i Hi. by apply Hnth. }
  set (mu := (total / INR (length xs))%R).
  assert (Hmu : (lo <= mu <= hi)%R).
  { subst mu. revert Htotal. generalize total. intros z Hz. split.
    - apply Rmult_le_reg_r with (INR (length xs)); [done|].
      replace (z / INR (length xs) * INR (length xs))%R with z by (field; lra).
      lra.
    - apply Rmult_le_reg_r with (INR (length xs)); [done|].
      replace (z / INR (length xs) * INR (length xs))%R with z by (field; lra).
      lra. }
  assert (Hmean : fmean xs = Fin mu).
  { rewrite fmean_spec. unfold spec_mean, of_nat.
    rewrite (big_sum_Fin _ _ (fun i => val (nth i xs NaN)))
      by (intros i Hi; by apply Hnth).
    cbn [fdiv]. by rewrite (Rsign_pos _ HK). }
  set (dev := fun i => ((val (nth i xs NaN) + - mu) * (val (nth i xs NaN) + - mu))%R).
  assert (Hdev : forall i, (i < length xs)%nat ->
            (0 <= dev i <= (hi - lo) * (hi - lo))%R).
  { intros i Hi. subst dev. cbv beta.
    destruct (Hnth i Hi) as [_ Hv]. revert Hv Hmu.
    generalize (val (nth i xs NaN)) mu. intros v m Hv Hm.
    assert (0 <= (hi - lo - (v - m)) * (hi - lo + (v - m)))%R
      by (apply Rmult_le_pos; lra).
    split; [apply Rle_0_sqr|].
    replace ((hi - lo) * (hi - lo))%R
      with ((hi - lo - (v - m)) * (hi - lo + (v - m))
            + (v + - m) * (v + - m))%R by ring.
    lra. }
  set (var := (rsum (length xs) dev / INR (length xs))%R).
  assert (Hvar : (0 <= var <= (hi - lo) * (hi - lo))%R).
  { assert (Hs : (INR (length xs) * 0 <= rsum (length xs) dev
                  <= INR (length xs) * ((hi - lo) * (hi - lo)))%R).
    { rewrite <- !rsum_const. split.
      - apply rsum_le. intros i Hi. by apply Hdev.
      - apply rsum_le. intros i Hi. by apply Hdev. }
    subst var. revert Hs. generalize (rsum (length xs) dev). intros z Hz. split.
    - apply Rmult_le_pos; [lra|]. left. by apply Rinv_0_lt_compat.
    - apply Rmult_le_reg_r with (INR (length xs)); [done|].
      replace (z / INR (length xs) * INR (length xs))%R with z by (field; lra).
      lra. }
  exists mu, (sqrt var).
  split; [exact Hmean|]. split; [|split; [exact Hmu|]].
  - rewrite fstd_spec. unfold spec_pop_std, of_nat.
    rewrite (big_sum_Fin _ _ dev).
    + cbn [fdiv]. rewrite (Rsign_pos _ HK). apply fsqrt_Fin. apply Hvar.
    + intros i Hi. cbv zeta. rewrite <- fmean_spec, Hmean.
      destruct (Hnth i Hi) as [-> _]. done.
  - split; [apply sqrt_pos|].
    assert (0 <= hi - lo)%R by lra.
    rewrite <- (sqrt_square (hi - lo)) by done.
    apply sqrt_le_1_alt. apply Hvar.
Qed.

(** Every split of distributions scores between 1 and the number of its
    rows when no split is empty, that is when there are at most as many
    splits as rows. *)
Lemma split_scores_bounded (ys : list (list float)) (N K s : nat) :
  length ys = N -> rectangular ys -> Forall distribution ys ->
  (1 <= K <= N)%nat -> (s < K)%nat ->
  exists r, split_score ys N (Z.of_nat K) s = Fin r /\ (1 <= r <= INR N)%R.
Proof.
  intros Hlen Hrect Hdist HK Hs. unfold split_score.
  set (part := split_part ys N (Z.of_nat K) s).
  assert (Hpart : part = rows_of (s * N / K) ((s + 1) * N / K) ys).
  { subst part. apply split_part_rows; [lia|done|done]. }
  assert (Hhi : ((s + 1) * N / K <= N)%nat).
  { apply Nat.Div0.div_le_upper_bound. nia. }
  assert (Hrows : length part = ((s + 1) * N / K - s * N / K)%nat).
  { rewrite Hpart. apply rows_of_length. by rewrite Hlen. }
  assert (Hne : part <> []).
  { intros Hnil. apply (f_equal length) in Hnil. revert Hnil. rewrite Hrows.
    destruct (div_step N K s ltac:(lia)) as [Hle Hstep]. cbv zeta in *.
    assert (1 <= N / K)%nat by (apply Nat.div_le_lower_bound; lia).
    simpl. lia. }
  assert (Hrect' : rectangular part).
  { rewrite Hpart. unfold rows_of. by apply Forall_take, Forall_drop. }
  assert (Hdist' : Forall distribution part).
  { rewrite Hpart. unfold rows_of. by apply Forall_take, Forall_drop. }
  apply distributions_split in Hdist' as [Hpos Hsum].
  eexists. split; [by apply part_score_Fin|].
  destruct (score_bounds part Hne Hrect' Hpos Hsum) as [H1 H2].
  split; [exact H1|]. etrans; [exact H2|]. apply le_INR. lia.
Qed.

Lemma aggregate_bounded (ys : list (list float)) (N K : nat) (st : state) :
  length ys = N -> rectangular ys -> Forall distribution ys ->
  (1 <= K <= N)%nat ->
  exists mu sigma,
    aggregate ys N (Z.of_nat K) st = (Ok (Fin mu, Fin sigma), st)
    /\ (1 <= mu <= INR N)%R /\ (0 <= sigma <= INR N - 1)%R.
Proof.
  intros Hlen Hrect Hdist HK.
  rewrite aggregate_scores by lia. cbv zeta.
  destruct (mean_std_Fin (map (split_score ys N (Z.of_nat K))
                              (range (Z.of_nat K))) 1 (INR N))
    as (mu & sigma & Hmu & Hsigma & Hlo & H0).
  - unfold range. rewrite Nat2Z.id. destruct K; [lia|]. done.
  - intros x Hx. apply in_map_iff in Hx as (s & <- & Hs).
    unfold range in Hs. rewrite Nat2Z.id in Hs. apply in_seq in Hs.
    apply split_scores_bounded; [done..|lia].
  - exists mu, sigma. by rewrite Hmu, Hsigma.
Qed.

(** The rows a probability classifier leaves in [ys]. *)
Lemma probability_rows resample (f : bool -> bool -> ndarray -> result matrix)
    (a : ndarray) (batch_size : Z) :
  (1 <= batch_size)%Z -> probability_classifier f ->
  let N := length (images a) in
  let ys := concat (map (batch_rows resample f a batch_size)
                        (seq 0 (n_batches_of N batch_size))) in
  rectangular ys /\ Forall distribution ys.
Proof.
  intros Hbs Hf N ys. subst N. split.
  - subst ys. unfold rectangular. apply Forall_concat, Forall_map.
    apply Forall_forall. intros i _. apply rectangular_broadcast_rows.
  - subst ys. apply Forall_concat, Forall_map.
    apply Forall_forall. intros i _. unfold batch_rows, the_output.
    destruct (Hf (classifier_input resample a batch_size i))
      as (y & -> & Hr & Hc & Hy).
    rewrite (classifier_input_length resample a batch_size Hbs i) in Hr.
    apply Forall_lookup. intros r row Hrow.
    assert (Hlt : (r < nrows y)%nat).
    { apply lookup_lt_Some in Hrow. unfold broadcast_rows in Hrow.
      rewrite length_map, length_seq in Hrow. lia. }
    rewrite (broadcast_rows_lookup y _ r) in Hrow by (done || lia).
    injection Hrow as <-. by apply Hy.
Qed.

Lemma probability_total (f : bool -> bool -> ndarray -> result matrix) :
  probability_classifier f -> total_classifier f.
Proof.
  intros Hf x. destruct (Hf x) as (y & Hy & Hr & Hc & _). by exists y.
Qed.

Lemma rows_count resample (f : bool -> bool -> ndarray -> result matrix)
    (a : ndarray) (batch_size : Z) :
  (1 <= batch_size)%Z -> answers f ->
  let N := length (images a) in
  length (concat (map (batch_rows resample f a batch_size)
                      (seq 0 (n_batches_of N batch_size)))) = N.
Proof.
  intros Hbs Hf N.
  destruct (loop_total resample f a batch_size Hbs Hf 0
              (n_batches_of N batch_size) (replicate N [])
              (mk_trace [] [] []) (length_replicate _ _)) as [_ ->].
  by apply bound_last.
Qed.

(** X9.  With a classifier that returns one probability distribution
    over the 1008 classes per image (finite, strictly positive entries
    that sum to 1), a batch size of at least 1 and between 1 and [N]
    splits, the run returns a pair of finite numbers: the mean lies
    between 1 and [N], the standard deviation between 0 and [N - 1].
    The arithmetic is that of the real numbers: rounding is not
    modelled. *)
Theorem result_at_least_one resample (m : array_module)
    (f : bool -> bool -> ndarray -> result matrix) (ims : loc) (a : ndarray)
    (batch_size : Z) (K : nat) (st : state) :
  heap (fst st) !! ims = Some a ->
  (1 <= batch_size)%Z ->
  (1 <= K <= length (images a))%nat ->
  probability_classifier f ->
  exists mu sigma,
    fst (inception_score resample (pure_model m f) ims batch_size
           (Z.of_nat K) st) = Ok (Fin mu, Fin sigma)
    /\ (1 <= mu <= INR (length (images a)))%R
    /\ (0 <= sigma <= INR (length (images a)) - 1)%R.
Proof.
  intros Hh Hbs HK Hf. destruct st as [w t]. cbn [fst] in Hh.
  pose proof (total_answers f (probability_total f Hf)) as Hans.
  destruct (inception_score_answers resample m f ims a batch_size Hbs Hans
              (Z.of_nat K) w t Hh) as (w' & _ & ->).
  destruct (Z.ltb_spec (Z.of_nat K) 0) as [?|_]; [lia|]. cbn [fst].
  destruct (probability_rows resample f a batch_size Hbs Hf) as [Hrect Hdist].
  pose proof (rows_count resample f a batch_size Hbs Hans) as Hlen.
  destruct (aggregate_bounded _ _ K (w, t) Hlen Hrect Hdist HK)
    as (mu & sigma & Hagg & Hmu & Hsigma).
  rewrite aggregate_scores in Hagg by lia. cbv zeta in Hagg.
  exists mu, sigma. split; [|done]. congruence.
Qed.

Lemma const_stub_probability (p : list float) :
  length p = n_classes -> distribution p -> probability_classifier (const_stub p).
Proof.
  intros Hp Hdist x. eexists. split; [reflexivity|]. split; [done|]. split; [done|].
  intros r _. cbn [cell]. rewrite <- Hp.
  by rewrite (map_seq_nth (fun x => x)), map_id.
Qed.

Lemma result_at_least_one_witness :
  exists mu sigma,
    fst (inception_score keep_pixels (pure_model numpy (const_stub skewed_row))
           0 4 (Z.of_nat 3) (start_state (blank_images 10) (fun _ _ => NaN)))
    = Ok (Fin mu, Fin sigma)
    /\ (1 <= mu <= INR (length (images (blank_images 10))))%R
    /\ (0 <= sigma <= INR (length (images (blank_images 10))) - 1)%R.
Proof.
  apply (result_at_least_one keep_pixels numpy (const_stub skewed_row) 0%nat
           (blank_images 10)).
  - reflexivity.
  - lia.
  - rewrite length_blank_images. lia.
  - apply const_stub_probability;
      [apply length_skewed_row|apply skewed_row_distribution].
Defined.

(* ===================================================================== *)
(** ** What the network is applied to *)

Lemma map_pixels_compose (f g : float -> float) (a : ndarray) :
  map_pixels g (map_pixels f a) = map_pixels (fun p => g (f p)) a.
Proof.
  unfold map_pixels. cbn [channels dim_w dim_h images]. f_equal.
  rewrite map_map. apply map_ext. intros img. by rewrite map_map.
Qed.

(** An operator applied to a Variable leaves a new Variable over a new
    array that holds the result. *)
Lemma inplace_Var (op : float -> float) (v : view) (a0 : ndarray) (w : world) :
  heap w !! base v = Some a0 ->
  let b := map_pixels op (slice_array a0 (start v) (stop v)) in
  exists v' w',
    inplace op (Var v) w = (Ok (Var v'), w')
    /\ flags w' = flags w
    /\ heap w' !! base v' = Some b
    /\ slice_array b (start v') (stop v') = b.
Proof.
  intros Hl b. unfold inplace, bind. rewrite (read_Ok v w a0 Hl). fold b.
  eexists _, _. split; [reflexivity|]. split; [done|]. split.
  - cbn [base heap set_heap]. by rewrite lookup_app_r, Nat.sub_diag by lia.
  - cbn [start stop]. apply slice_array_full.
Qed.

(** X10.  Called on a Variable, the network subtracts 128 from every pixel
    and multiplies by 0.0078125 before anything else, and applies its
    layers to the result under the flags in force at the call; with
    [get_feature] it returns the 2048 pooled features and skips the logit
    layer and the softmax; an exception of the layers is passed on.  Pixel
    values between 0 and 255 arrive in [-1, 1). *)
Theorem Inception_call_normalises trunk logit_softmax (v : view) (a0 : ndarray)
    (get_feature : bool) (w : world) :
  heap w !! base v = Some a0 ->
  let scale := fun p => fmul (fsub p (Fin 128)) (Fin 0.0078125) in
  let x := map_pixels scale (slice_array a0 (start v) (stop v)) in
  fst (Inception_call trunk logit_softmax (Var v) get_feature w)
  = match trunk (train w) (enable_backprop w) x with
    | Ok h => Ok (if get_feature then h else logit_softmax h)
    | Raise e => Raise e
    end
  /\ forall r, (0 <= r <= 255)%R ->
       exists r', scale (Fin r) = Fin r' /\ (-1 <= r' < 1)%R.
Proof.
  intros Hl scale x. split.
  - unfold Inception_call, isub, imul. unfold bind at 1.
    destruct (inplace_Var (fun p => fsub p (Fin 128)) v a0 w Hl)
      as (v1 & w1 & -> & Hf1 & Hl1 & Hs1).
    unfold bind at 1.
    destruct (inplace_Var (fun p => fmul p (Fin 0.0078125)) v1 _ w1 Hl1)
      as (v2 & w2 & -> & Hf2 & Hl2 & Hs2).
    rewrite Hs1, map_pixels_compose in Hl2, Hs2. fold scale in Hl2, Hs2.
    fold x in Hl2, Hs2.
    unfold bind at 1. cbn [data]. rewrite (read_Ok v2 w2 x Hl2), Hs2.
    unfold bind at 1.
    assert (Hflags : (train w2, enable_backprop w2) = (train w, enable_backprop w)).
    { unfold flags in Hf1, Hf2. congruence. }
    injection Hflags as -> ->.
    destruct (trunk _ _ _) as [h|e]; [|done]. by destruct get_feature.
  - intros r Hr. subst scale. cbv beta. unfold fsub. cbn [fneg fadd fmul].
    eexists. split; [reflexivity|]. lra.
Qed.

Lemma Inception_call_normalises_witness :
  fst (Inception_call (const_stub uniform_row) (fun h => h)
         (Var (mk_view 0 0 2)) true (mk_world [blank_images 2] false false
                                        (fun _ _ => NaN)))
  = Ok (mk_matrix 2 n_classes (fun _ c => nth c uniform_row NaN)).
Proof.
  destruct (Inception_call_normalises (const_stub uniform_row) (fun h => h)
              (mk_view 0 0 2) (blank_images 2) true
              (mk_world [blank_images 2] false false (fun _ _ => NaN)))
    as [Hcall _]; [reflexivity|].
  rewrite Hcall. unfold const_stub. cbn [map_pixels slice_array images start stop].
  rewrite length_map, rows_of_length by (rewrite length_blank_images; lia).
  f_equal.
Defined.

(* ===================================================================== *)
(** ** The network: construction and calls *)

Lemma and_then_Done {A B} (c : outcome A) (k : A -> outcome B) (b : B) :
  and_then c k = Done b -> exists a, c = Done a /\ k a = Done b.
Proof. destruct c as [a|e]; [|done]. intros Hk. by exists a. Qed.

Section Equations.

Variable in_dict has_attr : string -> bool.

Lemma build_all_fix (trunk : list (string * expr)) :
  (fix build_all (trunk : list (string * expr)) :=
     match trunk with
     | [] => Done []
     | (name, e) :: rest =>
         o <~ build in_dict has_attr e ;;
         os <~ build_all rest ;;
         Done ((name, o) :: os)
     end) trunk
  = build_all in_dict has_attr trunk.
Proof. induction trunk as [|[name e] rest IH]; [done|]. simpl. by rewrite IH. Qed.

Lemma build_Mixed (trunk : list (string * expr)) :
  build in_dict has_attr (Mixed trunk)
  = (tr <~ build_all in_dict has_attr trunk ;; Mixed_init in_dict has_attr tr).
Proof. simpl. by rewrite build_all_fix. Qed.

Lemma build_Tower (trunk : list (string * expr)) :
  build in_dict has_attr (Tower trunk)
  = (tr <~ build_all in_dict has_attr trunk ;; Tower_init in_dict has_attr tr).
Proof. simpl. by rewrite build_all_fix. Qed.

End Equations.

Section CallEquations.

Context {X : Type}.
Variable chainer : functions X.

Lemma getattr_call_fix (name : string) (x : X) (children : list (string * obj)) :
  (fix getattr_call (children : list (string * obj)) : outcome X :=
     match children with
     | [] => Fails AttributeError
     | (n, c) :: children =>
         if String.eqb n name then call_link chainer c x
         else getattr_call children
     end) children
  = getattr_call chainer children name x.
Proof. induction children as [|[n c] rest IH]; [done|]. simpl. by rewrite IH. Qed.

Lemma call_link_Mixed (children trunk : list (string * obj)) (x : X) :
  call_link chainer (MixedObj children trunk) x
  = (hs <~ Mixed_each chainer children trunk x ;; F_concat chainer hs).
Proof.
  simpl. f_equal.
  induction trunk as [|[name o] rest IH]; [done|].
  simpl. rewrite IH, getattr_call_fix. done.
Qed.

Lemma call_link_Tower (children trunk : list (string * obj)) (x : X) :
  call_link chainer (TowerObj children trunk) x
  = Tower_chain chainer children trunk x.
Proof.
  simpl. revert x.
  induction trunk as [|[name o] rest IH]; intros x; [done|].
  simpl. rewrite getattr_call_fix.
  destruct (if startswith_underscore name then _ else _) as [h|e]; [|done].
  simpl. apply IH.
Qed.

Lemma in_order_Mixed (trunk : list (string * expr)) (x : X) :
  in_order chainer (Mixed trunk) x
  = (hs <~ each_in_order chainer trunk x ;; F_concat chainer hs).
Proof.
  simpl. f_equal.
  induction trunk as [|[name e] rest IH]; [done|].
  simpl. by rewrite IH.
Qed.

Lemma in_order_Tower (trunk : list (string * expr)) (x : X) :
  in_order chainer (Tower trunk) x = chain_in_order chainer trunk x.
Proof.
  simpl. revert x.
  induction trunk as [|[name e] rest IH]; intros x; [done|].
  simpl. destruct (in_order chainer e x) as [h|err]; [|done].
  simpl. apply IH.
Qed.

End CallEquations.

(** Induction over constructor expressions and over objects, with the
    hypothesis for every entry of a list. *)
Lemma expr_ind' (P : expr -> Prop) :
  (forall p, P (Prim p)) ->
  (forall trunk, Forall (fun ne => P (snd ne)) trunk -> P (Mixed trunk)) ->
  (forall trunk, Forall (fun ne => P (snd ne)) trunk -> P (Tower trunk)) ->
  forall e, P e.
Proof.
  intros HP HM HT. fix IH 1. intros [p|trunk|trunk].
  - apply HP.
  - apply HM.
    refine ((fix go (tr : list (string * expr)) : Forall _ tr :=
               match tr with
               | [] => List.Forall_nil _
               | ne :: rest => List.Forall_cons _ _ _ (IH (snd ne)) (go rest)
               end) trunk).
  - apply HT.
    refine ((fix go (tr : list (string * expr)) : Forall _ tr :=
               match tr with
               | [] => List.Forall_nil _
               | ne :: rest => List.Forall_cons _ _ _ (IH (snd ne)) (go rest)
               end) trunk).
Qed.

Lemma obj_ind' (P : obj -> Prop) :
  (forall p, P (Callable p)) ->
  (forall children trunk,
     Forall (fun c => P (snd c)) children -> Forall (fun c => P (snd c)) trunk ->
     P (MixedObj children trunk)) ->
  (forall children trunk,
     Forall (fun c => P (snd c)) children -> Forall (fun c => P (snd c)) trunk ->
     P (TowerObj children trunk)) ->
  forall o, P o.
Proof.
  intros HP HM HT. fix IH 1. intros [p|children trunk|children trunk].
  - apply HP.
  - apply HM.
    + refine ((fix go (tr : list (string * obj)) : Forall _ tr :=
                 match tr with
                 | [] => List.Forall_nil _
                 | c :: rest => List.Forall_cons _ _ _ (IH (snd c)) (go rest)
                 end) children).
    + refine ((fix go (tr : list (string * obj)) : Forall _ tr :=
                 match tr with
                 | [] => List.Forall_nil _
                 | c :: rest => List.Forall_cons _ _ _ (IH (snd c)) (go rest)
                 end) trunk).
  - apply HT.
    + refine ((fix go (tr : list (string * obj)) : Forall _ tr :=
                 match tr with
                 | [] => List.Forall_nil _
                 | c :: rest => List.Forall_cons _ _ _ (IH (snd c)) (go rest)
                 end) children).
    + refine ((fix go (tr : list (string * obj)) : Forall _ tr :=
                 match tr with
                 | [] => List.Forall_nil _
                 | c :: rest => List.Forall_cons _ _ _ (IH (snd c)) (go rest)
                 end) trunk).
Qed.

Lemma registered_false (name : string) (children : list (string * obj)) :
  registered name children = false <-> name ∉ map fst children.
Proof.
  unfold registered. induction children as [|[n c] rest IH]; simpl.
  - split; [intros _ H; inversion H|done].
  - rewrite orb_false_iff, IH, String.eqb_neq, not_elem_of_cons.
    split; intros [H1 H2]; (split; [congruence|done]).
Qed.

Section Registration.

Variable in_dict has_attr : string -> bool.

(** What [add_link] asks of a name and of the value to be added. *)
#[local] Abbreviation admissible :=
  (fun c : string * obj =>
     in_dict (fst c) = false /\ has_attr (fst c) = false
     /\ is_link (snd c) = true).

Lemma add_link_Done (children children' : list (string * obj)) (name : string)
    (link : obj) :
  add_link in_dict has_attr children name link = Done children'
  <-> (name ∉ map fst children) /\ admissible (name, link)
      /\ children' = children ++ [(name, link)].
Proof.
  unfold add_link, set_link. rewrite <- registered_false. cbn [fst snd].
  destruct (in_dict name), (registered name children), (is_link link),
    (has_attr name); cbn; split; try done; try (intros (? & (? & ? & ?) & ?); done).
  - intros [= <-]. done.
  - intros (_ & _ & ->). done.
Qed.

Lemma add_links_Done (wanted : string -> bool)
    (trunk children children' : list (string * obj)) :
  add_links in_dict has_attr wanted trunk children = Done children'
  <-> let links := List.filter (fun c => wanted (fst c)) trunk in
      children' = children ++ links
      /\ NoDup (map fst links)
      /\ (forall name, name ∈ map fst links -> name ∉ map fst children)
      /\ Forall admissible links.
Proof.
  revert children children'.
  induction trunk as [|[name link] rest IH]; intros children children'; cbn zeta.
  - simpl. rewrite app_nil_r. split.
    + intros [= <-]. repeat split; try done; [constructor|].
      intros n Hn. inversion Hn.
    + intros (-> & _). done.
  - cbn [add_links List.filter fst]. destruct (wanted name) eqn:Hw.
    + split.
      * intros H. apply and_then_Done in H as (children1 & Hadd & Hrest).
        apply add_link_Done in Hadd as (Hfree & Hadm & ->).
        apply IH in Hrest as (-> & Hnodup & Hnew & Hall). cbn zeta in *.
        rewrite <- app_assoc. repeat split; try done.
        -- cbn [map fst]. apply NoDup_cons. split; [|done].
           intros Hin. apply (Hnew _ Hin). rewrite map_app, elem_of_app.
           right. apply list_elem_of_singleton. done.
        -- intros n Hn. cbn [map fst] in Hn. apply elem_of_cons in Hn as [->|Hin]; [done|].
           intros Hc. apply (Hnew _ Hin). rewrite map_app, elem_of_app. by left.
        -- by constructor.
      * intros (-> & Hnodup & Hnew & Hall). cbn [map fst] in *.
        apply NoDup_cons in Hnodup as [Hnotin Hnd].
        inversion Hall as [|? ? Hadm Hall']; subst.
        assert (Hadd : add_link in_dict has_attr children name link
                       = Done (children ++ [(name, link)])).
        { apply add_link_Done. split; [apply Hnew; by left|]. done. }
        rewrite Hadd. cbn [and_then]. apply IH. cbn zeta.
        rewrite <- app_assoc. repeat split; try done.
        intros n Hin. rewrite map_app, not_elem_of_app. split.
        -- apply (Hnew n). by right.
        -- cbn [map fst]. intros Hc. apply list_elem_of_singleton in Hc as ->. done.
    + apply IH.
Qed.

End Registration.

Lemma filter_all {A} (l : list A) : List.filter (fun _ => true) l = l.
Proof. induction l as [|x l IH]; [done|]. simpl. by rewrite IH. Qed.

Lemma Mixed_init_Done (in_dict has_attr : string -> bool)
    (trunk : list (string * obj)) (o : obj) :
  Mixed_init in_dict has_attr trunk = Done o ->
  o = MixedObj trunk trunk /\ NoDup (map fst trunk).
Proof.
  unfold Mixed_init. intros H.
  apply and_then_Done in H as (children & Hadd & [= <-]).
  apply add_links_Done in Hadd as (-> & Hnodup & _ & Hall).
  cbn zeta in *. rewrite filter_all in *. done.
Qed.

Lemma Tower_init_Done (in_dict has_attr : string -> bool)
    (trunk : list (string * obj)) (o : obj) :
  Tower_init in_dict has_attr trunk = Done o ->
  let links :=
    List.filter (fun c => negb (startswith_underscore (fst c))) trunk in
  o = TowerObj links trunk /\ NoDup (map fst links).
Proof.
  unfold Tower_init. intros H.
  apply and_then_Done in H as (children & Hadd & [= <-]).
  apply add_links_Done in Hadd as (-> & Hnodup & _ & Hall). done.
Qed.

(** X11.  [Mixed(trunk)] and [Tower(trunk)] can be constructed exactly
    when the names to be registered are pairwise distinct, none of them is
    an attribute the new chain already has, and every value to be
    registered is a Link; a [Mixed] registers every entry of its list, a
    [Tower] those whose name does not start with an underscore, in the
    order of the list, and both keep the list itself. *)
Theorem init_succeeds_iff (in_dict has_attr : string -> bool)
    (trunk : list (string * obj)) (o : obj) :
  let admissible := fun c : string * obj =>
    in_dict (fst c) = false /\ has_attr (fst c) = false
    /\ is_link (snd c) = true in
  let links :=
    List.filter (fun c => negb (startswith_underscore (fst c))) trunk in
  (Mixed_init in_dict has_attr trunk = Done o
   <-> o = MixedObj trunk trunk
       /\ NoDup (map fst trunk) /\ Forall admissible trunk)
  /\ (Tower_init in_dict has_attr trunk = Done o
      <-> o = TowerObj links trunk
          /\ NoDup (map fst links) /\ Forall admissible links).
Proof.
  intros admissible links. split.
  - unfold Mixed_init. split.
    + intros H. apply and_then_Done in H as (children & Hadd & [= <-]).
      apply add_links_Done in Hadd as (-> & Hnodup & _ & Hall).
      cbn zeta in *. rewrite filter_all in *. done.
    + intros (-> & Hnodup & Hall).
      assert (Hadd : add_links in_dict has_attr (fun _ => true) trunk []
                     = Done trunk).
      { apply add_links_Done. cbn zeta. rewrite filter_all.
        repeat split; try done. intros n _ Hn. inversion Hn. }
      by rewrite Hadd.
  - unfold Tower_init. split.
    + intros H. apply and_then_Done in H as (children & Hadd & [= <-]).
      apply add_links_Done in Hadd as (-> & Hnodup & _ & Hall). done.
    + intros (-> & Hnodup & Hall).
      assert (Hadd : add_links in_dict has_attr
                       (fun name => negb (startswith_underscore name)) trunk []
                     = Done links).
      { apply add_links_Done. cbn zeta.
        repeat split; try done. intros n _ Hn. inversion Hn. }
      by rewrite Hadd.
Qed.

(* ===================================================================== *)
(** ** Calls find the entries of the list *)

Section Dispatch.

Variable in_dict has_attr : string -> bool.
Context {X : Type}.
Variable chainer : functions X.

Lemma getattr_call_In (children : list (string * obj)) (name : string)
    (o : obj) (x : X) :
  NoDup (map fst children) -> (name, o) ∈ children ->
  getattr_call chainer children name x = call_link chainer o x.
Proof.
  induction children as [|[n c] rest IH]; intros Hnodup Hin.
  - inversion Hin.
  - cbn [map fst] in Hnodup. apply NoDup_cons in Hnodup as [Hn Hnodup].
    cbn [getattr_call]. apply elem_of_cons in Hin as [[= <- <-]|Hin].
    + by rewrite String.eqb_refl.
    + destruct (String.eqb_spec n name) as [->|_]; [|by apply IH].
      exfalso. apply Hn. apply (list_elem_of_fmap_2 fst) in Hin. exact Hin.
Qed.

Lemma build_all_cons (name : string) (e : expr) (rest : list (string * expr))
    (tr : list (string * obj)) :
  build_all in_dict has_attr ((name, e) :: rest) = Done tr ->
  exists o os, build in_dict has_attr e = Done o
               /\ build_all in_dict has_attr rest = Done os
               /\ tr = (name, o) :: os.
Proof.
  cbn [build_all]. intros H.
  apply and_then_Done in H as (o & Ho & H).
  apply and_then_Done in H as (os & Hos & [= <-]). by exists o, os.
Qed.

Lemma names_Mixed (trunk : list (string * expr)) :
  "trunk" ∉ link_names (Mixed trunk) ->
  Forall (fun ne => fst ne <> "trunk" /\ "trunk" ∉ link_names (snd ne)) trunk.
Proof.
  induction trunk as [|[name e] rest IH]; intros Hn; [constructor|].
  simpl in Hn. apply not_elem_of_cons in Hn as [Hname Hn].
  apply not_elem_of_app in Hn as [He Hrest].
  constructor; [cbn [fst snd]; split; [congruence|done]|]. by apply IH.
Qed.

Lemma names_Tower (trunk : list (string * expr)) :
  "trunk" ∉ link_names (Tower trunk) ->
  Forall (fun ne => (startswith_underscore (fst ne) = false -> fst ne <> "trunk")
                    /\ "trunk" ∉ link_names (snd ne)) trunk.
Proof.
  induction trunk as [|[name e] rest IH]; intros Hn; [constructor|].
  simpl in Hn. apply not_elem_of_app in Hn as [Hname Hn].
  apply not_elem_of_app in Hn as [He Hrest].
  constructor; [|by apply IH]. split; [|done].
  cbn [fst]. intros Hu. rewrite Hu in Hname.
  apply not_elem_of_cons in Hname as [Hname _]. congruence.
Qed.

#[local] Abbreviation agrees :=
  (fun e : expr =>
     forall o, build in_dict has_attr e = Done o ->
               "trunk" ∉ link_names e ->
               forall x, call_link chainer o x = in_order chainer e x).

Lemma Mixed_each_in_order (children : list (string * obj))
    (trunk : list (string * expr)) (tr : list (string * obj)) (x : X) :
  NoDup (map fst children) ->
  Forall (fun ne => agrees (snd ne)) trunk ->
  Forall (fun ne => fst ne <> "trunk" /\ "trunk" ∉ link_names (snd ne)) trunk ->
  build_all in_dict has_attr trunk = Done tr ->
  (forall c, c ∈ tr -> c ∈ children) ->
  Mixed_each chainer children tr x = each_in_order chainer trunk x.
Proof.
  intros Hnodup. revert tr.
  induction trunk as [|[name e] rest IH]; intros tr HP Hnames Hbuild Hsub.
  - injection Hbuild as <-. done.
  - apply build_all_cons in Hbuild as (o & os & Ho & Hos & ->).
    inversion HP as [|? ? HPe HPrest]; subst.
    inversion Hnames as [|? ? [Hname He] Hnrest]; subst. cbn [fst snd] in *.
    cbn [Mixed_each each_in_order].
    apply String.eqb_neq in Hname. rewrite Hname.
    rewrite (getattr_call_In children name o) by (done || apply Hsub; by left).
    rewrite (HPe o Ho He).
    rewrite (IH os) by (done || intros c Hc; apply Hsub; by right).
    done.
Qed.

Lemma Tower_chain_in_order (children : list (string * obj))
    (trunk : list (string * expr)) (tr : list (string * obj)) (x : X) :
  NoDup (map fst children) ->
  Forall (fun ne => agrees (snd ne)) trunk ->
  Forall (fun ne => (startswith_underscore (fst ne) = false -> fst ne <> "trunk")
                    /\ "trunk" ∉ link_names (snd ne)) trunk ->
  build_all in_dict has_attr trunk = Done tr ->
  (forall c, c ∈ tr -> startswith_underscore (fst c) = false -> c ∈ children) ->
  Tower_chain chainer children tr x = chain_in_order chainer trunk x.
Proof.
  intros Hnodup. revert tr x.
  induction trunk as [|[name e] rest IH]; intros tr x HP Hnames Hbuild Hsub.
  - injection Hbuild as <-. done.
  - apply build_all_cons in Hbuild as (o & os & Ho & Hos & ->).
    inversion HP as [|? ? HPe HPrest]; subst.
    inversion Hnames as [|? ? [Hname He] Hnrest]; subst. cbn [fst snd] in *.
    cbn [Tower_chain chain_in_order].
    assert (Hstep : (if startswith_underscore name then call_link chainer o x
                     else if String.eqb name "trunk" then Fails TypeError
                     else getattr_call chainer children name x)
                    = in_order chainer e x).
    { destruct (startswith_underscore name) eqn:Hu.
      - by apply HPe.
      - specialize (Hname eq_refl). apply String.eqb_neq in Hname.
        rewrite Hname.
        rewrite (getattr_call_In children name o)
          by first [done | apply Hsub; [by left|done]].
        by apply HPe. }
    rewrite Hstep. destruct (in_order chainer e x) as [h|err]; [|done].
    cbn [and_then]. apply IH; try done.
    intros c Hc. apply Hsub. by right.
Qed.

Lemma elem_of_filter_bool {A} (f : A -> bool) (l : list A) (x : A) :
  x ∈ l -> f x = true -> x ∈ List.filter f l.
Proof.
  intros Hin Hf. apply list_elem_of_In, filter_In. split; [|done].
  by apply list_elem_of_In.
Qed.

Lemma call_link_in_order (e : expr) : agrees e.
Proof.
  induction e as [p|trunk IH|trunk IH] using expr_ind'; intros o Hbuild Hnames x.
  - injection Hbuild as <-. done.
  - rewrite build_Mixed in Hbuild.
    apply and_then_Done in Hbuild as (tr & Htr & Hinit).
    apply Mixed_init_Done in Hinit as (-> & Hnodup).
    rewrite call_link_Mixed, in_order_Mixed.
    by rewrite (Mixed_each_in_order tr trunk tr x Hnodup IH (names_Mixed _ Hnames) Htr).
  - rewrite build_Tower in Hbuild.
    apply and_then_Done in Hbuild as (tr & Htr & Hinit).
    apply Tower_init_Done in Hinit as (-> & Hnodup).
    rewrite call_link_Tower, in_order_Tower.
    apply (Tower_chain_in_order _ trunk tr x Hnodup IH (names_Tower _ Hnames) Htr).
    intros c Hc Hu. apply elem_of_filter_bool; [done|]. by rewrite Hu.
Qed.

End Dispatch.

(** X12.  When the construction of a tower or of a mixed layer succeeds
    and no link in it is named [trunk], a call of the object does what the
    lists say: a tower applies its entries one after the other, in the
    order of the list, and a mixed layer applies every entry to its
    argument and concatenates the results in the order of the list; the
    lookup of the links by name finds, for every entry, the link of that
    entry.  This holds for every nesting and whatever Chainer's functions
    compute. *)
Theorem calls_follow_the_lists (in_dict has_attr : string -> bool) {X}
    (chainer : functions X) (e : expr) (o : obj) (x : X) :
  build in_dict has_attr e = Done o ->
  "trunk" ∉ link_names e ->
  call_link chainer o x = in_order chainer e x.
Proof.
  intros Hbuild Hnames.
  by apply (call_link_in_order in_dict has_attr chainer e).
Qed.

(* ===================================================================== *)
(** ** A link named [trunk] *)

Lemma build_all_names (in_dict has_attr : string -> bool)
    (trunk : list (string * expr)) (tr : list (string * obj)) :
  build_all in_dict has_attr trunk = Done tr -> map fst tr = map fst trunk.
Proof.
  revert tr. induction trunk as [|[name e] rest IH]; intros tr Hbuild.
  - by injection Hbuild as <-.
  - apply build_all_cons in Hbuild as (o & os & _ & Hos & ->).
    cbn [map fst]. by rewrite (IH os).
Qed.

Section Shadowed.

Context {X : Type}.
Variable chainer : functions X.

Lemma Mixed_each_trunk (children tr : list (string * obj)) (x : X) :
  "trunk" ∈ map fst tr ->
  exists err, Mixed_each chainer children tr x = Fails err.
Proof.
  induction tr as [|[name o] rest IH]; intros Hin; [inversion Hin|].
  cbn [Mixed_each]. destruct (String.eqb_spec name "trunk") as [->|Hne].
  - by exists TypeError.
  - cbn [map fst] in Hin. apply elem_of_cons in Hin as [Heq|Hin]; [congruence|].
    destruct (getattr_call chainer children name x) as [h|err];
      [|by exists err].
    cbn [and_then]. destruct (IH Hin) as (err & ->). by exists err.
Qed.

Lemma Tower_chain_trunk (children tr : list (string * obj)) (x : X) :
  "trunk" ∈ map fst tr ->
  exists err, Tower_chain chainer children tr x = Fails err.
Proof.
  revert x. induction tr as [|[name o] rest IH]; intros x Hin; [inversion Hin|].
  cbn [Tower_chain]. destruct (String.eqb_spec name "trunk") as [->|Hne].
  - by exists TypeError.
  - cbn [map fst] in Hin. apply elem_of_cons in Hin as [Heq|Hin]; [congruence|].
    destruct (if startswith_underscore name then _ else _) as [h|err];
      [|by exists err].
    cbn [and_then]. by apply IH.
Qed.

End Shadowed.

(** X13.  A tower or a mixed layer whose list has an entry named [trunk]
    may well be constructed, but no call of it returns: the attribute
    [trunk] holds the list, not the link, and the call raises when it
    comes to that entry, if it has not raised before. *)
Theorem trunk_name_is_shadowed (in_dict has_attr : string -> bool) {X}
    (chainer : functions X) (trunk : list (string * expr)) (o : obj) (x : X) :
  build in_dict has_attr (Mixed trunk) = Done o
  \/ build in_dict has_attr (Tower trunk) = Done o ->
  "trunk" ∈ map fst trunk ->
  exists err, call_link chainer o x = Fails err.
Proof.
  intros [Hbuild|Hbuild] Hin.
  - rewrite build_Mixed in Hbuild.
    apply and_then_Done in Hbuild as (tr & Htr & Hinit).
    apply Mixed_init_Done in Hinit as (-> & _).
    rewrite call_link_Mixed.
    destruct (Mixed_each_trunk chainer tr tr x) as (err & ->); [|by exists err].
    by rewrite (build_all_names _ _ _ _ Htr).
  - rewrite build_Tower in Hbuild.
    apply and_then_Done in Hbuild as (tr & Htr & Hinit).
    apply Tower_init_Done in Hinit as (-> & _).
    rewrite call_link_Tower. apply Tower_chain_trunk.
    by rewrite (build_all_names _ _ _ _ Htr).
Qed.

(* ===================================================================== *)
(** ** Two interpretations of Chainer's functions *)

Lemma related_and_then {X Y X' Y'} (R : X -> Y -> Prop) (R' : X' -> Y' -> Prop)
    (c : outcome X) (d : outcome Y) (k : X -> outcome X') (l : Y -> outcome Y') :
  related R c d ->
  (forall a b, R a b -> related R' (k a) (l b)) ->
  related R' (and_then c k) (and_then d l).
Proof. intros [a b Hab|e] Hk; [by apply Hk|constructor]. Qed.

Section Interpretations.

Context {X Y : Type}.
Variable R : X -> Y -> Prop.
Variable B : functions X.
Variable C : functions Y.
Hypothesis Hsim : simulation R B C.

#[local] Abbreviation kept :=
  (fun c : string * obj =>
     forall x y, R x y ->
       related R (call_link B (snd c) x) (call_link C (snd c) y)).

Lemma call_prim_related (p : prim) (x : X) (y : Y) :
  R x y -> related R (call_prim B p x) (call_prim C p y).
Proof using Hsim. intros Hxy. destruct Hsim. destruct p; simpl; auto. Qed.

Lemma getattr_call_related (children : list (string * obj)) (name : string)
    (x : X) (y : Y) :
  Forall kept children -> R x y ->
  related R (getattr_call B children name x) (getattr_call C children name y).
Proof.
  intros Hch Hxy. induction Hch as [|[n c] rest Hc _ IH]; cbn [getattr_call].
  - constructor.
  - destruct (String.eqb n name); [by apply Hc|exact IH].
Qed.

Lemma Mixed_each_related (children trunk : list (string * obj)) (x : X) (y : Y) :
  Forall kept children -> R x y ->
  related (Forall2 R) (Mixed_each B children trunk x)
                      (Mixed_each C children trunk y).
Proof.
  intros Hch Hxy. induction trunk as [|[name o] rest IH]; cbn [Mixed_each].
  - constructor. constructor.
  - apply (related_and_then R).
    + destruct (String.eqb name "trunk"); [constructor|].
      by apply getattr_call_related.
    + intros h h' Hh. apply (related_and_then (Forall2 R)); [exact IH|].
      intros hs hs' Hhs. constructor. by constructor.
Qed.

Lemma Tower_chain_related (children trunk : list (string * obj)) (x : X) (y : Y) :
  Forall kept children -> Forall kept trunk -> R x y ->
  related R (Tower_chain B children trunk x) (Tower_chain C children trunk y).
Proof.
  intros Hch Htr. revert x y.
  induction Htr as [|[name f] rest Hf _ IH]; intros x y Hxy; cbn [Tower_chain].
  - by constructor.
  - apply (related_and_then R); [|exact IH].
    destruct (startswith_underscore name); [by apply Hf|].
    destruct (String.eqb name "trunk"); [constructor|].
    by apply getattr_call_related.
Qed.

Lemma call_link_kept (o : obj) (x : X) (y : Y) :
  R x y -> related R (call_link B o x) (call_link C o y).
Proof using Hsim.
  revert x y.
  induction o as [p|children trunk IHc IHt|children trunk IHc IHt] using obj_ind';
    intros x y Hxy.
  - by apply call_prim_related.
  - rewrite !call_link_Mixed. apply (related_and_then (Forall2 R)).
    + by apply Mixed_each_related.
    + intros hs hs' Hhs. by apply (sim_concat R B C Hsim).
  - rewrite !call_link_Tower. by apply Tower_chain_related.
Qed.

Lemma children_kept (children : list (string * obj)) : Forall kept children.
Proof using Hsim.
  apply List.Forall_forall. intros c _ x y Hxy. by apply call_link_kept.
Qed.

Lemma run_steps_related (steps : list (X -> outcome X))
    (steps' : list (Y -> outcome Y)) (x : X) (y : Y) :
  Forall2 (fun f g => forall x y, R x y -> related R (f x) (g y)) steps steps' ->
  R x y ->
  related R (run_steps steps x) (run_steps steps' y).
Proof.
  intros Hsteps. revert x y.
  induction Hsteps as [|f g fs gs Hfg _ IH]; intros x y Hxy; cbn [run_steps].
  - by constructor.
  - apply (related_and_then R); [by apply Hfg|exact IH].
Qed.

Lemma trace_steps_related (steps : list (X -> outcome X))
    (steps' : list (Y -> outcome Y)) (x : X) (y : Y) :
  Forall2 (fun f g => forall x y, R x y -> related R (f x) (g y)) steps steps' ->
  R x y ->
  related (Forall2 R) (trace_steps steps x) (trace_steps steps' y).
Proof.
  intros Hsteps. revert x y.
  induction Hsteps as [|f g fs gs Hfg _ IH]; intros x y Hxy; cbn [trace_steps].
  - constructor. constructor.
  - apply (related_and_then R); [by apply Hfg|].
    intros h h' Hh. apply (related_and_then (Forall2 R)); [by apply IH|].
    intros hs hs' Hhs. constructor. by constructor.
Qed.

Lemma Inception_steps_related (self : list (string * obj)) :
  Forall2 (fun f g => forall x y, R x y -> related R (f x) (g y))
    (Inception_steps B self) (Inception_steps C self).
Proof using Hsim.
  pose proof (children_kept self) as Hself.
  unfold Inception_steps.
  repeat (apply Forall2_cons; split; [intros x y Hxy|]); try apply Forall2_nil_2.
  all: repeat (apply (related_and_then R); [|intros ? ? ?]).
  all: try (by apply getattr_call_related).
  all: destruct Hsim; auto.
Qed.

End Interpretations.

Lemma calls_follow_the_lists_witness :
  let o := match build (fun _ => false) (fun _ => false) Inception_mixed with
           | Done o => o
           | Fails _ => Callable relu_function
           end in
  call_link shapes o [2; 192; 35; 35]%nat
  = in_order shapes Inception_mixed [2; 192; 35; 35]%nat.
Proof.
  intros o.
  apply (calls_follow_the_lists (fun _ => false) (fun _ => false) shapes
           Inception_mixed o).
  - vm_compute. reflexivity.
  - intros Hin. vm_compute in Hin.
    repeat (apply elem_of_cons in Hin as [Hin|Hin]; [discriminate Hin|]).
    by apply elem_of_nil in Hin.
Defined.

Lemma trunk_name_is_shadowed_witness :
  exists err,
    call_link shapes
      (TowerObj [("trunk", Callable (Convolution2D_link 3 32 3 2 0))]
                [("trunk", Callable (Convolution2D_link 3 32 3 2 0))])
      [1; 3; 299; 299]%nat
    = Fails err.
Proof.
  apply (trunk_name_is_shadowed (fun _ => false) (fun _ => false) shapes
           [("trunk", Convolution2D 3 32 3 2 0)]).
  - right. reflexivity.
  - apply list_elem_of_here.
Defined.

(* ===================================================================== *)
(** ** The shapes do not depend on the number of examples *)

Lemma batch_of_intro (n : nat) (s : shape) : batch_of n (n :: s) (1%nat :: s).
Proof. by exists s. Qed.

Lemma window_related (n : nat) (c h w : nat) (ksize pad : nat * nat)
    (stride : nat) (cover_all : bool) :
  related (batch_of n)
    (out <~ window_2d h w ksize stride pad cover_all ;;
     Done [n; c; fst out; snd out])
    (out <~ window_2d h w ksize stride pad cover_all ;;
     Done [1%nat; c; fst out; snd out]).
Proof.
  destruct (window_2d h w ksize stride pad cover_all) as [out|e]; cbn [and_then].
  - constructor. apply batch_of_intro.
  - constructor.
Qed.

Lemma concat_related (n : nat) (h w : nat) (xs ys : list shape) :
  Forall2 (batch_of n) xs ys ->
  forallb (fun y => match y with
                    | [n'; _; h'; w'] =>
                        (n' =? n)%nat && (h' =? h)%nat && (w' =? w)%nat
                    | _ => false
                    end) xs
  = forallb (fun y => match y with
                      | [n'; _; h'; w'] =>
                          (n' =? 1)%nat && (h' =? h)%nat && (w' =? w)%nat
                      | _ => false
                      end) ys
  /\ forall c, fold_left (fun acc y => acc + nth 1 y 0)%nat xs c
               = fold_left (fun acc y => acc + nth 1 y 0)%nat ys c.
Proof.
  induction 1 as [|x y xs ys (s & -> & ->) _ [IHb IHc]]; [done|].
  cbn [forallb fold_left]. split.
  - rewrite IHb. do 2 f_equal.
    destruct s as [|c' [|h' [|w' [|? ?]]]]; try done.
    by rewrite !Nat.eqb_refl.
  - intros c. cbn [nth]. apply IHc.
Qed.

Lemma shapes_batch (n : nat) : simulation (batch_of n) shapes shapes.
Proof.
  split; cbn [L_Convolution2D L_BatchNormalization L_Linear F_relu
              F_average_pooling_2d F_max_pooling_2d F_concat F_softmax shapes].
  - intros cin cout k s p x y (sh & -> & ->). unfold shape_Convolution2D.
    destruct sh as [|c [|h [|w [|? ?]]]]; try constructor.
    destruct (c =? cin)%nat; [apply window_related|constructor].
  - intros size x y (sh & -> & ->). unfold shape_BatchNormalization.
    destruct sh as [|c rest]; [constructor|].
    destruct (c =? size)%nat; constructor. apply batch_of_intro.
  - intros cin cout x y (sh & -> & ->). unfold shape_Linear.
    destruct sh as [|d rest]; [constructor|].
    destruct (_ =? cin)%nat; constructor. apply batch_of_intro.
  - intros x y Hxy. by constructor.
  - intros k s p x y (sh & -> & ->). unfold shape_pooling_2d.
    destruct sh as [|c [|h [|w [|? ?]]]]; try constructor.
    apply window_related.
  - intros k s p x y (sh & -> & ->). unfold shape_pooling_2d.
    destruct sh as [|c [|h [|w [|? ?]]]]; try constructor.
    apply window_related.
  - intros xs ys Hxs. unfold shape_concat.
    destruct Hxs as [|x y xs ys (sh & -> & ->) Hrest]; [constructor|].
    destruct sh as [|c [|h [|w [|? ?]]]]; try constructor.
    destruct (concat_related n h w xs ys Hrest) as [-> ->].
    match goal with |- context [forallb ?f ys] => destruct (forallb f ys) end;
      constructor. apply batch_of_intro.
  - intros x y (sh & -> & ->). unfold shape_softmax.
    destruct sh as [|d rest]; constructor. apply batch_of_intro.
Qed.

Lemma related_Done_r {X Y} (R : X -> Y -> Prop) (c : outcome X) (y : Y) :
  related R c (Done y) -> exists x, c = Done x /\ R x y.
Proof. intros H. inversion H as [x y' Hxy|]; subst. by exists x. Qed.

(** The shapes for [n] examples, from the shapes for one. *)
Lemma batch_of_list (n : nat) (xs ys : list shape) :
  Forall2 (batch_of n) xs ys ->
  Forall (fun y => hd 0%nat y = 1%nat) ys /\ xs = map (fun y => n :: tl y) ys.
Proof.
  induction 1 as [|x y xs ys (s & -> & ->) _ [IH1 IH2]]; [done|].
  split; [by constructor|]. cbn [map tl]. by rewrite IH2.
Qed.

(* ===================================================================== *)
(** ** The attributes a chain starts with *)

Section Agreement.

Variable in_dict has_attr in_dict' has_attr' : string -> bool.

#[local] Abbreviation same :=
  (fun name : string =>
     in_dict name = in_dict' name /\ has_attr name = has_attr' name).

Lemma add_links_ext (wanted : string -> bool)
    (trunk children : list (string * obj)) :
  Forall (fun c => wanted (fst c) = true -> same (fst c)) trunk ->
  add_links in_dict has_attr wanted trunk children
  = add_links in_dict' has_attr' wanted trunk children.
Proof.
  intros Hsame. revert children.
  induction Hsame as [|[name link] rest Hname _ IH]; intros children; [done|].
  cbn [add_links]. destruct (wanted name) eqn:Hw; [|apply IH].
  destruct (Hname Hw) as [Hd Ha]. cbn [fst] in Hd, Ha.
  unfold add_link, set_link. rewrite Hd, Ha.
  destruct (_ || _); [done|]. destruct (negb _); [done|].
  destruct (_ || _); [done|]. cbn [and_then]. apply IH.
Qed.

Lemma names_Mixed_same (trunk : list (string * expr)) :
  Forall same (link_names (Mixed trunk)) ->
  Forall (fun ne => same (fst ne) /\ Forall same (link_names (snd ne))) trunk.
Proof.
  induction trunk as [|[name e] rest IH]; intros Hn; [constructor|].
  simpl in Hn. apply Forall_cons in Hn as [Hname Hn].
  apply Forall_app in Hn as [He Hrest].
  constructor; [done|]. by apply IH.
Qed.

Lemma names_Tower_same (trunk : list (string * expr)) :
  Forall same (link_names (Tower trunk)) ->
  Forall (fun ne => (startswith_underscore (fst ne) = false -> same (fst ne))
                    /\ Forall same (link_names (snd ne))) trunk.
Proof.
  induction trunk as [|[name e] rest IH]; intros Hn; [constructor|].
  simpl in Hn. apply Forall_app in Hn as [Hname Hn].
  apply Forall_app in Hn as [He Hrest].
  constructor; [|by apply IH]. split; [|done].
  cbn [fst]. intros Hu. rewrite Hu in Hname.
  by apply Forall_cons in Hname as [Hname _].
Qed.

Lemma build_all_ext (trunk : list (string * expr)) :
  Forall (fun ne => build in_dict has_attr (snd ne)
                    = build in_dict' has_attr' (snd ne)) trunk ->
  build_all in_dict has_attr trunk = build_all in_dict' has_attr' trunk.
Proof.
  induction 1 as [|[name e] rest He _ IH]; [done|].
  cbn [build_all]. cbn [snd] in He. by rewrite He, IH.
Qed.

Lemma build_ext (e : expr) :
  Forall same (link_names e) ->
  build in_dict has_attr e = build in_dict' has_attr' e.
Proof.
  induction e as [p|trunk IH|trunk IH] using expr_ind'; intros Hn; [done|..].
  - rewrite !build_Mixed. apply names_Mixed_same in Hn.
    assert (Hall : build_all in_dict has_attr trunk
                   = build_all in_dict' has_attr' trunk).
    { apply build_all_ext. rewrite List.Forall_forall in *.
      intros ne Hne. apply (IH ne Hne), (Hn ne Hne). }
    rewrite Hall. destruct (build_all in_dict' has_attr' trunk) as [tr|err] eqn:Htr;
      [|done].
    cbn [and_then]. unfold Mixed_init. rewrite (add_links_ext _ tr []); [done|].
    assert (Hnames : Forall same (map fst tr)).
    { rewrite (build_all_names _ _ _ _ Htr), List.Forall_forall.
      intros name Hin. apply in_map_iff in Hin as (ne & <- & Hne).
      rewrite List.Forall_forall in Hn. apply (Hn ne Hne). }
    rewrite List.Forall_forall in *. intros c Hc _.
    apply Hnames, in_map_iff. by exists c.
  - rewrite !build_Tower. apply names_Tower_same in Hn.
    assert (Hall : build_all in_dict has_attr trunk
                   = build_all in_dict' has_attr' trunk).
    { apply build_all_ext. rewrite List.Forall_forall in *.
      intros ne Hne. apply (IH ne Hne), (Hn ne Hne). }
    rewrite Hall. destruct (build_all in_dict' has_attr' trunk) as [tr|err] eqn:Htr;
      [|done].
    cbn [and_then]. unfold Tower_init. rewrite (add_links_ext _ tr []); [done|].
    assert (Hnames : Forall (fun name => startswith_underscore name = false
                                         -> same name) (map fst tr)).
    { rewrite (build_all_names _ _ _ _ Htr), List.Forall_forall.
      intros name Hin. apply in_map_iff in Hin as (ne & <- & Hne).
      rewrite List.Forall_forall in Hn. apply (Hn ne Hne). }
    rewrite List.Forall_forall in *. intros c Hc Hw.
    apply (Hnames (fst c)); [apply in_map_iff; by exists c|].
    by destruct (startswith_underscore (fst c)).
Qed.

Lemma init_scope_ext (attrs : list (string * expr))
    (children : list (string * obj)) :
  Forall (fun ne => same (fst ne) /\ Forall same (link_names (snd ne))) attrs ->
  init_scope in_dict has_attr attrs children
  = init_scope in_dict' has_attr' attrs children.
Proof.
  intros Hattrs. revert children.
  induction Hattrs as [|[name e] rest [[_ Ha] He] _ IH]; intros children; [done|].
  cbn [init_scope]. cbn [fst snd] in Ha, He. rewrite (build_ext e He).
  destruct (build in_dict' has_attr' e) as [o|err]; [|done].
  cbn [and_then]. unfold set_link. rewrite Ha.
  destruct (_ || _); [done|]. cbn [and_then]. apply IH.
Qed.

End Agreement.

(** The chain that [Inception()] leaves when none of its names is
    taken. *)
Lemma Inception_init_plain (in_dict has_attr : string -> bool) :
  (forall name, In name Inception_names ->
                in_dict name = false /\ has_attr name = false) ->
  Inception_init in_dict has_attr
  = Inception_init (fun _ => false) (fun _ => false).
Proof.
  intros Hfree. unfold Inception_init. apply init_scope_ext.
  assert (Hin : Forall (fun ne => In (fst ne) Inception_names
                                  /\ Forall (fun name => In name Inception_names)
                                            (link_names (snd ne)))
                       Inception_attrs).
  { assert (Hb : forallb (fun ne =>
                   existsb (String.eqb (fst ne)) Inception_names
                   && forallb (fun name => existsb (String.eqb name) Inception_names)
                              (link_names (snd ne))) Inception_attrs = true)
      by (vm_compute; reflexivity).
    rewrite forallb_forall in Hb. rewrite List.Forall_forall. intros ne Hne.
    specialize (Hb ne Hne). apply andb_prop in Hb as [H1 H2].
    split.
    - apply existsb_exists in H1 as (n & Hn & Heq).
      apply String.eqb_eq in Heq. by subst.
    - rewrite forallb_forall in H2. rewrite List.Forall_forall.
      intros name Hname. specialize (H2 name Hname).
      apply existsb_exists in H2 as (n & Hn & Heq).
      apply String.eqb_eq in Heq. by subst. }
  rewrite List.Forall_forall in *. intros ne Hne.
  destruct (Hin ne Hne) as [H1 H2]. split; [by apply Hfree|].
  rewrite List.Forall_forall in *. intros name Hname. by apply Hfree, H2.
Qed.

(** X15.  When none of the names of its links is an attribute that a new
    chain already has, [Inception()] can be constructed, and on an input
    of shape [(n, 3, 299, 299)] the shapes that Chainer's rules give to
    the successive values of [h] are those of the commented-out assertions
    of [__call__], for every number [n] of examples: every layer is handed
    the number of channels it was built for, the branches of every mixed
    layer agree on the extents they do not concatenate, the features have
    shape [(n, 2048)] and the result has shape [(n, 1008)], one row of
    [n_classes] entries per example. *)
Theorem Inception_shapes (in_dict has_attr : string -> bool) (n : nat) :
  (forall name, In name Inception_names ->
                in_dict name = false /\ has_attr name = false) ->
  (1 <= n)%nat ->
  exists self,
    Inception_init in_dict has_attr = Done self
    /\ trace_steps (Inception_steps shapes self) [n; 3; 299; 299]%nat
       = Done (Inception_asserted n)
    /\ Inception_layers shapes self [n; 3; 299; 299]%nat true
       = Done [n; 2048]%nat
    /\ Inception_layers shapes self [n; 3; 299; 299]%nat false
       = Done [n; n_classes].
Proof.
  intros Hfree Hn. rewrite (Inception_init_plain _ _ Hfree).
  set (self := match Inception_init (fun _ => false) (fun _ => false) with
               | Done s => s
               | Fails _ => []
               end).
  assert (Hself : Inception_init (fun _ => false) (fun _ => false) = Done self)
    by (vm_compute; reflexivity).
  exists self. split; [exact Hself|].
  pose proof (shapes_batch n) as Hsim.
  pose proof (batch_of_intro n [3; 299; 299]%nat) as Hin.
  assert (Htrace : trace_steps (Inception_steps shapes self) [n; 3; 299; 299]%nat
                   = Done (Inception_asserted n)).
  { pose proof (trace_steps_related (batch_of n) _ _ _ _
                  (Inception_steps_related (batch_of n) shapes shapes Hsim self)
                  Hin) as Hrel.
    assert (Hone : trace_steps (Inception_steps shapes self) [1; 3; 299; 299]%nat
                   = Done (Inception_asserted 1)) by (vm_compute; reflexivity).
    rewrite Hone in Hrel. apply related_Done_r in Hrel as (xs & -> & Hxs).
    apply batch_of_list in Hxs as [_ ->]. reflexivity. }
  split; [exact Htrace|].
  assert (Hrun : run_steps (Inception_steps shapes self) [n; 3; 299; 299]%nat
                 = Done [n; 2048; 1; 1]%nat).
  { pose proof (run_steps_related (batch_of n) _ _ _ _
                  (Inception_steps_related (batch_of n) shapes shapes Hsim self)
                  Hin) as Hrel.
    assert (Hone : run_steps (Inception_steps shapes self) [1; 3; 299; 299]%nat
                   = Done [1; 2048; 1; 1]%nat) by (vm_compute; reflexivity).
    rewrite Hone in Hrel.
    apply related_Done_r in Hrel as (x & -> & s & -> & Hy).
    by injection Hy as <-. }
  assert (Hreshape : shape_reshape [n; 2048; 1; 1]%nat 2048 = Done [n; 2048]%nat).
  { unfold shape_reshape. cbn [fold_right].
    replace (n * (2048 * (1 * (1 * 1))))%nat with (n * 2048)%nat by lia.
    rewrite Nat.Div0.mod_mul, Nat.div_mul by lia. reflexivity. }
  unfold Inception_layers. rewrite Hrun. cbn [and_then F_reshape shapes].
  rewrite Hreshape. cbn [and_then]. split; [reflexivity|].
  pose proof (getattr_call_related (batch_of n) shapes shapes self "logit"
                _ _ (children_kept (batch_of n) shapes shapes Hsim self)
                (batch_of_intro n [2048]%nat)) as Hrel.
  assert (Hone : getattr_call shapes self "logit" [1; 2048]%nat
                 = Done [1; n_classes]%nat) by (vm_compute; reflexivity).
  rewrite Hone in Hrel.
  apply related_Done_r in Hrel as (x & -> & s & -> & Hy).
  injection Hy as <-. reflexivity.
Qed.

Lemma Inception_shapes_witness :
  exists self,
    Inception_init (fun name => String.eqb name "name")
                   (fun name => String.eqb name "name" || String.eqb name "links")
    = Done self
    /\ trace_steps (Inception_steps shapes self) [32; 3; 299; 299]%nat
       = Done (Inception_asserted 32)
    /\ Inception_layers shapes self [32; 3; 299; 299]%nat true
       = Done [32; 2048]%nat
    /\ Inception_layers shapes self [32; 3; 299; 299]%nat false
       = Done [32; n_classes]%nat.
Proof.
  apply Inception_shapes; [|lia].
  intros name Hin. unfold Inception_names in Hin. cbn [In] in Hin.
  repeat (destruct Hin as [<-|Hin]; [split; reflexivity|]).
  destruct Hin.
Defined.
